(** * ROSE-HistoricMode: a shallow embedding of the plugin and its properties

    The plugin is one JavaScript closure (the init function [initHistoricMode])
    holding module-level variables and a handful of handlers.  The embedding
    keeps that shape: the module-level variables are the fields of one
    [State] record, every handler is a function on that record, and the
    browser (socket, timers, third-party DOM, observer) is the source of
    [Event]s consumed by [step].

    Abstractions made, all outside the repository's own code:
    - a CSS declaration block is a finite map from property names to
      (value, important) pairs; [setProperty] stores its argument as given;
    - the payload [data] of log records and the [timestamp] fields are left
      out of outbound messages;
    - timers are identified by the number [setTimeout] returned, and any
      pending timer may be the next to fire;
    - numbers produced by [parseInt] are integers of unbounded size, and
      white space is the ASCII set (space, tab, line feed, vertical tab,
      form feed, carriage return);
    - [localStorage] accesses and [new WebSocket] do not throw. *)

From stdpp Require Import base option list strings gmap fin_maps pretty.
From Stdlib Require Import ZArith Ascii String Lia.

Local Open Scope string_scope.
Local Open Scope list_scope.

#[local] Set Warnings "-clear-no-such-hyp".


(** ** JavaScript string primitives used by the plugin *)

Module Js.

(** [s.includes(sub)] *)
Fixpoint includes (s sub : string) : bool :=
  if String.prefix sub s then true
  else match s with
       | EmptyString => false
       | String _ rest => includes rest sub
       end.

(** Truthiness of a string value: every string but the empty one. *)
Definition truthy (s : string) : bool :=
  match s with EmptyString => false | _ => true end.

(** Truthiness of a field that may be missing. *)
Definition truthy_opt (o : option string) : bool :=
  match o with Some s => truthy s | None => false end.

Definition is_space (c : ascii) : bool :=
  let n := nat_of_ascii c in
  (n =? 32)%nat || ((9 <=? n)%nat && (n <=? 13)%nat).

Fixpoint trim_start (s : string) : string :=
  match s with
  | String c rest => if is_space c then trim_start rest else s
  | EmptyString => EmptyString
  end.

Fixpoint string_rev_onto (s acc : string) : string :=
  match s with
  | EmptyString => acc
  | String c rest => string_rev_onto rest (String c acc)
  end.

Definition string_rev (s : string) : string := string_rev_onto s EmptyString.

(** [s.trim()] *)
Definition trim (s : string) : string :=
  string_rev (trim_start (string_rev (trim_start s))).

Definition digit_of (c : ascii) : option Z :=
  let n := nat_of_ascii c in
  if ((48 <=? n)%nat && (n <=? 57)%nat)%bool
  then Some (Z.of_nat (n - 48)) else None.

(** Longest prefix of decimal digits, accumulated left to right; the
    boolean records whether at least one digit was read. *)
Fixpoint digits (s : string) (acc : Z) (seen : bool) : Z * bool :=
  match s with
  | String c rest =>
      match digit_of c with
      | Some d => digits rest (10 * acc + d)%Z true
      | None => (acc, seen)
      end
  | EmptyString => (acc, seen)
  end.

(** [parseInt(s, 10)]: leading white space is skipped, one sign is
    accepted, then the longest run of digits is read; [None] is NaN. *)
Definition parseInt (s : string) : option Z :=
  let s1 := trim_start s in
  let '(neg, s2) :=
    match s1 with
    | String "-"%char rest => (true, rest)
    | String "+"%char rest => (false, rest)
    | _ => (false, s1)
    end in
  match digits s2 0%Z false with
  | (n, true) => Some (if neg then (- n)%Z else n)
  | (_, false) => None
  end.

(** The guard [!isNaN(n) && n > 0] applied to a [parseInt] result. *)
Definition positive_port (o : option Z) : option Z :=
  match o with
  | Some n => if (0 <? n)%Z then Some n else None
  | None => None
  end.

End Js.

(** ** The part of the DOM the plugin reads and writes *)

Module Dom.

(** A CSS declaration block: property name to (value, important). *)
Abbreviation Style := (gmap string (string * bool)).

Record Element := mkElement {
  classList : gset string;
  style : Style
}.

Definition setProperty (name value : string) (important : bool) (s : Style) : Style :=
  <[name := (value, important)]> s.

Definition removeProperty (name : string) (s : Style) : Style :=
  delete name s.

(** [getPropertyValue] yields the empty string for an unset property. *)
Definition getPropertyValue (name : string) (s : Style) : string :=
  match s !! name with Some (v, _) => v | None => EmptyString end.

Definition setAll (decls : list (string * string)) (s : Style) : Style :=
  fold_left (fun acc d => setProperty (fst d) (snd d) true acc) decls s.

Definition removeAll (names : list string) (s : Style) : Style :=
  fold_left (fun acc n => removeProperty n acc) names s.

End Dom.

Import Dom.

(** ** DOM Decoration Applier *)

Definition HISTORIC_FLAG_ASSET_PATH : string := "historic_flag.png".
Definition HISTORIC_CLASS : string := "lu-historic-flag-active".
Definition RANDOM_CLASS : string := "lu-random-flag-active".

Definition dquote : string := String (ascii_of_nat 34) EmptyString.

(** The value written to [background-image]: the URL wrapped in url("..."). *)
Definition cssUrl (url : string) : string :=
  String.append "url(" (String.append dquote (String.append url (String.append dquote ")"))).

(** The three properties that force the element visible. *)
Definition visibleDecls : list (string * string) :=
  [ ("display", "block"); ("visibility", "visible"); ("opacity", "1") ].

(** The presentation properties set after the marker class is added, in
    the order of the source. *)
Definition flagDecls (url : string) : list (string * string) :=
  [ ("background-image", cssUrl url);
    ("background-repeat", "no-repeat");
    ("background-size", "contain");
    ("height", "32px");
    ("width", "32px");
    ("position", "absolute");
    ("right", "-14px");
    ("top", "-14px");
    ("pointer-events", "none");
    ("cursor", "default");
    ("-webkit-user-select", "none");
    ("list-style-type", "none");
    ("content", " ") ].

(** The apply branch of [updateHistoricFlag] (the statements run when
    historic mode is active and the image URL is known). *)
Definition showFlagOnElement (url : string) (element : Element) : Element :=
  {| classList := classList element ∪ {[ HISTORIC_CLASS ]};
     style := setAll (flagDecls url) (setAll visibleDecls (style element)) |}.

(** The properties [hideFlagOnElement] removes when no other flag is active. *)
Definition sharedProps : list string :=
  [ "background-image"; "background-repeat"; "background-size"; "height";
    "width"; "position"; "right"; "top"; "pointer-events"; "cursor";
    "-webkit-user-select"; "list-style-type"; "content" ].

Definition hiddenDecls : list (string * string) :=
  [ ("display", "none"); ("visibility", "hidden"); ("opacity", "0") ].

Definition hideFlagOnElement (element : Element) : Element :=
  let classes := classList element ∖ {[ HISTORIC_CLASS ]} in
  let hasRandomFlag := bool_decide (RANDOM_CLASS ∈ classes) in
  if negb hasRandomFlag then
    {| classList := classes;
       style := setAll hiddenDecls (removeAll sharedProps (style element)) |}
  else
    let bgImage := getPropertyValue "background-image" (style element) in
    if Js.truthy bgImage && Js.includes bgImage "historic_flag.png" then
      {| classList := classes;
         style := removeProperty "background-image" (style element) |}
    else
      {| classList := classes; style := style element |}.

(** ** Bridge Port Resolver *)

Module Resolver.

(** The four places where [loadBridgePort] calls [fetch]. *)
Inductive Stage :=
| Cached    (* the port read from localStorage, path /bridge-port *)
| Default   (* port 50000, path /bridge-port *)
| Sweep     (* ports 50001..50010, path /bridge-port *)
| Legacy.   (* ports 50001..50010, path /port *)

(** What one [fetch] does: the promise rejects (network error or the
    abort signal's timeout), or it resolves to a response whose [ok] flag
    tells a 2xx status and whose body, when it can be read, is a text. *)
Inductive FetchOutcome :=
| FetchRejects
| Responds (ok : bool) (text : option string).

(** The host and network, as the resolver sees them. *)
Definition Network := Stage -> Z -> FetchOutcome.

(** The body shared by the four call sites:
    response.ok, response.text(), parseInt(text.trim(), 10), the guard. *)
Inductive ProbeResult :=
| Adopted (fetchedPort : Z)   (* a positive port number was read *)
| Declined                    (* completed without a usable port *)
| Threw.                      (* an exception reached the call site *)

Definition probe (o : FetchOutcome) : ProbeResult :=
  match o with
  | FetchRejects => Threw
  | Responds false _ => Declined
  | Responds true None => Threw
  | Responds true (Some portText) =>
      match Js.positive_port (Js.parseInt (Js.trim portText)) with
      | Some fetchedPort => Adopted fetchedPort
      | None => Declined
      end
  end.

(** A sweep promise: [.catch(() => null)] turns an exception into null. *)
Definition sweepProbe (o : FetchOutcome) : option Z :=
  match probe o with
  | Adopted fetchedPort => Some fetchedPort
  | Declined | Threw => None
  end.

Definition DEFAULT_PORT : Z := 50000.
Definition DISCOVERY_START_PORT : Z := 50000.
Definition DISCOVERY_END_PORT : Z := 50010.

(** The ports of the two for loops: START + 1 up to END inclusive. *)
Definition sweepPorts : list Z :=
  seqZ (DISCOVERY_START_PORT + 1) (DISCOVERY_END_PORT - DISCOVERY_START_PORT).

(** The scan over the settled results: the first non-null value. *)
Fixpoint firstFulfilled (results : list (option Z)) : option Z :=
  match results with
  | [] => None
  | Some p :: _ => Some p
  | None :: rest => firstFulfilled rest
  end.

Record LoadResult := mkLoadResult {
  found : bool;                    (* the value returned *)
  BRIDGE_PORT : Z;                 (* the module variable afterwards *)
  localStorage : option string;    (* the item under rose_bridge_port *)
  fetched : list (Stage * Z)       (* the fetch calls made, in call order *)
}.

(** The cached-port block.  It yields the adopted port if any, the
    storage item afterwards and the fetch calls made. *)
Definition cachedStage (net : Network) (storage : option string)
  : option Z * option string * list (Stage * Z) :=
  match storage with
  | Some cachedPort =>
      if Js.truthy cachedPort then
        match Js.positive_port (Js.parseInt cachedPort) with
        | Some port =>
            match probe (net Cached port) with
            | Adopted fetchedPort => (Some fetchedPort, storage, [(Cached, port)])
            | Declined => (None, storage, [(Cached, port)])
            | Threw => (None, None, [(Cached, port)])
            end
        | None => (None, storage, [])
        end
      else (None, storage, [])
  | None => (None, storage, [])
  end.

Definition sweepStage (net : Network) (stage : Stage) : option Z :=
  firstFulfilled (map (fun port => sweepProbe (net stage port)) sweepPorts).

Definition sweepCalls (stage : Stage) : list (Stage * Z) :=
  map (fun port => (stage, port)) sweepPorts.

Definition loadBridgePort (net : Network) (port0 : Z) (storage0 : option string)
  : LoadResult :=
  let '(hit, storage1, calls1) := cachedStage net storage0 in
  match hit with
  | Some fetchedPort => mkLoadResult true fetchedPort storage1 calls1
  | None =>
      let calls2 := calls1 ++ [(Default, DEFAULT_PORT)] in
      match probe (net Default DEFAULT_PORT) with
      | Adopted fetchedPort =>
          mkLoadResult true fetchedPort (Some (pretty fetchedPort)) calls2
      | Declined | Threw =>
          let calls3 := calls2 ++ sweepCalls Sweep in
          match sweepStage net Sweep with
          | Some fetchedPort =>
              mkLoadResult true fetchedPort (Some (pretty fetchedPort)) calls3
          | None =>
              let calls4 := calls3 ++ sweepCalls Legacy in
              match sweepStage net Legacy with
              | Some fetchedPort =>
                  mkLoadResult true fetchedPort (Some (pretty fetchedPort)) calls4
              | None => mkLoadResult false port0 storage1 calls4
              end
          end
      end
  end.

End Resolver.

(** ** The document: third-party tree, element data and the popup label *)

Module Page.

(** The third-party tree: nodes carry an identity; classes and inline
    style of a node live in the element store under that identity. *)
#[warnings="-register-all"]
Inductive Tree := Node (nodeId : nat) (children : list Tree).

Definition nodeId (t : Tree) : nat := match t with Node i _ => i end.
Definition children (t : Tree) : list Tree := match t with Node _ ks => ks end.

(** A node and all nodes below it, in document order. *)
Fixpoint subtrees (t : Tree) : list Tree :=
  match t with
  | Node _ ks => t :: flat_map subtrees ks
  end.

Definition descendants (t : Tree) : list Tree := flat_map subtrees (children t).

(** The label created by [showSkinName]: the div with id
    historic-popup-layer, its text span and its [_timer] property. *)
Record Popup := mkPopup {
  popupSerial : nat;          (* identity of the div *)
  popupText : string;         (* textContent of .popup-text *)
  popupTimer : option nat     (* el._timer *)
}.

Record Document := mkDocument {
  body : list Tree;
  elements : gmap nat Element;
  popup : option Popup
}.

Definition emptyElement : Element := mkElement ∅ ∅.

Definition getElement (d : Document) (id : nat) : Element :=
  default emptyElement (elements d !! id).

Definition updateElement (f : Element -> Element) (id : nat) (d : Document) : Document :=
  mkDocument (body d) (<[id := f (getElement d id)]> (elements d)) (popup d).

Definition setPopup (p : option Popup) (d : Document) : Document :=
  mkDocument (body d) (elements d) p.

(** A compound class selector [.a.b] is the list of its class names. *)
Definition matchesSel (d : Document) (sel : list string) (t : Tree) : bool :=
  forallb (fun c => bool_decide (c ∈ classList (getElement d (nodeId t)))) sel.

Definition querySelectorAllIn (d : Document) (scope : list Tree) (sel : list string)
  : list Tree :=
  List.filter (matchesSel d sel) scope.

(** [document.querySelector(sel)] *)
Definition querySelector (d : Document) (sel : list string) : option Tree :=
  head (querySelectorAllIn d (flat_map subtrees (body d)) sel).

(** [node.querySelector(sel)]: descendants only. *)
Definition querySelectorIn (d : Document) (node : Tree) (sel : list string) : option Tree :=
  head (querySelectorAllIn d (descendants node) sel).

End Page.

Import Page.

(** ** Bridge Client and View Synchronizer *)

Inductive ReadyState := CONNECTING | OPEN | CLOSING | CLOSED.

(** Outbound frames (the argument of [JSON.stringify]). *)
Inductive Outbound :=
| ChromaLog (level message : string)
| RequestLocalAsset (assetPath : string).

(** Inbound payloads, after [JSON.parse]. *)
Inductive Payload :=
| HistoricState (active : bool) (historicSkinId : Z) (historicSkinName : option string)
| LocalAssetUrl (assetPath : option string) (url : option string)
| PhaseChange (phase : string)
| OtherPayload.

(** The closures handed to [setTimeout]. *)
Inductive Callback :=
| CbUpdateFlag                 (* () => updateHistoricFlag() *)
| CbRetryFlag                  (* the retry closure of updateHistoricFlag *)
| CbBridgeRetry                (* the closure of scheduleBridgeRetry *)
| CbPopupExpire (serial : nat). (* () => el.remove() *)

Record Timer := mkTimer {
  timerId : nat;
  delay : Z;
  callback : Callback
}.

Record State := mkState {
  bridgeSocket : option ReadyState;              (* null, or the socket's readyState *)
  bridgeReady : bool;
  bridgeQueue : list Outbound;
  wire : list Outbound;                          (* frames passed to bridgeSocket.send *)
  console : list (string * string);              (* level and message written to the console *)
  historicModeActive : bool;
  currentRewardsElement : option nat;
  historicFlagImageUrl : option string;
  pendingHistoricFlagRequest : gmap string bool;
  isInChampSelect : bool;
  retryCount : option nat;                       (* updateHistoricFlag._retryCount *)
  timers : list Timer;                           (* pending timers *)
  nextTimer : nat;                               (* the id the next setTimeout returns *)
  nextSerial : nat;                              (* identity of the next created div *)
  document : Document
}.

Definition set_bridgeSocket (v : option ReadyState) (s : State) : State :=
  mkState v (bridgeReady s) (bridgeQueue s) (wire s) (console s)
    (historicModeActive s) (currentRewardsElement s) (historicFlagImageUrl s)
    (pendingHistoricFlagRequest s) (isInChampSelect s) (retryCount s)
    (timers s) (nextTimer s) (nextSerial s) (document s).

Definition set_bridgeReady (v : bool) (s : State) : State :=
  mkState (bridgeSocket s) v (bridgeQueue s) (wire s) (console s)
    (historicModeActive s) (currentRewardsElement s) (historicFlagImageUrl s)
    (pendingHistoricFlagRequest s) (isInChampSelect s) (retryCount s)
    (timers s) (nextTimer s) (nextSerial s) (document s).

Definition set_bridgeQueue (v : list Outbound) (s : State) : State :=
  mkState (bridgeSocket s) (bridgeReady s) v (wire s) (console s)
    (historicModeActive s) (currentRewardsElement s) (historicFlagImageUrl s)
    (pendingHistoricFlagRequest s) (isInChampSelect s) (retryCount s)
    (timers s) (nextTimer s) (nextSerial s) (document s).

Definition set_wire (v : list Outbound) (s : State) : State :=
  mkState (bridgeSocket s) (bridgeReady s) (bridgeQueue s) v (console s)
    (historicModeActive s) (currentRewardsElement s) (historicFlagImageUrl s)
    (pendingHistoricFlagRequest s) (isInChampSelect s) (retryCount s)
    (timers s) (nextTimer s) (nextSerial s) (document s).

Definition set_console (v : list (string * string)) (s : State) : State :=
  mkState (bridgeSocket s) (bridgeReady s) (bridgeQueue s) (wire s) v
    (historicModeActive s) (currentRewardsElement s) (historicFlagImageUrl s)
    (pendingHistoricFlagRequest s) (isInChampSelect s) (retryCount s)
    (timers s) (nextTimer s) (nextSerial s) (document s).

Definition set_historicModeActive (v : bool) (s : State) : State :=
  mkState (bridgeSocket s) (bridgeReady s) (bridgeQueue s) (wire s) (console s)
    v (currentRewardsElement s) (historicFlagImageUrl s)
    (pendingHistoricFlagRequest s) (isInChampSelect s) (retryCount s)
    (timers s) (nextTimer s) (nextSerial s) (document s).

Definition set_currentRewardsElement (v : option nat) (s : State) : State :=
  mkState (bridgeSocket s) (bridgeReady s) (bridgeQueue s) (wire s) (console s)
    (historicModeActive s) v (historicFlagImageUrl s)
    (pendingHistoricFlagRequest s) (isInChampSelect s) (retryCount s)
    (timers s) (nextTimer s) (nextSerial s) (document s).

Definition set_historicFlagImageUrl (v : option string) (s : State) : State :=
  mkState (bridgeSocket s) (bridgeReady s) (bridgeQueue s) (wire s) (console s)
    (historicModeActive s) (currentRewardsElement s) v
    (pendingHistoricFlagRequest s) (isInChampSelect s) (retryCount s)
    (timers s) (nextTimer s) (nextSerial s) (document s).

Definition set_pendingHistoricFlagRequest (v : gmap string bool) (s : State) : State :=
  mkState (bridgeSocket s) (bridgeReady s) (bridgeQueue s) (wire s) (console s)
    (historicModeActive s) (currentRewardsElement s) (historicFlagImageUrl s)
    v (isInChampSelect s) (retryCount s)
    (timers s) (nextTimer s) (nextSerial s) (document s).

Definition set_isInChampSelect (v : bool) (s : State) : State :=
  mkState (bridgeSocket s) (bridgeReady s) (bridgeQueue s) (wire s) (console s)
    (historicModeActive s) (currentRewardsElement s) (historicFlagImageUrl s)
    (pendingHistoricFlagRequest s) v (retryCount s)
    (timers s) (nextTimer s) (nextSerial s) (document s).

Definition set_retryCount (v : option nat) (s : State) : State :=
  mkState (bridgeSocket s) (bridgeReady s) (bridgeQueue s) (wire s) (console s)
    (historicModeActive s) (currentRewardsElement s) (historicFlagImageUrl s)
    (pendingHistoricFlagRequest s) (isInChampSelect s) v
    (timers s) (nextTimer s) (nextSerial s) (document s).

Definition set_timers (v : list Timer) (s : State) : State :=
  mkState (bridgeSocket s) (bridgeReady s) (bridgeQueue s) (wire s) (console s)
    (historicModeActive s) (currentRewardsElement s) (historicFlagImageUrl s)
    (pendingHistoricFlagRequest s) (isInChampSelect s) (retryCount s)
    v (nextTimer s) (nextSerial s) (document s).

Definition set_nextTimer (v : nat) (s : State) : State :=
  mkState (bridgeSocket s) (bridgeReady s) (bridgeQueue s) (wire s) (console s)
    (historicModeActive s) (currentRewardsElement s) (historicFlagImageUrl s)
    (pendingHistoricFlagRequest s) (isInChampSelect s) (retryCount s)
    (timers s) v (nextSerial s) (document s).

Definition set_nextSerial (v : nat) (s : State) : State :=
  mkState (bridgeSocket s) (bridgeReady s) (bridgeQueue s) (wire s) (console s)
    (historicModeActive s) (currentRewardsElement s) (historicFlagImageUrl s)
    (pendingHistoricFlagRequest s) (isInChampSelect s) (retryCount s)
    (timers s) (nextTimer s) v (document s).

Definition set_document (v : Document) (s : State) : State :=
  mkState (bridgeSocket s) (bridgeReady s) (bridgeQueue s) (wire s) (console s)
    (historicModeActive s) (currentRewardsElement s) (historicFlagImageUrl s)
    (pendingHistoricFlagRequest s) (isInChampSelect s) (retryCount s)
    (timers s) (nextTimer s) (nextSerial s) v.

(** *** Logger and outbound path *)

(** The test [bridgeReady && bridgeSocket && bridgeSocket.readyState === OPEN]. *)
Definition socketOpen (s : State) : bool :=
  bridgeReady s &&
  match bridgeSocket s with Some OPEN => true | _ => false end.

(** The send-or-queue statement shared by [log] and
    [requestHistoricFlagImage]. *)
Definition sendOrQueue (frame : Outbound) (s : State) : State :=
  if socketOpen s then set_wire (wire s ++ [frame]) s
  else set_bridgeQueue (bridgeQueue s ++ [frame]) s.

Definition log (level message : string) (s : State) : State :=
  let s := sendOrQueue (ChromaLog level message) s in
  set_console (console s ++ [(level, message)]) s.

Definition flushBridgeQueue (s : State) : State :=
  match bridgeQueue s with
  | [] => s
  | _ :: _ =>
      if socketOpen s
      then set_bridgeQueue [] (set_wire (wire s ++ bridgeQueue s) s)
      else s
  end.

(** *** Timers *)

Definition setTimeout (cb : Callback) (ms : Z) (s : State) : State :=
  set_nextTimer (S (nextTimer s))
    (set_timers (timers s ++ [mkTimer (nextTimer s) ms cb]) s).

Definition clearTimeout (id : nat) (s : State) : State :=
  set_timers (List.filter (fun t => negb (Nat.eqb (timerId t) id)) (timers s)) s.

(** *** Bridge Client *)

(** [new WebSocket(BRIDGE_URL)] is taken to succeed; the new socket starts
    in state CONNECTING and its four handlers are the socket events of
    [step]. *)
Definition setupBridgeSocket (s : State) : State :=
  match bridgeSocket s with
  | Some OPEN => s
  | _ => set_bridgeSocket (Some CONNECTING) s
  end.

Definition scheduleBridgeRetry (s : State) : State :=
  setTimeout CbBridgeRetry 3000%Z s.

Definition onopen (s : State) : State :=
  let s := log "info" "WebSocket bridge connected" s in
  let s := set_bridgeReady true s in
  flushBridgeQueue s.

Definition onerror (s : State) : State :=
  log "warn" "WebSocket bridge error" s.

Definition onclose (s : State) : State :=
  let s := log "info" "WebSocket bridge closed, reconnecting..." s in
  let s := set_bridgeReady false s in
  let s := set_bridgeSocket None s in
  scheduleBridgeRetry s.

(** *** The popup label *)

Definition SHOW_SKIN_NAME_ID : string := "historic-popup-layer".

Definition removePopup (s : State) : State :=
  set_document (setPopup None (document s)) s.

(** [document.getElementById(SHOW_SKIN_NAME_ID)?.remove()] *)
Definition removeHistoricSkinName (s : State) : State :=
  match popup (document s) with
  | Some _ => removePopup s
  | None => s
  end.

(** [resetTimer(el)] for the attached popup [p]. *)
Definition resetTimer (p : Popup) (s : State) : State :=
  let s := match popupTimer p with
           | Some id => clearTimeout id s
           | None => s
           end in
  let id := nextTimer s in
  let s := setTimeout (CbPopupExpire (popupSerial p)) 125000%Z s in
  set_document
    (setPopup (Some (mkPopup (popupSerial p) (popupText p) (Some id))) (document s)) s.

Definition showSkinName (skinName : string) (s : State) : State :=
  match popup (document s) with
  | Some p =>
      resetTimer (mkPopup (popupSerial p) skinName (popupTimer p)) s
  | None =>
      let p := mkPopup (nextSerial s) skinName None in
      let s := set_nextSerial (S (nextSerial s)) s in
      resetTimer p s
  end.

Definition handleHistoricSkinNameUpdate (historicSkinName : option string) (s : State)
  : State :=
  match historicSkinName with
  | Some name =>
      if Js.truthy name && negb (String.eqb name "None")
      then showSkinName name s
      else removeHistoricSkinName s
  | None => removeHistoricSkinName s
  end.

(** *** View Synchronizer *)

Definition SEL_SELECTED_ITEM : list string :=
  [ "skin-selection-item"; "skin-selection-item-selected" ].
Definition REWARDS_SELECTOR : list string :=
  [ "skin-selection-item-information"; "loyalty-reward-icon--rewards" ].
Definition SEL_CAROUSEL : list string := [ "skin-selection-carousel" ].
Definition SEL_ITEM : list string := [ "skin-selection-item" ].
Definition SEL_INFO : list string := [ "skin-selection-item-information" ].

(** The loop over the carousel items: the first item whose first
    information child carries the rewards class. *)
Fixpoint scanCarousel (d : Document) (items : list Tree) : option Tree :=
  match items with
  | [] => None
  | item :: rest =>
      match querySelectorIn d item SEL_INFO with
      | Some info =>
          if bool_decide ("loyalty-reward-icon--rewards"
                            ∈ classList (getElement d (nodeId info)))
          then Some info
          else scanCarousel d rest
      | None => scanCarousel d rest
      end
  end.

Definition hideOn (id : nat) (s : State) : State :=
  set_document (updateElement hideFlagOnElement id (document s)) s.

Definition showOn (url : string) (id : nat) (s : State) : State :=
  set_document (updateElement (showFlagOnElement url) id (document s)) s.

Definition findRewardsElement (s : State) : option nat * State :=
  if negb (isInChampSelect s) then (None, s)
  else
    let d := document s in
    let inSelected :=
      match querySelector d SEL_SELECTED_ITEM with
      | Some selectedItem => querySelectorIn d selectedItem REWARDS_SELECTOR
      | None => None
      end in
    match inSelected with
    | Some info =>
        (Some (nodeId info), log "debug" "Found rewards element in selected skin item" s)
    | None =>
        match querySelector d REWARDS_SELECTOR with
        | Some element =>
            (Some (nodeId element), log "debug" "Found rewards element via direct selector" s)
        | None =>
            let inCarousel :=
              match querySelector d SEL_CAROUSEL with
              | Some carousel =>
                  scanCarousel d (querySelectorAllIn d (descendants carousel) SEL_ITEM)
              | None => None
              end in
            match inCarousel with
            | Some info =>
                (Some (nodeId info), log "debug" "Found rewards element in carousel item" s)
            | None =>
                let s := log "debug" "Rewards element not found anywhere" s in
                (None, removeHistoricSkinName s)
            end
        end
    end.

Definition requestHistoricFlagImage (s : State) : State :=
  if negb (Js.truthy_opt (historicFlagImageUrl s))
     && negb (bool_decide (is_Some (pendingHistoricFlagRequest s !! HISTORIC_FLAG_ASSET_PATH)))
  then
    let s := set_pendingHistoricFlagRequest
               (<[HISTORIC_FLAG_ASSET_PATH := true]> (pendingHistoricFlagRequest s)) s in
    let s := log "debug" "Requesting historic flag image from Python" s in
    sendOrQueue (RequestLocalAsset HISTORIC_FLAG_ASSET_PATH) s
  else s.

Definition updateHistoricFlag (s : State) : State :=
  if negb (isInChampSelect s) then s
  else
    let '(found, s) := findRewardsElement s in
    match found with
    | None =>
        if negb (isInChampSelect s) then s
        else
          let s := log "debug" "Rewards element not found, will retry" s in
          let s := match retryCount s with
                   | None | Some 0 => set_retryCount (Some 0) s
                   | Some _ => s
                   end in
          let count := default 0 (retryCount s) in
          if Nat.ltb count 5 then
            let s := set_retryCount (Some (S count)) s in
            setTimeout CbRetryFlag 500%Z s
          else
            let s := log "warn" "Rewards element not found after 5 retries, giving up" s in
            set_retryCount (Some 0) s
    | Some element =>
        let s := set_retryCount (Some 0) s in
        let s := match currentRewardsElement s with
                 | Some previous =>
                     if negb (Nat.eqb previous element) then
                       let s := log "debug"
                                  "Selected skin changed - hiding flag on previous element" s in
                       hideOn previous s
                     else s
                 | None => s
                 end in
        let s := set_currentRewardsElement (Some element) s in
        let s := log "debug" "Found rewards element" s in
        if historicModeActive s then
          match historicFlagImageUrl s with
          | Some url =>
              if Js.truthy url then
                let s := showOn url element s in
                log "info" "Historic flag shown on rewards element" s
              else requestHistoricFlagImage s
          | None => requestHistoricFlagImage s
          end
        else
          let s := hideOn element s in
          log "info" "Historic flag hidden on rewards element" s
    end.

(** The retry closure scheduled by [updateHistoricFlag]. *)
Definition retryFlag (s : State) : State :=
  if isInChampSelect s then updateHistoricFlag s
  else set_retryCount (Some 0) s.

Definition isTargetPhase (phase : string) : bool :=
  String.eqb phase "ChampSelect" || String.eqb phase "FINALIZATION".

Definition handlePhaseChange (phase : string) (s : State) : State :=
  let wasInChampSelect := isInChampSelect s in
  let s := set_isInChampSelect (isTargetPhase phase) s in
  if isInChampSelect s && negb wasInChampSelect then
    let s := log "debug" "Entered ChampSelect phase - enabling plugin" s in
    if historicModeActive s then setTimeout CbUpdateFlag 100%Z s else s
  else if negb (isInChampSelect s) && wasInChampSelect then
    let s := log "debug" "Left ChampSelect phase - disabling plugin" s in
    let s := match currentRewardsElement s with
             | Some element => set_currentRewardsElement None (hideOn element s)
             | None => s
             end in
    match retryCount s with
    | Some (S _) => set_retryCount (Some 0) s
    | Some 0 | None => s
    end
  else s.

Definition handleLocalAssetUrl (assetPath url : option string) (s : State) : State :=
  match assetPath, url with
  | Some path, Some u =>
      if String.eqb path HISTORIC_FLAG_ASSET_PATH && Js.truthy u then
        let s := set_historicFlagImageUrl (Some u) s in
        let s := set_pendingHistoricFlagRequest
                   (delete HISTORIC_FLAG_ASSET_PATH (pendingHistoricFlagRequest s)) s in
        let s := log "info" "Received historic flag image URL from Python" s in
        if isInChampSelect s && historicModeActive s then updateHistoricFlag s else s
      else s
  | _, _ => s
  end.

Definition handleHistoricStateUpdate (active : bool) (historicSkinName : option string)
    (s : State) : State :=
  let s := handleHistoricSkinNameUpdate historicSkinName s in
  let s := set_historicModeActive active s in
  let s := log "info" "Received historic state update" s in
  let s := setTimeout CbUpdateFlag 100%Z s in
  if historicModeActive s then setTimeout CbUpdateFlag 1000%Z s else s.

Definition handleBridgeMessage (payload : Payload) (s : State) : State :=
  match payload with
  | HistoricState active _ name => handleHistoricStateUpdate active name s
  | LocalAssetUrl assetPath url => handleLocalAssetUrl assetPath url s
  | PhaseChange phase => handlePhaseChange phase s
  | OtherPayload => s
  end.

(** [bridgeSocket.onmessage]: [None] is a frame [JSON.parse] rejects. *)
Definition onmessage (data : option Payload) (s : State) : State :=
  match data with
  | Some payload => handleBridgeMessage payload s
  | None => log "error" "Failed to parse bridge message" s
  end.

(** The MutationObserver callback. *)
Definition onmutation (s : State) : State :=
  if isInChampSelect s && historicModeActive s then updateHistoricFlag s else s.

(** *** The event loop *)

(** What the browser can deliver to the plugin between two handlers. *)
Inductive Event :=
| EvOpen                         (* the socket opens: onopen *)
| EvError                        (* onerror *)
| EvClosing                      (* the closing handshake starts, no handler runs *)
| EvClose                        (* the socket is closed: onclose *)
| EvMessage (data : option Payload)
| EvTimer (id : nat)             (* the pending timer [id] fires *)
| EvMutation (body' : list Tree) (elements' : gmap nat Element)
                                 (* the tree changed, the observer is notified *)
| EvRestyle (elements' : gmap nat Element)
                                 (* classes or styles changed, nobody is notified *)
| EvPopupClose.                  (* a click on the popup's close button *)

Definition runCallback (cb : Callback) (s : State) : State :=
  match cb with
  | CbUpdateFlag => updateHistoricFlag s
  | CbRetryFlag => retryFlag s
  | CbBridgeRetry => if negb (bridgeReady s) then setupBridgeSocket s else s
  | CbPopupExpire serial =>
      match popup (document s) with
      | Some p => if Nat.eqb (popupSerial p) serial then removePopup s else s
      | None => s
      end
  end.

Definition fireTimer (id : nat) (s : State) : State :=
  match List.find (fun t => Nat.eqb (timerId t) id) (timers s) with
  | Some t => runCallback (callback t) (clearTimeout id s)
  | None => s
  end.

Definition step (s : State) (e : Event) : State :=
  match e with
  | EvOpen =>
      match bridgeSocket s with
      | Some CONNECTING => onopen (set_bridgeSocket (Some OPEN) s)
      | _ => s
      end
  | EvError =>
      match bridgeSocket s with
      | Some _ => onerror s
      | None => s
      end
  | EvClosing =>
      match bridgeSocket s with
      | Some CONNECTING | Some OPEN => set_bridgeSocket (Some CLOSING) s
      | _ => s
      end
  | EvClose =>
      match bridgeSocket s with
      | Some _ => onclose (set_bridgeSocket (Some CLOSED) s)
      | None => s
      end
  | EvMessage data => onmessage data s
  | EvTimer id => fireTimer id s
  | EvMutation body' elements' =>
      onmutation
        (set_document (mkDocument body' elements' (popup (document s))) s)
  | EvRestyle elements' =>
      set_document (mkDocument (body (document s)) elements' (popup (document s))) s
  | EvPopupClose => removeHistoricSkinName s
  end.

Definition run (s : State) (events : list Event) : State :=
  fold_left step events s.

(** The module-level initial values, over the page as it is then. *)
Definition bootState (body0 : list Tree) (elements0 : gmap nat Element) : State :=
  mkState None false [] [] [] false None None ∅ false None [] 1 0
    (mkDocument body0 elements0 None).

(** [init ()].  The awaited [loadBridgePort] writes BRIDGE_PORT, BRIDGE_URL
    and the storage item only, which no handler below reads; injecting the
    style sheet adds a node to [document.head], outside the observed body. *)
Definition init (body0 : list Tree) (elements0 : gmap nat Element) : State :=
  let s := log "info" "Initializing LU-HistoricMode plugin" (bootState body0 elements0) in
  let s := set_historicModeActive false s in
  let s := setupBridgeSocket s in
  let s := requestHistoricFlagImage s in
  log "info" "LU-HistoricMode plugin initialized" s.

(** *** Observations on a state *)

Definition isRequest (f : Outbound) : bool :=
  match f with RequestLocalAsset _ => true | ChromaLog _ _ => false end.

(** Every outbound frame produced so far: on the wire or still queued. *)
Definition outbound (s : State) : list Outbound := wire s ++ bridgeQueue s.

Definition requestsEmitted (s : State) : nat :=
  List.length (List.filter isRequest (outbound s)).

Definition APPLIED_MESSAGE : string := "Historic flag shown on rewards element".

(** The apply branch ends by logging [APPLIED_MESSAGE], and nothing else
    logs it: its occurrences on the console count the runs of that branch. *)
Definition isApplied (entry : string * string) : bool :=
  String.eqb (snd entry) APPLIED_MESSAGE.

Definition appliedCount (s : State) : nat :=
  List.length (List.filter isApplied (console s)).

Definition consoleCount (message : string) (s : State) : nat :=
  List.length (List.filter (fun entry => String.eqb (snd entry) message) (console s)).

(** The phase-membership of the last phase-change message of a history,
    [false] when there is none. *)
Fixpoint lastPhaseIsTarget (events : list Event) (acc : bool) : bool :=
  match events with
  | [] => acc
  | EvMessage (Some (PhaseChange phase)) :: rest => lastPhaseIsTarget rest (isTargetPhase phase)
  | _ :: rest => lastPhaseIsTarget rest acc
  end.

(** ** Auxiliary definitions used in the statements below *)

(** A result with one more fetch call in front of its call list. *)
Definition after (call : Resolver.Stage * Z) (r : Resolver.LoadResult)
  : Resolver.LoadResult :=
  Resolver.mkLoadResult (Resolver.found r) (Resolver.BRIDGE_PORT r)
    (Resolver.localStorage r) (call :: Resolver.fetched r).

(** A result whose storage item is put back when nothing was found. *)
Definition keeping (cachedPort : string) (r : Resolver.LoadResult)
  : Resolver.LoadResult :=
  Resolver.mkLoadResult (Resolver.found r) (Resolver.BRIDGE_PORT r)
    (if Resolver.found r then Resolver.localStorage r else Some cachedPort)
    (Resolver.fetched r).

(** The three parts of [updateHistoricFlag], named so that each can be
    reasoned about on its own; [updateHistoricFlag_parts] below shows that
    the function is their composition. *)

(** The branch taken when no element was found. *)
Definition missed (s : State) : State :=
  if negb (isInChampSelect s) then s
  else
    let s := log "debug" "Rewards element not found, will retry" s in
    let s := match retryCount s with
             | None | Some 0 => set_retryCount (Some 0) s
             | Some _ => s
             end in
    let count := default 0 (retryCount s) in
    if Nat.ltb count 5 then
      let s := set_retryCount (Some (S count)) s in
      setTimeout CbRetryFlag 500%Z s
    else
      let s := log "warn" "Rewards element not found after 5 retries, giving up" s in
      set_retryCount (Some 0) s.

(** The bookkeeping done once an element was found. *)
Definition bookkeep (element : nat) (s : State) : State :=
  let s := set_retryCount (Some 0) s in
  let s := match currentRewardsElement s with
           | Some previous =>
               if negb (Nat.eqb previous element) then
                 let s := log "debug"
                            "Selected skin changed - hiding flag on previous element" s in
                 hideOn previous s
               else s
           | None => s
           end in
  let s := set_currentRewardsElement (Some element) s in
  log "debug" "Found rewards element" s.

(** The final choice: request the image, apply the flag, or hide it. *)
Definition settle (element : nat) (s : State) : State :=
  if historicModeActive s then
    match historicFlagImageUrl s with
    | Some url =>
        if Js.truthy url then
          let s := showOn url element s in
          log "info" "Historic flag shown on rewards element" s
        else requestHistoricFlagImage s
    | None => requestHistoricFlagImage s
    end
  else
    let s := hideOn element s in
    log "info" "Historic flag hidden on rewards element" s.

(** The retries already used: an unset counter counts as zero, as in the
    guard at the start of the retry branch. *)
Definition retriesUsed (s : State) : nat := default 0 (retryCount s).

(** The asset URL is unresolved and a request is marked pending. *)
Definition awaitingAsset (s : State) : Prop :=
  historicFlagImageUrl s = None
  ∧ is_Some (pendingHistoricFlagRequest s !! HISTORIC_FLAG_ASSET_PATH).

(** A local-asset-url message that passes the guard of
    [handleLocalAssetUrl]. *)
Definition resolves (assetPath url : option string) : bool :=
  match assetPath, url with
  | Some path, Some u => String.eqb path HISTORIC_FLAG_ASSET_PATH && Js.truthy u
  | _, _ => false
  end.

Definition resolving (e : Event) : bool :=
  match e with
  | EvMessage (Some (LocalAssetUrl assetPath url)) => resolves assetPath url
  | _ => false
  end.

(** Every timer id in use is below the id the next [setTimeout] returns. *)
Definition timersFresh (s : State) : Prop :=
  Forall (λ t, timerId t < nextTimer s) (timers s).

(** The readiness flag is only set on a socket that has been opened, and
    nothing waits in the queue while frames go straight to the socket. *)
Definition bridgeConsistent (s : State) : Prop :=
  (bridgeReady s = true → bridgeSocket s = Some OPEN ∨ bridgeSocket s = Some CLOSING)
  ∧ (socketOpen s = true → bridgeQueue s = []).

(** The page as the third party left it: tree and element data. *)
Definition pageOf (s : State) : list Tree * gmap nat Element :=
  (body (document s), elements (document s)).

(** What a handler adds to the outside world.  [Out P Q s t]: from [s] to
    [t] the socket and the readiness flag are the same, the frames produced
    all satisfy [P] and went to the socket if it was open and to the end
    of the queue otherwise, and the console got entries whose messages
    satisfy [Q]. *)
Definition Out (P : Outbound → Prop) (Q : string → Prop) (s t : State) : Prop :=
  bridgeSocket t = bridgeSocket s
  ∧ bridgeReady t = bridgeReady s
  ∧ (∃ new, Forall P new
       ∧ wire t = wire s ++ (if socketOpen s then new else [])
       ∧ bridgeQueue t = bridgeQueue s ++ (if socketOpen s then [] else new))
  ∧ (∃ said, Forall (λ entry, Q (snd entry)) said ∧ console t = console s ++ said).

Definition outView (s : State) :=
  (bridgeSocket s, bridgeReady s, wire s, bridgeQueue s, console s).

(** The variables read by the final choice of [updateHistoricFlag]. *)
Definition choiceView (s : State) :=
  (isInChampSelect s, historicModeActive s, historicFlagImageUrl s,
   pendingHistoricFlagRequest s).

(** Every log but the one of the apply branch is allowed. *)
Definition Ordinary (P : Outbound → Prop) (Q : string → Prop) : Prop :=
  ∀ level message, message ≠ APPLIED_MESSAGE → P (ChromaLog level message) ∧ Q message.

(** The request may be emitted in [s], as far as [P] is concerned. *)
Definition RequestOk (P : Outbound → Prop) (s : State) : Prop :=
  Js.truthy_opt (historicFlagImageUrl s) = false →
  pendingHistoricFlagRequest s !! HISTORIC_FLAG_ASSET_PATH = None →
  P (RequestLocalAsset HISTORIC_FLAG_ASSET_PATH).

(** The flag may be applied in [s], as far as [P] and [Q] are concerned. *)
Definition ApplyOk (P : Outbound → Prop) (Q : string → Prop) (s : State) : Prop :=
  isInChampSelect s = true → historicModeActive s = true →
  Js.truthy_opt (historicFlagImageUrl s) = true →
  P (ChromaLog "info" APPLIED_MESSAGE) ∧ Q APPLIED_MESSAGE.

(** The variables that decide whether the image has to be requested. *)
Definition assetView (s : State) :=
  (historicFlagImageUrl s, pendingHistoricFlagRequest s).

(** What must not move while the asset is awaited. *)
Definition awaitView (s : State) :=
  (historicFlagImageUrl s, pendingHistoricFlagRequest s,
   requestsEmitted s, appliedCount s).

(** The search of [findRewardsElement] without its logging: the element
    it returns on a given document. *)
Definition locateRewards (d : Document) : option nat :=
  let inSelected :=
    match querySelector d SEL_SELECTED_ITEM with
    | Some selectedItem => querySelectorIn d selectedItem REWARDS_SELECTOR
    | None => None
    end in
  match inSelected with
  | Some info => Some (nodeId info)
  | None =>
      match querySelector d REWARDS_SELECTOR with
      | Some element => Some (nodeId element)
      | None =>
          match querySelector d SEL_CAROUSEL with
          | Some carousel =>
              nodeId <$> scanCarousel d (querySelectorAllIn d (descendants carousel) SEL_ITEM)
          | None => None
          end
      end
  end.

(** Classes and style of the element [id], as a view of the state. *)
Definition elementAt (id : nat) (s : State) : Element := getElement (document s) id.

(** The message delivering the URL of the tracked asset. *)
Definition assetUrlMessage (url : string) : Event :=
  EvMessage (Some (LocalAssetUrl (Some HISTORIC_FLAG_ASSET_PATH) (Some url))).

(** What one step may do to the outbound path: frames are only ever added
    at the end of what was produced so far, the socket only ever receives
    more, the bridge stays consistent, a step during which the socket is
    not open only appends to the queue, and the step that opens the socket
    hands it the whole queue in order and empties the queue. *)
Definition BridgeStep (s s' : State) : Prop :=
  (∃ new, outbound s' = outbound s ++ new)
  ∧ (∃ sent, wire s' = wire s ++ sent)
  ∧ bridgeConsistent s'
  ∧ (socketOpen s = false → socketOpen s' = false →
       wire s' = wire s ∧ ∃ new, bridgeQueue s' = bridgeQueue s ++ new)
  ∧ (socketOpen s = false → socketOpen s' = true →
       wire s' = wire s ++ bridgeQueue s
                   ++ [ChromaLog "info" "WebSocket bridge connected"]
       ∧ bridgeQueue s' = []).

Definition anyFrame : Outbound → Prop := λ _, True.
Definition anyMessage : string → Prop := λ _, True.

(** What one failed attempt writes to the console, and the entry written
    when the retries are exhausted. *)
Definition attemptLog : list (string * string) :=
  [ ("debug", "Rewards element not found anywhere");
    ("debug", "Rewards element not found, will retry") ].

Definition giveUpLog : string * string :=
  ("warn", "Rewards element not found after 5 retries, giving up").

(** The state of a retry campaign started in [s], after [k] retries were
    scheduled and the first [k] of them have fired: the attempt number
    [S k] has just failed and its retry timer is the only new timer. *)
Definition campaignAt (s : State) (k : nat) (t : State) : Prop :=
  isInChampSelect t = true
  ∧ pageOf t = pageOf s
  ∧ retryCount t = Some (S k)
  ∧ timers t = timers s ++ [mkTimer (nextTimer s + k) 500%Z CbRetryFlag]
  ∧ nextTimer t = nextTimer s + S k
  ∧ console t = console s ++ List.concat (replicate (S k) attemptLog).

(** The retry timers of a campaign started in [s], in firing order. *)
Definition retryEvents (s : State) (k : nat) : list Event :=
  map EvTimer (seq (nextTimer s) k).

Definition timersView (s : State) := (timers s, nextTimer s).

(** No retry is counted while the phase flag is false. *)
Definition retryIdle (s : State) : Prop :=
  isInChampSelect s = false → retriesUsed s = 0.

(** The label currently on the page. *)
Definition popupOf (s : State) : option Popup := popup (document s).

(** The label may only go away between [s] and [t]. *)
Definition fades (s t : State) : Prop := popupOf t = popupOf s ∨ popupOf t = None.

(** The pending timers once the expiry timer of the current label, if
    any, has been cancelled. *)
Definition clearedTimers (s : State) : list Timer :=
  match popupOf s with
  | Some p =>
      match popupTimer p with
      | Some old => List.filter (fun t => negb (Nat.eqb (timerId t) old)) (timers s)
      | None => timers s
      end
  | None => timers s
  end.

(** The identity of the label after [showSkinName]: the one on the page,
    or a new one. *)
Definition labelSerial (s : State) : nat :=
  match popupOf s with
  | Some p => popupSerial p
  | None => nextSerial s
  end.

(** ** Frames: what a handler leaves unchanged

    [Keeps view s t] says that [t] shows the same [view] as [s].  A view
    ignores a variable when writing it is not seen through the view. *)

Section Views.

Context {V : Type} (view : State → V).

Definition Keeps (s t : State) : Prop := view t = view s.

Definition IgnFrames : Prop :=
  (∀ v s, view (set_wire v s) = view s)
  ∧ (∀ v s, view (set_bridgeQueue v s) = view s).
Definition IgnConsole : Prop := ∀ v s, view (set_console v s) = view s.
(** Logging anything but the apply message is not seen. *)
Definition IgnLog : Prop :=
  ∀ level message s, message ≠ APPLIED_MESSAGE → view (log level message s) = view s.
(** Logging the apply message is not seen either. *)
Definition IgnApplied : Prop :=
  ∀ level s, view (log level APPLIED_MESSAGE s) = view s.
Definition IgnBridge : Prop :=
  (∀ v s, view (set_bridgeSocket v s) = view s)
  ∧ (∀ v s, view (set_bridgeReady v s) = view s).
Definition IgnTimers : Prop :=
  (∀ v s, view (set_timers v s) = view s) ∧ (∀ v s, view (set_nextTimer v s) = view s).
Definition IgnElements : Prop :=
  ∀ f id s, view (set_document (updateElement f id (document s)) s) = view s.
Definition IgnPopup : Prop :=
  (∀ p s, view (set_document (setPopup p (document s)) s) = view s)
  ∧ (∀ v s, view (set_nextSerial v s) = view s).
Definition IgnPage : Prop :=
  ∀ b es s, view (set_document (mkDocument b es (popup (document s))) s) = view s.
Definition IgnRetry : Prop := ∀ v s, view (set_retryCount v s) = view s.
Definition IgnCurrent : Prop := ∀ v s, view (set_currentRewardsElement v s) = view s.
Definition IgnPending : Prop := ∀ v s, view (set_pendingHistoricFlagRequest v s) = view s.
Definition IgnUrl : Prop := ∀ v s, view (set_historicFlagImageUrl v s) = view s.
Definition IgnActive : Prop := ∀ v s, view (set_historicModeActive v s) = view s.
Definition IgnPhase : Prop := ∀ v s, view (set_isInChampSelect v s) = view s.

End Views.

(** ** Auxiliary definitions for the further properties *)

(** The value a list of declarations gives to a property, if it names it. *)
Definition declared (p : string) (decls : list (string * string)) : option string :=
  snd <$> List.find (λ d, String.eqb (fst d) p) decls.

(** The sixteen declarations written by the apply branch, in source order. *)
Definition appliedDecls (url : string) : list (string * string) :=
  visibleDecls ++ flagDecls url.

(** Whether a character occurs in a string. *)
Fixpoint occurs (c : ascii) (s : string) : bool :=
  match s with
  | EmptyString => false
  | String a rest => Ascii.eqb a c || occurs c rest
  end.

(** Whether the probe of a candidate yields a port. *)
Definition adopts (net : Resolver.Network) (call : Resolver.Stage * Z) : bool :=
  match Resolver.probe (net (fst call) (snd call)) with
  | Resolver.Adopted _ => true
  | Resolver.Declined | Resolver.Threw => false
  end.

(** The cached probe, made when the storage item is a non-empty string
    that parses to a positive number. *)
Definition cachedCandidate (storage : option string) : list (Resolver.Stage * Z) :=
  match storage with
  | Some cachedPort =>
      if Js.truthy cachedPort then
        match Js.positive_port (Js.parseInt cachedPort) with
        | Some port => [(Resolver.Cached, port)]
        | None => []
        end
      else []
  | None => []
  end.

(** Every fetch [loadBridgePort] can make, in the order it makes them. *)
Definition candidates (storage : option string) : list (Resolver.Stage * Z) :=
  cachedCandidate storage
    ++ (Resolver.Default, Resolver.DEFAULT_PORT)
    :: Resolver.sweepCalls Resolver.Sweep ++ Resolver.sweepCalls Resolver.Legacy.





(** The asset URL is known: set, and not the empty string. *)
Definition resolved (s : State) : Prop :=
  Js.truthy_opt (historicFlagImageUrl s) = true.

(** No element is remembered while the phase flag is false. *)
Definition forgetful (s : State) : Prop :=
  isInChampSelect s = false → currentRewardsElement s = None.

(** The pending reconnection timers, and the pending expiry timers of the
    label with a given identity. *)
Definition isReconnect (t : Timer) : bool :=
  match callback t with CbBridgeRetry => true | _ => false end.

Definition reconnects (s : State) : list Timer := List.filter isReconnect (timers s).

Definition expiresLabel (serial : nat) (t : Timer) : bool :=
  match callback t with CbPopupExpire k => Nat.eqb k serial | _ => false end.

Definition labelExpiry (serial : nat) (s : State) : list Timer :=
  List.filter (expiresLabel serial) (timers s).

(** The test of [clearTimeout]: the timer is not the one cancelled. *)
Definition notId (id : nat) (x : Timer) : bool := negb (Nat.eqb (timerId x) id).

(** Timer ids are fresh and pairwise distinct. *)
Definition timersDistinct (s : State) : Prop :=
  timersFresh s ∧ NoDup (map timerId (timers s)).

(** The readiness flag needs a socket; and there is either a socket and
    no pending reconnection, or no socket and exactly one. *)
Definition connectionOk (s : State) : Prop :=
  (bridgeReady s = true → is_Some (bridgeSocket s))
  ∧ match bridgeSocket s with
    | Some _ => reconnects s = []
    | None => ∃ id, reconnects s = [mkTimer id 3000%Z CbBridgeRetry]
    end.

(** Expiry timers belong to labels already created; the label shown has
    exactly one pending expiry timer, the one its [_timer] names. *)
Definition labelOk (s : State) : Prop :=
  Forall (λ t, ∀ k, callback t = CbPopupExpire k → k < nextSerial s) (timers s)
  ∧ match popupOf s with
    | Some p =>
        popupSerial p < nextSerial s
        ∧ ∃ id, popupTimer p = Some id
                ∧ labelExpiry (popupSerial p) s
                  = [mkTimer id 125000%Z (CbPopupExpire (popupSerial p))]
    | None => True
    end.

Definition scheduled (s : State) : Prop :=
  timersDistinct s ∧ connectionOk s ∧ labelOk s.

Definition scheduleView (s : State) :=
  (bridgeSocket s, bridgeReady s, timers s, nextTimer s, nextSerial s, popupOf s).

Definition timersPopupView (s : State) :=
  (timers s, nextTimer s, nextSerial s, popupOf s).

(** The nodes of the third-party tree, in document order. *)
Definition nodesOf (d : Document) : list Tree := flat_map subtrees (body d).

Definition CAROUSEL_MESSAGE : string := "Found rewards element in carousel item".

(** What a synchronization that finds the element reads and leaves alone. *)
Definition syncView (s : State) :=
  (isInChampSelect s, historicModeActive s, historicFlagImageUrl s, timers s, nextTimer s,
   popupOf s).

(** Two documents with the same tree whose elements carry the same
    classes, the marker class apart. *)
Definition sameButMarker (d d' : Document) : Prop :=
  body d' = body d
  ∧ ∀ id, classList (getElement d' id) ∖ {[ HISTORIC_CLASS ]}
          = classList (getElement d id) ∖ {[ HISTORIC_CLASS ]}.

Definition bodyOf (s : State) : list Tree := body (document s).

(** The flag of the last historic-state message of a history, and the
    URL of its last local-asset-url message that passes the guard. *)
Fixpoint lastActive (events : list Event) (acc : bool) : bool :=
  match events with
  | [] => acc
  | EvMessage (Some (HistoricState active _ _)) :: rest => lastActive rest active
  | _ :: rest => lastActive rest acc
  end.

Fixpoint lastUrl (events : list Event) (acc : option string) : option string :=
  match events with
  | [] => acc
  | EvMessage (Some (LocalAssetUrl assetPath url)) :: rest =>
      lastUrl rest (if resolves assetPath url then url else acc)
  | _ :: rest => lastUrl rest acc
  end.

(** ** Sample inputs used by the examples below *)

(** An element that already carries inline styles, and no random flag. *)
Definition styledElement : Element :=
  mkElement ({[ "skin-selection-item-information" ]} ∪ {[ "loyalty-reward-icon--rewards" ]})
            ({[ "height" := ("48px", false) ]}).

(** An element carrying both flags, with the historic image and the
    shared size set. *)
Definition bothFlagsElement : Element :=
  mkElement ({[ HISTORIC_CLASS ]} ∪ {[ RANDOM_CLASS ]})
    (<[ "background-image" := (cssUrl "http://host/historic_flag.png", true) ]>
       ({[ "height" := ("32px", true) ]})).

(** A host that answers on port 50003 only; every other fetch times out. *)
Definition netOnly50003 : Resolver.Network :=
  fun stage port =>
    match stage with
    | Resolver.Sweep =>
        if (port =? 50003)%Z then Resolver.Responds true (Some "50003")
        else Resolver.FetchRejects
    | _ => Resolver.FetchRejects
    end.

(** Something else listens on the cached port and answers 404 Not Found;
    every other fetch times out. *)
Definition netCached404 : Resolver.Network :=
  fun stage port =>
    match stage with
    | Resolver.Cached => Resolver.Responds false (Some "Not Found")
    | _ => Resolver.FetchRejects
    end.

(** The cached port answers 200 with a body that is not a number. *)
Definition netCachedGarbled : Resolver.Network :=
  fun stage port =>
    match stage with
    | Resolver.Cached => Resolver.Responds true (Some "<html>")
    | _ => Resolver.FetchRejects
    end.

(** Nothing answers at all. *)
Definition netSilent : Resolver.Network :=
  fun _ _ => Resolver.FetchRejects.

(** The plugin started on a page without any rewards element, then told
    that champion select began and that a historic skin named Foo is
    active. *)
Definition labelShown : State :=
  run (init [] ∅)
    [ EvMessage (Some (PhaseChange "ChampSelect"));
      EvMessage (Some (HistoricState true 42 (Some "Foo"))) ].

(** A page where the selected skin item (node 1) holds the rewards icon
    (node 2). *)
Definition selectedItem : Element :=
  mkElement ({[ "skin-selection-item" ]} ∪ {[ "skin-selection-item-selected" ]}) ∅.

Definition rewardsIcon : Element :=
  mkElement ({[ "skin-selection-item-information" ]}
               ∪ {[ "loyalty-reward-icon--rewards" ]}) ∅.

Definition pageBody : list Tree := [ Node 1 [ Node 2 [] ] ].

Definition pageElements : gmap nat Element :=
  <[ 1 := selectedItem ]> ({[ 2 := rewardsIcon ]}).

(** The scenario of the specification: champion select begins, historic
    mode is switched on, and both synchronizations scheduled by that
    message fire before the asset URL is known. *)
Definition scenarioEvents : list Event :=
  [ EvMessage (Some (PhaseChange "ChampSelect"));
    EvMessage (Some (HistoricState true 42 None));
    EvTimer 1; EvTimer 2 ].

Definition scenarioUrl : string := "http://localhost:50000/asset/historic_flag.png".

(** Champion select has begun and ended again. *)
Definition leftChampSelect : list Event :=
  [ EvMessage (Some (PhaseChange "ChampSelect"));
    EvMessage (Some (PhaseChange "None")) ].

(** Champion select has begun, on a page without rewards element. *)
Definition enteredChampSelect : list Event :=
  [ EvMessage (Some (PhaseChange "ChampSelect")) ].

(** A local-asset-url message for another asset. *)
Definition otherAssetMessage : Event :=
  EvMessage (Some (LocalAssetUrl (Some "other.png") (Some "http://localhost:50000/other.png"))).

(** * Properties *)

(** ** DOM Decoration Applier *)

Section Decoration.

Implicit Types (element : Element) (url : string) (sty : Style).

Lemma lookup_removeAll (names : list string) sty (p : string) :
  removeAll names sty !! p = if bool_decide (p ∈ names) then None else sty !! p.
Proof.
  unfold removeAll. revert sty.
  induction names as [|n names IH]; intros sty; cbn [fold_left].
  - rewrite bool_decide_eq_false_2; [done | apply not_elem_of_nil].
  - rewrite IH. unfold removeProperty.
    destruct (decide (p = n)) as [->|Hne].
    + rewrite lookup_delete_eq.
      rewrite (bool_decide_eq_true_2 (n ∈ n :: names)) by apply list_elem_of_here.
      by case_bool_decide.
    + rewrite lookup_delete_ne by congruence.
      repeat case_bool_decide; try done;
        rewrite elem_of_cons in *; intuition congruence.
Qed.

Lemma lookup_setAll_other (decls : list (string * string)) sty (p : string) :
  p ∉ map fst decls → setAll decls sty !! p = sty !! p.
Proof.
  unfold setAll. revert sty.
  induction decls as [|[n v] decls IH]; intros sty Hp; cbn [fold_left]; [done|].
  cbn in Hp. rewrite not_elem_of_cons in Hp. destruct Hp as [Hne Hp].
  rewrite IH by done. unfold setProperty; cbn.
  by rewrite lookup_insert_ne.
Qed.

Lemma lookup_setAll_hidden sty (p : string) :
  setAll hiddenDecls sty !! p =
    if decide (p = "opacity") then Some ("0", true)
    else if decide (p = "visibility") then Some ("hidden", true)
    else if decide (p = "display") then Some ("none", true)
    else sty !! p.
Proof.
  unfold setAll, setProperty; cbn.
  repeat (rewrite lookup_insert; case_decide; subst; [repeat case_decide; done|]).
  repeat case_decide; congruence.
Qed.

Lemma flagDecls_names url : map fst (flagDecls url) = sharedProps.
Proof. reflexivity. Qed.

(** The style left by [hideFlagOnElement] when no other flag is active,
    property by property. *)
Lemma hidden_style_lookup sty (p : string) :
  setAll hiddenDecls (removeAll sharedProps sty) !! p =
    if decide (p = "opacity") then Some ("0", true)
    else if decide (p = "visibility") then Some ("hidden", true)
    else if decide (p = "display") then Some ("none", true)
    else if bool_decide (p ∈ sharedProps) then None
    else sty !! p.
Proof. by rewrite lookup_setAll_hidden, lookup_removeAll. Qed.

Lemma hide_show_style url sty :
  setAll hiddenDecls (removeAll sharedProps (setAll (flagDecls url) (setAll visibleDecls sty)))
  = setAll hiddenDecls (removeAll sharedProps sty).
Proof.
  apply map_eq; intros p. rewrite !hidden_style_lookup.
  repeat (case_decide; [done|]). case_bool_decide; [done|].
  rewrite lookup_setAll_other by (by rewrite flagDecls_names).
  apply lookup_setAll_other. cbn. rewrite !elem_of_cons, elem_of_nil. intuition congruence.
Qed.

Lemma hide_without_random element :
  RANDOM_CLASS ∉ classList element →
  hideFlagOnElement element =
    mkElement (classList element ∖ {[ HISTORIC_CLASS ]})
              (setAll hiddenDecls (removeAll sharedProps (style element))).
Proof.
  intros Hr. unfold hideFlagOnElement.
  rewrite bool_decide_eq_false_2; [done | set_solver].
Qed.

Lemma hide_with_random element :
  RANDOM_CLASS ∈ classList element →
  hideFlagOnElement element =
    mkElement (classList element ∖ {[ HISTORIC_CLASS ]})
      (if Js.truthy (getPropertyValue "background-image" (style element))
          && Js.includes (getPropertyValue "background-image" (style element))
                         "historic_flag.png"
       then removeProperty "background-image" (style element)
       else style element).
Proof.
  intros Hr. unfold hideFlagOnElement.
  rewrite bool_decide_eq_true_2.
  - cbn. by case_match.
  - apply elem_of_difference. split; [done|]. rewrite elem_of_singleton. discriminate.
Qed.

(** C3, as stated, fails: after apply then clear the pre-apply height is
    gone and display is forced to none. *)
Lemma clear_after_apply_counterexample :
  (RANDOM_CLASS ∉ classList styledElement) ∧
  style (hideFlagOnElement (showFlagOnElement "http://host/historic_flag.png" styledElement))
    ≠ style styledElement.
Proof.
  split.
  - unfold styledElement, RANDOM_CLASS; cbn. rewrite not_elem_of_union, !not_elem_of_singleton.
    split; discriminate.
  - intros Heq.
    apply (f_equal (fun sty : Style => sty !! "height")) in Heq.
    vm_compute in Heq. discriminate.
Qed.

(** C3, amended: with no random flag on the element, clearing after an
    apply gives exactly what clearing alone gives: the marker class is
    gone, the thirteen presentation properties are removed, display,
    visibility and opacity are forced to none, hidden and 0, and every
    other property keeps its pre-apply value.  So the pre-apply style is
    restored exactly for an element that was in the cleared state. *)
Theorem clear_after_apply url element :
  RANDOM_CLASS ∉ classList element →
  hideFlagOnElement (showFlagOnElement url element) = hideFlagOnElement element
  ∧ (∀ p : string,
       style (hideFlagOnElement (showFlagOnElement url element)) !! p =
         if decide (p = "opacity") then Some ("0", true)
         else if decide (p = "visibility") then Some ("hidden", true)
         else if decide (p = "display") then Some ("none", true)
         else if bool_decide (p ∈ sharedProps) then None
         else style element !! p)
  ∧ hideFlagOnElement (showFlagOnElement url (hideFlagOnElement element))
      = hideFlagOnElement element.
Proof.
  intros Hr.
  assert (Hshow : ∀ e, RANDOM_CLASS ∉ classList e →
            hideFlagOnElement (showFlagOnElement url e) = hideFlagOnElement e).
  { intros e He. rewrite (hide_without_random e) by done.
    rewrite hide_without_random.
    - unfold showFlagOnElement; cbn [classList style].
      rewrite hide_show_style. f_equal. set_solver.
    - unfold showFlagOnElement; cbn [classList].
      rewrite not_elem_of_union, not_elem_of_singleton. split; [done | discriminate]. }
  split; [by apply Hshow|]. split.
  - intros p. rewrite Hshow, hide_without_random by done. cbn [style].
    apply hidden_style_lookup.
  - rewrite Hshow.
    + rewrite (hide_without_random element) by done.
      rewrite hide_without_random; cbn [classList style]; [|set_solver].
      f_equal; [set_solver|].
      apply map_eq; intros p. rewrite !hidden_style_lookup.
      repeat (case_decide; [done|]). by case_bool_decide.
    + rewrite hide_without_random by done. cbn [classList]. set_solver.
Qed.

Lemma clear_after_apply_witness :
  hideFlagOnElement (showFlagOnElement "http://host/historic_flag.png" styledElement)
    = hideFlagOnElement styledElement.
Proof.
  apply (clear_after_apply "http://host/historic_flag.png" styledElement).
  unfold styledElement, RANDOM_CLASS; cbn.
  rewrite not_elem_of_union, !not_elem_of_singleton. split; discriminate.
Defined.

(** C4: with the random flag on the element, clearing removes the historic
    marker class; the only style property it can remove is background-image,
    and it removes it exactly when the current value mentions
    historic_flag.png; every other property is left as it was. *)
Theorem hide_keeps_shared_styles element :
  RANDOM_CLASS ∈ classList element →
  classList (hideFlagOnElement element) = classList element ∖ {[ HISTORIC_CLASS ]}
  ∧ RANDOM_CLASS ∈ classList (hideFlagOnElement element)
  ∧ (∀ p : string, p ≠ "background-image" →
       style (hideFlagOnElement element) !! p = style element !! p)
  ∧ style (hideFlagOnElement element) !! "background-image" =
      (if Js.includes (getPropertyValue "background-image" (style element))
                      "historic_flag.png"
       then None
       else style element !! "background-image").
Proof.
  intros Hr. rewrite hide_with_random by done. cbn [classList style].
  split; [done|]. split.
  { apply elem_of_difference. split; [done|]. rewrite elem_of_singleton. discriminate. }
  destruct (Js.includes _ _) eqn:Hinc.
  - assert (Js.truthy (getPropertyValue "background-image" (style element)) = true) as ->.
    { destruct (getPropertyValue _ _); [discriminate Hinc | done]. }
    cbn. unfold removeProperty. split.
    + intros p Hp. by rewrite lookup_delete_ne.
    + apply lookup_delete_eq.
  - rewrite andb_false_r. done.
Qed.

Lemma hide_keeps_shared_styles_witness :
  style (hideFlagOnElement bothFlagsElement) !! "height" = Some ("32px", true)
  ∧ style (hideFlagOnElement bothFlagsElement) !! "background-image" = None.
Proof.
  assert (Hr : RANDOM_CLASS ∈ classList bothFlagsElement).
  { unfold bothFlagsElement; cbn. apply elem_of_union_r, elem_of_singleton. reflexivity. }
  destruct (hide_keeps_shared_styles bothFlagsElement Hr) as (_ & _ & Hother & Hbg).
  split.
  - rewrite Hother by discriminate. reflexivity.
  - rewrite Hbg. reflexivity.
Defined.

End Decoration.

(** ** Bridge Port Resolver *)

Section ResolverProps.

Import Resolver.

Variable net : Network.
Variable port0 : Z.

Lemma firstFulfilled_first (results : list (option Z)) (p : Z) :
  firstFulfilled results = Some p ↔
  ∃ pre post, results = pre ++ Some p :: post ∧ Forall (λ r, r = None) pre.
Proof.
  induction results as [|[q|] rest IH]; cbn.
  - split; [discriminate|]. intros (pre & post & Heq & _). by destruct pre.
  - split.
    + intros [= ->]. by exists [], rest.
    + intros (pre & post & Heq & Hpre). destruct pre as [|x pre]; cbn in Heq.
      * congruence.
      * inversion Heq; subst. by inversion Hpre.
  - rewrite IH. split.
    + intros (pre & post & -> & Hpre). exists (None :: pre), post. split; [done|].
      by constructor.
    + intros (pre & post & Heq & Hpre). destruct pre as [|x pre]; cbn in Heq; [done|].
      inversion Heq; subst. inversion Hpre; subst. by exists pre, post.
Qed.

Lemma firstFulfilled_none (results : list (option Z)) :
  firstFulfilled results = None ↔ Forall (λ r, r = None) results.
Proof.
  induction results as [|[q|] rest IH]; cbn.
  - split; [constructor | done].
  - split; [done|]. intros H. by inversion H.
  - rewrite IH. split; [by constructor|]. intros H. by inversion H.
Qed.

(** In a sweep the adopted value is that of the first candidate port, in
    increasing order, whose probe yields a port. *)
Lemma sweepStage_first (stage : Stage) (p : Z) :
  sweepStage net stage = Some p ↔
  ∃ pre port post,
    sweepPorts = pre ++ port :: post
    ∧ sweepProbe (net stage port) = Some p
    ∧ Forall (λ q, sweepProbe (net stage q) = None) pre.
Proof.
  unfold sweepStage. rewrite firstFulfilled_first. split.
  - intros (pre & post & Heq & Hpre).
    apply map_eq_app in Heq as (pre' & rest & Hports & <- & Hrest).
    destruct rest as [|port post']; [done|]. cbn in Hrest. inversion Hrest; subst.
    exists pre', port, post'. split; [done|]. split; [done|].
    by apply Forall_fmap in Hpre.
  - intros (pre & port & post & Hports & Hport & Hpre). rewrite Hports.
    exists (map (λ q, sweepProbe (net stage q)) pre),
           (map (λ q, sweepProbe (net stage q)) post).
    rewrite map_app; cbn. rewrite Hport. split; [done|].
    by apply Forall_fmap.
Qed.

(** The run without a cache: default probe, sweep, legacy sweep, fallback. *)
Lemma loadBridgePort_uncached :
  let r := loadBridgePort net port0 None in
  match probe (net Default DEFAULT_PORT) with
  | Adopted p =>
      r = mkLoadResult true p (Some (pretty p)) [(Default, DEFAULT_PORT)]
  | Declined | Threw =>
      match sweepStage net Sweep with
      | Some p =>
          r = mkLoadResult true p (Some (pretty p))
                ((Default, DEFAULT_PORT) :: sweepCalls Sweep)
      | None =>
          match sweepStage net Legacy with
          | Some p =>
              r = mkLoadResult true p (Some (pretty p))
                    ((Default, DEFAULT_PORT) :: sweepCalls Sweep ++ sweepCalls Legacy)
          | None =>
              r = mkLoadResult false port0 None
                    ((Default, DEFAULT_PORT) :: sweepCalls Sweep ++ sweepCalls Legacy)
          end
      end
  end.
Proof.
  unfold loadBridgePort, cachedStage. cbv zeta.
  destruct (probe (net Default DEFAULT_PORT));
    [done | destruct (sweepStage net Sweep), (sweepStage net Legacy);
            rewrite <- ?app_assoc; done ..].
Qed.

(** The run with a cached port [cachedPort] that parses to [port]. *)
Lemma loadBridgePort_cached (cachedPort : string) (port : Z) :
  Js.truthy cachedPort = true →
  Js.positive_port (Js.parseInt cachedPort) = Some port →
  loadBridgePort net port0 (Some cachedPort) =
    match probe (net Cached port) with
    | Adopted p => mkLoadResult true p (Some cachedPort) [(Cached, port)]
    | Threw => after (Cached, port) (loadBridgePort net port0 None)
    | Declined =>
        keeping cachedPort (after (Cached, port) (loadBridgePort net port0 None))
    end.
Proof.
  intros Ht Hp. unfold loadBridgePort, cachedStage. rewrite Ht, Hp. cbv zeta.
  destruct (probe (net Cached port)); [done|..];
    destruct (probe (net Default DEFAULT_PORT)); try done;
    destruct (sweepStage net Sweep), (sweepStage net Legacy);
    rewrite <- ?app_assoc; done.
Qed.

(** Without a usable cached value no cached probe is made. *)
Lemma loadBridgePort_unusable_cache (cachedPort : string) :
  Js.truthy cachedPort = false ∨ Js.positive_port (Js.parseInt cachedPort) = None →
  loadBridgePort net port0 (Some cachedPort) =
    keeping cachedPort (loadBridgePort net port0 None).
Proof.
  intros Hc. unfold loadBridgePort, cachedStage.
  assert ((if Js.truthy cachedPort
           then match Js.positive_port (Js.parseInt cachedPort) with
                | Some port =>
                    match probe (net Cached port) with
                    | Adopted fetchedPort => (Some fetchedPort, Some cachedPort, [(Cached, port)])
                    | Declined => (None, Some cachedPort, [(Cached, port)])
                    | Threw => (None, None, [(Cached, port)])
                    end
                | None => (None, Some cachedPort, [])
                end
           else (None, Some cachedPort, [])) = (None, Some cachedPort, [])) as ->.
  { destruct Hc as [-> | ->]; [done | by destruct (Js.truthy cachedPort)]. }
  cbv zeta.
  destruct (probe (net Default DEFAULT_PORT)); try done;
    destruct (sweepStage net Sweep), (sweepStage net Legacy); done.
Qed.

End ResolverProps.

(** C6: the resolver's steps, in order.  (1) A cached port is probed first
    and a port read from it is adopted without any other fetch.  A cached
    probe that fails falls through to the run without a cache, the storage
    item being removed when the probe threw (timeout or network error).
    Without a cache: (2) the default port 50000 is probed and a port read
    from it is adopted and stored; (3) otherwise ports 50001 to 50010 are
    all fetched on /bridge-port and the value of the first port in order
    that yields one is adopted and stored; (4) otherwise the same sweep is
    made on /port; (5) otherwise the result is negative and BRIDGE_PORT
    keeps its value, the default. *)
Theorem loadBridgePort_order (net : Resolver.Network) (port0 : Z) :
  (∀ cachedPort port,
      Js.truthy cachedPort = true →
      Js.positive_port (Js.parseInt cachedPort) = Some port →
      Resolver.loadBridgePort net port0 (Some cachedPort) =
        match Resolver.probe (net Resolver.Cached port) with
        | Resolver.Adopted p =>
            Resolver.mkLoadResult true p (Some cachedPort) [(Resolver.Cached, port)]
        | Resolver.Threw =>
            after (Resolver.Cached, port) (Resolver.loadBridgePort net port0 None)
        | Resolver.Declined =>
            keeping cachedPort
              (after (Resolver.Cached, port) (Resolver.loadBridgePort net port0 None))
        end)
  ∧ (let r := Resolver.loadBridgePort net port0 None in
     match Resolver.probe (net Resolver.Default Resolver.DEFAULT_PORT) with
     | Resolver.Adopted p =>
         r = Resolver.mkLoadResult true p (Some (pretty p))
               [(Resolver.Default, Resolver.DEFAULT_PORT)]
     | Resolver.Declined | Resolver.Threw =>
         match Resolver.sweepStage net Resolver.Sweep with
         | Some p =>
             r = Resolver.mkLoadResult true p (Some (pretty p))
                   ((Resolver.Default, Resolver.DEFAULT_PORT)
                      :: Resolver.sweepCalls Resolver.Sweep)
         | None =>
             match Resolver.sweepStage net Resolver.Legacy with
             | Some p =>
                 r = Resolver.mkLoadResult true p (Some (pretty p))
                       ((Resolver.Default, Resolver.DEFAULT_PORT)
                          :: Resolver.sweepCalls Resolver.Sweep
                          ++ Resolver.sweepCalls Resolver.Legacy)
             | None =>
                 r = Resolver.mkLoadResult false port0 None
                       ((Resolver.Default, Resolver.DEFAULT_PORT)
                          :: Resolver.sweepCalls Resolver.Sweep
                          ++ Resolver.sweepCalls Resolver.Legacy)
             end
         end
     end)
  ∧ (∀ stage p,
       Resolver.sweepStage net stage = Some p ↔
       ∃ pre port post,
         Resolver.sweepPorts = pre ++ port :: post
         ∧ Resolver.sweepProbe (net stage port) = Some p
         ∧ Forall (λ q, Resolver.sweepProbe (net stage q) = None) pre).
Proof.
  split; [|split].
  - intros cachedPort port. apply loadBridgePort_cached.
  - apply loadBridgePort_uncached.
  - intros stage p. apply sweepStage_first.
Qed.

(** The scenario of the specification: the cache holds 50002, its probe
    times out, the default port is silent and the host answers on 50003. *)
Lemma loadBridgePort_order_witness :
  Resolver.loadBridgePort netOnly50003 50000 (Some "50002") =
    Resolver.mkLoadResult true 50003 (Some "50003")
      ((Resolver.Cached, 50002%Z) :: (Resolver.Default, 50000%Z)
         :: Resolver.sweepCalls Resolver.Sweep).
Proof.
  destruct (loadBridgePort_order netOnly50003 50000) as (Hcached & _ & _).
  rewrite (Hcached "50002" 50002%Z); [|reflexivity|reflexivity].
  vm_compute. reflexivity.
Defined.

(** C7 fails on the cached port: a 404 answer, or a 200 answer with a body
    that is no number, leaves the storage item in place, while a timeout
    removes it. *)
Theorem cached_probe_failure_kinds :
  Resolver.localStorage (Resolver.loadBridgePort netCached404 50000 (Some "50002"))
    = Some "50002"
  ∧ Resolver.localStorage (Resolver.loadBridgePort netCachedGarbled 50000 (Some "50002"))
    = Some "50002"
  ∧ Resolver.localStorage (Resolver.loadBridgePort netSilent 50000 (Some "50002"))
    = None.
Proof. repeat split; vm_compute; reflexivity. Qed.

(** ** Bridge Client and View Synchronizer *)

#[local] Arguments querySelector : simpl never.
#[local] Arguments querySelectorIn : simpl never.
#[local] Arguments querySelectorAllIn : simpl never.
#[local] Arguments scanCarousel : simpl never.
#[local] Arguments descendants : simpl never.
#[local] Arguments hideFlagOnElement : simpl never.
#[local] Arguments showFlagOnElement : simpl never.
#[local] Arguments getElement : simpl never.
#[local] Arguments isTargetPhase : simpl never.
#[local] Arguments Js.truthy : simpl never.
#[local] Arguments log : simpl never.
#[local] Arguments sendOrQueue : simpl never.

Lemma updateHistoricFlag_parts s :
  updateHistoricFlag s =
    if negb (isInChampSelect s) then s
    else match findRewardsElement s with
         | (Some element, s1) => settle element (bookkeep element s1)
         | (None, s1) => missed s1
         end.
Proof.
  unfold updateHistoricFlag. case_match; [done|].
  destruct (findRewardsElement s) as [[element|] s1]; reflexivity.
Qed.

(** *** Frames: what a handler leaves unchanged

    [Keeps view s t] says that [t] shows the same [view] as [s].  Each
    handler keeps every view that ignores the variables it writes. *)

Section Keeps.

Context {V : Type} (view : State → V).

Lemma Keeps_refl s : Keeps view s s.
Proof. done. Qed.

Lemma Keeps_trans s t u : Keeps view s t → Keeps view t u → Keeps view s u.
Proof. unfold Keeps. congruence. Qed.

Lemma Keeps_send frame s t : IgnFrames view → Keeps view s t → Keeps view s (sendOrQueue frame t).
Proof.
  intros (Hw & Hq) H. unfold Keeps, sendOrQueue in *.
  case_match; by rewrite ?Hw, ?Hq.
Qed.

Lemma IgnLog_basic : IgnFrames view → IgnConsole view → IgnLog view.
Proof.
  intros Hf Hc level message s _. unfold log. cbv zeta. rewrite Hc.
  by apply Keeps_send.
Qed.

Lemma IgnApplied_basic : IgnFrames view → IgnConsole view → IgnApplied view.
Proof.
  intros Hf Hc level s. unfold log. cbv zeta. rewrite Hc.
  by apply Keeps_send.
Qed.

Lemma Keeps_log level message s t :
  IgnLog view → message ≠ APPLIED_MESSAGE → Keeps view s t → Keeps view s (log level message t).
Proof. intros Hl Hm H. unfold Keeps in *. by rewrite Hl. Qed.

Lemma Keeps_log_applied level s t :
  IgnApplied view → Keeps view s t → Keeps view s (log level APPLIED_MESSAGE t).
Proof. intros Hl H. unfold Keeps in *. by rewrite Hl. Qed.

Lemma Keeps_flush s t : IgnFrames view → Keeps view s t → Keeps view s (flushBridgeQueue t).
Proof.
  intros (Hw & Hq) H. unfold Keeps, flushBridgeQueue in *.
  repeat case_match; by rewrite ?Hq, ?Hw.
Qed.

Lemma Keeps_setTimeout cb ms s t :
  IgnTimers view → Keeps view s t → Keeps view s (setTimeout cb ms t).
Proof. intros (Ht & Hn) H. unfold Keeps, setTimeout in *. by rewrite Hn, Ht. Qed.

Lemma Keeps_clearTimeout id s t :
  IgnTimers view → Keeps view s t → Keeps view s (clearTimeout id t).
Proof. intros (Ht & Hn) H. unfold Keeps, clearTimeout in *. by rewrite Ht. Qed.

Lemma Keeps_hideOn id s t : IgnElements view → Keeps view s t → Keeps view s (hideOn id t).
Proof. intros He H. unfold Keeps, hideOn in *. by rewrite He. Qed.

Lemma Keeps_showOn url id s t :
  IgnElements view → Keeps view s t → Keeps view s (showOn url id t).
Proof. intros He H. unfold Keeps, showOn in *. by rewrite He. Qed.

Lemma Keeps_removePopup s t : IgnPopup view → Keeps view s t → Keeps view s (removePopup t).
Proof. intros (Hp & _) H. unfold Keeps, removePopup in *. by rewrite Hp. Qed.

Lemma Keeps_setPopup p s t :
  IgnPopup view → Keeps view s t → Keeps view s (set_document (setPopup p (document t)) t).
Proof. intros (Hp & _) H. unfold Keeps in *. by rewrite Hp. Qed.

Lemma Keeps_nextSerial v s t : IgnPopup view → Keeps view s t → Keeps view s (set_nextSerial v t).
Proof. intros (_ & Hn) H. unfold Keeps in *. by rewrite Hn. Qed.

Lemma Keeps_removeHistoricSkinName s t :
  IgnPopup view → Keeps view s t → Keeps view s (removeHistoricSkinName t).
Proof.
  intros Hp H. unfold removeHistoricSkinName. case_match; [|done].
  by apply Keeps_removePopup.
Qed.

Lemma Keeps_retryCount v s t : IgnRetry view → Keeps view s t → Keeps view s (set_retryCount v t).
Proof. intros Hr H. unfold Keeps in *. by rewrite Hr. Qed.

Lemma Keeps_current v s t :
  IgnCurrent view → Keeps view s t → Keeps view s (set_currentRewardsElement v t).
Proof. intros Hr H. unfold Keeps in *. by rewrite Hr. Qed.

Lemma Keeps_pending v s t :
  IgnPending view → Keeps view s t → Keeps view s (set_pendingHistoricFlagRequest v t).
Proof. intros Hr H. unfold Keeps in *. by rewrite Hr. Qed.

Lemma Keeps_url v s t :
  IgnUrl view → Keeps view s t → Keeps view s (set_historicFlagImageUrl v t).
Proof. intros Hr H. unfold Keeps in *. by rewrite Hr. Qed.

Lemma Keeps_active v s t :
  IgnActive view → Keeps view s t → Keeps view s (set_historicModeActive v t).
Proof. intros Hr H. unfold Keeps in *. by rewrite Hr. Qed.

Lemma Keeps_phase v s t : IgnPhase view → Keeps view s t → Keeps view s (set_isInChampSelect v t).
Proof. intros Hr H. unfold Keeps in *. by rewrite Hr. Qed.

Lemma Keeps_socket v s t : IgnBridge view → Keeps view s t → Keeps view s (set_bridgeSocket v t).
Proof. intros (Hs & _) H. unfold Keeps in *. by rewrite Hs. Qed.

Lemma Keeps_ready v s t : IgnBridge view → Keeps view s t → Keeps view s (set_bridgeReady v t).
Proof. intros (_ & Hr) H. unfold Keeps in *. by rewrite Hr. Qed.

Lemma Keeps_setup s t : IgnBridge view → Keeps view s t → Keeps view s (setupBridgeSocket t).
Proof.
  intros Hb H. unfold setupBridgeSocket. repeat case_match; try done;
    by apply Keeps_socket.
Qed.

Lemma Keeps_page b es s t :
  IgnPage view → Keeps view s t →
  Keeps view s (set_document (mkDocument b es (popup (document t))) t).
Proof. intros Hr H. unfold Keeps in *. by rewrite Hr. Qed.

Lemma Keeps_request s t :
  IgnFrames view → IgnLog view → IgnPending view → Keeps view s t →
  Keeps view s (requestHistoricFlagImage t).
Proof.
  intros Hf Hl Hp H. unfold requestHistoricFlagImage. case_match; [|done].
  by apply Keeps_send, Keeps_log, Keeps_pending.
Qed.

Lemma Keeps_find s t :
  IgnLog view → IgnPopup view → Keeps view s t → Keeps view s (snd (findRewardsElement t)).
Proof.
  intros Hl Hp H. unfold findRewardsElement.
  repeat case_match; cbn [snd]; try done;
    try apply Keeps_removeHistoricSkinName; try apply Keeps_log; done.
Qed.

Lemma Keeps_resetTimer p s t :
  IgnTimers view → IgnPopup view → Keeps view s t → Keeps view s (resetTimer p t).
Proof.
  intros Ht (Hp & _) H. unfold resetTimer. cbv zeta.
  unfold Keeps. rewrite Hp. apply Keeps_setTimeout; [done|].
  case_match; [by apply Keeps_clearTimeout | done].
Qed.

Lemma Keeps_showSkinName name s t :
  IgnTimers view → IgnPopup view → Keeps view s t → Keeps view s (showSkinName name t).
Proof.
  intros Ht Hp H. unfold showSkinName. case_match.
  - by apply Keeps_resetTimer.
  - cbv zeta. apply Keeps_resetTimer; [done..|].
    destruct Hp as (_ & Hn). unfold Keeps. by rewrite Hn.
Qed.

Lemma Keeps_skinName name s t :
  IgnTimers view → IgnPopup view → Keeps view s t →
  Keeps view s (handleHistoricSkinNameUpdate name t).
Proof.
  intros Ht Hp H. unfold handleHistoricSkinNameUpdate.
  repeat case_match; first [by apply Keeps_showSkinName | by apply Keeps_removeHistoricSkinName].
Qed.

End Keeps.

(** Discharge the side conditions for a concrete view. *)
Ltac ignores_basic :=
  unfold IgnFrames, IgnConsole, IgnBridge, IgnTimers, IgnElements, IgnPopup, IgnPage,
    IgnRetry, IgnCurrent, IgnPending, IgnUrl, IgnActive, IgnPhase;
  repeat split; intros; reflexivity.

Ltac ignores :=
  first [ assumption
        | apply IgnLog_basic; ignores_basic
        | apply IgnApplied_basic; ignores_basic
        | ignores_basic ].

Ltac side := ignores.

(** One step of the frame solver: peel the outermost operation. *)
Ltac keeps_step :=
  lazymatch goal with
  | H : Keeps ?v ?s ?t |- Keeps ?v ?s ?t => exact H
  | |- Keeps _ ?s ?s => apply Keeps_refl
  | |- Keeps _ _ (log _ APPLIED_MESSAGE _) => apply Keeps_log_applied; [side|]
  | |- Keeps _ _ (log _ "Historic flag shown on rewards element" _) =>
      apply Keeps_log_applied; [side|]
  | |- Keeps _ _ (log _ _ _) => apply Keeps_log; [side|done|]
  | |- Keeps _ _ (sendOrQueue _ _) => apply Keeps_send; [side|]
  | |- Keeps _ _ (flushBridgeQueue _) => apply Keeps_flush; [side|]
  | |- Keeps _ _ (setTimeout _ _ _) => apply Keeps_setTimeout; [side|]
  | |- Keeps _ _ (clearTimeout _ _) => apply Keeps_clearTimeout; [side|]
  | |- Keeps _ _ (hideOn _ _) => apply Keeps_hideOn; [side|]
  | |- Keeps _ _ (showOn _ _ _) => apply Keeps_showOn; [side|]
  | |- Keeps _ _ (removePopup _) => apply Keeps_removePopup; [side|]
  | |- Keeps _ _ (set_document (setPopup _ (document _)) _) =>
      apply Keeps_setPopup; [side|]
  | |- Keeps _ _ (set_nextSerial _ _) => apply Keeps_nextSerial; [side|]
  | |- Keeps _ _ (removeHistoricSkinName _) =>
      apply Keeps_removeHistoricSkinName; [side|]
  | |- Keeps _ _ (handleHistoricSkinNameUpdate _ _) =>
      apply Keeps_skinName; [side|side|]
  | |- Keeps _ _ (set_retryCount _ _) => apply Keeps_retryCount; [side|]
  | |- Keeps _ _ (set_currentRewardsElement _ _) => apply Keeps_current; [side|]
  | |- Keeps _ _ (set_pendingHistoricFlagRequest _ _) => apply Keeps_pending; [side|]
  | |- Keeps _ _ (set_historicFlagImageUrl _ _) => apply Keeps_url; [side|]
  | |- Keeps _ _ (set_historicModeActive _ _) => apply Keeps_active; [side|]
  | |- Keeps _ _ (set_isInChampSelect _ _) => apply Keeps_phase; [side|]
  | |- Keeps _ _ (set_bridgeSocket _ _) => apply Keeps_socket; [side|]
  | |- Keeps _ _ (set_bridgeReady _ _) => apply Keeps_ready; [side|]
  | |- Keeps _ _ (setupBridgeSocket _) => apply Keeps_setup; [side|]
  | |- Keeps _ _ (set_document (mkDocument _ _ (popup (document _))) _) =>
      apply Keeps_page; [side|]
  | |- Keeps _ _ (requestHistoricFlagImage _) =>
      apply Keeps_request; [side|side|side|]
  end.

Ltac keeps := repeat keeps_step.

Lemma log_view {V : Type} (view : State → V) level message s :
  IgnFrames view → IgnConsole view → view (log level message s) = view s.
Proof.
  intros Hf Hc. unfold log. cbv zeta. rewrite Hc. by apply (Keeps_send view).
Qed.

Lemma send_view {V : Type} (view : State → V) frame s :
  IgnFrames view → view (sendOrQueue frame s) = view s.
Proof. intros H. by apply (Keeps_send view). Qed.




Section KeepsParts.

Context {V : Type} (view : State → V).

Hypothesis Hl : IgnLog view.
Hypothesis Ht : IgnTimers view.
Hypothesis He : IgnElements view.
Hypothesis Hr : IgnRetry view.
Hypothesis Hc : IgnCurrent view.

Lemma Keeps_missed s t : Keeps view s t → Keeps view s (missed t).
Proof. intros H. unfold missed. cbv zeta. repeat case_match; keeps. Qed.

Lemma Keeps_bookkeep element s t : Keeps view s t → Keeps view s (bookkeep element t).
Proof. intros H. unfold bookkeep. cbv zeta. repeat case_match; keeps. Qed.

Hypothesis Hf : IgnFrames view.
Hypothesis Hla : IgnApplied view.
Hypothesis Hpe : IgnPending view.

Lemma Keeps_settle element s t : Keeps view s t → Keeps view s (settle element t).
Proof. intros H. unfold settle. cbv zeta. repeat case_match; keeps. Qed.

End KeepsParts.

(** Handlers built on [updateHistoricFlag].  The final choice [settle] may
    be seen by the view in general; it is only required to keep the view
    in states that satisfy a guard [I] on the asset variables. *)
Section KeepsGuarded.

Context {V : Type} (view : State → V) (I : State → Prop).

Hypothesis Hl : IgnLog view.
Hypothesis Ht : IgnTimers view.
Hypothesis He : IgnElements view.
Hypothesis Hp : IgnPopup view.
Hypothesis Hr : IgnRetry view.
Hypothesis Hc : IgnCurrent view.
Hypothesis HI : ∀ s t, Keeps assetView s t → I s → I t.
Hypothesis Hsettle : ∀ element s t, I t → Keeps view s t → Keeps view s (settle element t).

Lemma Keeps_updateHistoricFlag_if s t :
  I t → Keeps view s t → Keeps view s (updateHistoricFlag t).
Proof.
  intros Hi H. rewrite updateHistoricFlag_parts. case_match; [done|].
  pose proof (Keeps_find view s t Hl Hp H) as Hfind.
  assert (Keeps assetView t (snd (findRewardsElement t))) as Hasset
    by (apply Keeps_find; [ignores..|apply Keeps_refl]).
  destruct (findRewardsElement t) as [[element|] t1]; cbn [snd] in *.
  - apply Hsettle; [|by apply Keeps_bookkeep].
    apply (HI t); [|done]. apply Keeps_bookkeep; [ignores..|done].
  - by apply Keeps_missed.
Qed.

Lemma Keeps_retryFlag_if s t : I t → Keeps view s t → Keeps view s (retryFlag t).
Proof.
  intros Hi H. unfold retryFlag. case_match; [by apply Keeps_updateHistoricFlag_if | keeps].
Qed.

Lemma Keeps_onmutation_if s t : I t → Keeps view s t → Keeps view s (onmutation t).
Proof.
  intros Hi H. unfold onmutation. case_match; [by apply Keeps_updateHistoricFlag_if | done].
Qed.

Hypothesis Hb : IgnBridge view.
Hypothesis Hpg : IgnPage view.
Hypothesis Hflush : ∀ s t, Keeps view s t → Keeps view s (flushBridgeQueue t).

Lemma Keeps_runCallback_if cb s t :
  I t → Keeps view s t → Keeps view s (runCallback cb t).
Proof.
  intros Hi H. destruct cb; cbn.
  - by apply Keeps_updateHistoricFlag_if.
  - by apply Keeps_retryFlag_if.
  - case_match; keeps.
  - repeat case_match; keeps.
Qed.

Lemma Keeps_fireTimer_if id s t : I t → Keeps view s t → Keeps view s (fireTimer id t).
Proof.
  intros Hi H. unfold fireTimer. case_match; [|done].
  apply Keeps_runCallback_if; [|keeps].
  apply (HI t); [|done]. keeps.
Qed.

(** Events that are not inbound messages. *)
Lemma Keeps_step_other_if e s :
  (∀ data, e ≠ EvMessage data) → I s → Keeps view s (step s e).
Proof.
  intros Hev Hi. destruct e; cbn.
  - case_match; [|apply Keeps_refl]. case_match; try apply Keeps_refl.
    unfold onopen. cbv zeta. apply Hflush. keeps.
  - case_match; [|apply Keeps_refl]. unfold onerror. keeps.
  - repeat case_match; keeps.
  - case_match; [|apply Keeps_refl]. unfold onclose, scheduleBridgeRetry. cbv zeta. keeps.
  - by destruct (Hev data).
  - by apply Keeps_fireTimer_if, Keeps_refl.
  - apply Keeps_onmutation_if; [|keeps].
    apply (HI s); [|done]. keeps.
  - keeps.
  - keeps.
Qed.

End KeepsGuarded.

Section KeepsHandlers.

Context {V : Type} (view : State → V).

Hypothesis Hf : IgnFrames view.
Hypothesis Hl : IgnLog view.
Hypothesis Hla : IgnApplied view.
Hypothesis Ht : IgnTimers view.
Hypothesis He : IgnElements view.
Hypothesis Hp : IgnPopup view.
Hypothesis Hr : IgnRetry view.
Hypothesis Hc : IgnCurrent view.
Hypothesis Hpe : IgnPending view.

Lemma Keeps_updateHistoricFlag s t :
  Keeps view s t → Keeps view s (updateHistoricFlag t).
Proof.
  apply (Keeps_updateHistoricFlag_if view (λ _, True)); try done.
  intros element s' t' _. by apply Keeps_settle.
Qed.

Hypothesis Hb : IgnBridge view.
Hypothesis Hpg : IgnPage view.

Lemma Keeps_handleHistoricStateUpdate active name s t :
  IgnActive view → Keeps view s t →
  Keeps view s (handleHistoricStateUpdate active name t).
Proof.
  intros Ha H. unfold handleHistoricStateUpdate. cbv zeta. case_match; keeps.
Qed.

Lemma Keeps_handleLocalAssetUrl assetPath url s t :
  IgnUrl view → Keeps view s t → Keeps view s (handleLocalAssetUrl assetPath url t).
Proof.
  intros Hu H. unfold handleLocalAssetUrl. cbv zeta.
  repeat case_match; try done; try apply Keeps_updateHistoricFlag; keeps.
Qed.

Lemma Keeps_handlePhaseChange phase s t :
  IgnPhase view → Keeps view s t → Keeps view s (handlePhaseChange phase t).
Proof.
  intros Hph H. unfold handlePhaseChange. cbv zeta. repeat case_match; keeps.
Qed.

Lemma Keeps_step_other e s :
  (∀ data, e ≠ EvMessage data) → Keeps view s (step s e).
Proof.
  intros Hev. apply (Keeps_step_other_if view (λ _, True)); try done.
  - intros element s' t' _. by apply Keeps_settle.
  - intros s' t'. by apply Keeps_flush.
Qed.

End KeepsHandlers.

(** *** Output: frames and console entries produced by a handler *)

Section Out.

Context (P : Outbound → Prop) (Q : string → Prop).

Lemma socketOpen_flags s t :
  bridgeSocket t = bridgeSocket s → bridgeReady t = bridgeReady s →
  socketOpen t = socketOpen s.
Proof. unfold socketOpen. by intros -> ->. Qed.

Lemma Out_refl s : Out P Q s s.
Proof.
  repeat split; [exists [] | exists []]; rewrite ?app_nil_r; repeat split; try done.
  all: by case_match; rewrite ?app_nil_r.
Qed.

Lemma Out_trans s t u : Out P Q s t → Out P Q t u → Out P Q s u.
Proof.
  intros (Hs1 & Hr1 & (n1 & Hn1 & Hw1 & Hq1) & (c1 & Hc1 & Hk1))
         (Hs2 & Hr2 & (n2 & Hn2 & Hw2 & Hq2) & (c2 & Hc2 & Hk2)).
  rewrite (socketOpen_flags s t) in * by done.
  split; [congruence|]. split; [congruence|]. split.
  - exists (n1 ++ n2). split; [by apply Forall_app|].
    rewrite Hw2, Hq2, Hw1, Hq1, <- !app_assoc.
    by destruct (socketOpen s); rewrite ?app_nil_r.
  - exists (c1 ++ c2). split; [by apply Forall_app|].
    by rewrite Hk2, Hk1, <- app_assoc.
Qed.

Lemma Out_send_here frame s : P frame → Out P Q s (sendOrQueue frame s).
Proof.
  intros Hf. unfold Out, sendOrQueue.
  destruct (socketOpen s) eqn:Hopen; cbn; rewrite ?app_nil_r.
  - repeat split; [exists [frame] | exists []]; rewrite ?app_nil_r;
      repeat split; auto.
  - repeat split; [exists [frame] | exists []]; rewrite ?app_nil_r;
      repeat split; auto.
Qed.

Lemma Out_send frame s t : P frame → Out P Q s t → Out P Q s (sendOrQueue frame t).
Proof. intros Hf H. eapply Out_trans; [done|]. by apply Out_send_here. Qed.

Lemma Out_console_here entry s : Q (snd entry) → Out P Q s (set_console (console s ++ [entry]) s).
Proof.
  intros He. repeat split; cbn; [exists [] | exists [entry]]; repeat split; auto.
  all: by case_match; rewrite ?app_nil_r.
Qed.

Lemma Out_log level message s t :
  P (ChromaLog level message) → Q message → Out P Q s t → Out P Q s (log level message t).
Proof.
  intros Hp Hq H. unfold log. cbv zeta.
  eapply Out_trans; [by apply Out_send|].
  by apply (Out_console_here (level, message)).
Qed.

Lemma Out_keeps s t u : Keeps outView t u → Out P Q s t → Out P Q s u.
Proof.
  unfold Keeps, outView. intros [= Hs Hr Hw Hq Hc] H.
  eapply Out_trans; [done|]. unfold Out. rewrite Hs, Hr, Hw, Hq, Hc.
  apply Out_refl.
Qed.

Lemma Out_requests s t :
  (∀ frame, P frame → isRequest frame = false) →
  Out P Q s t → requestsEmitted t = requestsEmitted s.
Proof.
  intros HP (_ & _ & (new & Hnew & Hw & Hq) & _).
  unfold requestsEmitted, outbound. rewrite Hw, Hq.
  assert (List.filter isRequest new = []) as Hnone.
  { clear Hw Hq. induction Hnew as [|f new Hf _ IH]; [done|]. cbn. by rewrite (HP f Hf). }
  destruct (socketOpen s); rewrite !List.filter_app, ?Hnone; cbn; by rewrite ?app_nil_r.
Qed.

Lemma Out_applied s t :
  (∀ message, Q message → message ≠ APPLIED_MESSAGE) →
  Out P Q s t → appliedCount t = appliedCount s.
Proof.
  intros HQ (_ & _ & _ & (said & Hsaid & Hc)).
  unfold appliedCount. rewrite Hc, List.filter_app.
  assert (List.filter isApplied said = []) as ->.
  { clear Hc. induction Hsaid as [|e said He _ IH]; [done|]. cbn.
    unfold isApplied at 1. apply HQ in He.
    by apply String.eqb_neq in He as ->. }
  by rewrite app_nil_r.
Qed.

Lemma Out_flags s t :
  Out P Q s t → bridgeSocket t = bridgeSocket s ∧ bridgeReady t = bridgeReady s.
Proof. by intros (? & ? & _). Qed.

End Out.

(** One step of the output solver.  Logs of literal messages other than
    the apply message are discharged with [Ordinary]. *)
Ltac out_step :=
  lazymatch goal with
  | H : Out ?P ?Q ?s ?t |- Out ?P ?Q ?s ?t => exact H
  | |- Out _ _ ?s ?s => apply Out_refl
  | Hord : Ordinary ?P ?Q |- Out ?P ?Q _ (log ?l ?m _) =>
      apply Out_log; [by apply (Hord l m) | by apply (Hord l m) |]
  | |- Out _ _ _ (setTimeout _ _ _) => eapply Out_keeps; [keeps; ignores|]
  | |- Out _ _ _ (clearTimeout _ _) => eapply Out_keeps; [keeps; ignores|]
  | |- Out _ _ _ (hideOn _ _) => eapply Out_keeps; [keeps; ignores|]
  | |- Out _ _ _ (showOn _ _ _) => eapply Out_keeps; [keeps; ignores|]
  | |- Out _ _ _ (removePopup _) => eapply Out_keeps; [keeps; ignores|]
  | |- Out _ _ _ (removeHistoricSkinName _) => eapply Out_keeps; [keeps; ignores|]
  | |- Out _ _ _ (handleHistoricSkinNameUpdate _ _) => eapply Out_keeps; [keeps; ignores|]
  | |- Out _ _ _ (set_retryCount _ _) => eapply Out_keeps; [keeps; ignores|]
  | |- Out _ _ _ (set_currentRewardsElement _ _) => eapply Out_keeps; [keeps; ignores|]
  | |- Out _ _ _ (set_pendingHistoricFlagRequest _ _) => eapply Out_keeps; [keeps; ignores|]
  | |- Out _ _ _ (set_historicFlagImageUrl _ _) => eapply Out_keeps; [keeps; ignores|]
  | |- Out _ _ _ (set_historicModeActive _ _) => eapply Out_keeps; [keeps; ignores|]
  | |- Out _ _ _ (set_isInChampSelect _ _) => eapply Out_keeps; [keeps; ignores|]
  | |- Out _ _ _ (set_document (mkDocument _ _ (popup (document _))) _) =>
      eapply Out_keeps; [keeps; ignores|]
  end.

Ltac out := repeat out_step.

Lemma RequestOk_keeps P s t : Keeps choiceView s t → RequestOk P s → RequestOk P t.
Proof. unfold Keeps, choiceView, RequestOk. by intros [= _ _ -> ->]. Qed.

Lemma ApplyOk_keeps P Q s t : Keeps choiceView s t → ApplyOk P Q s → ApplyOk P Q t.
Proof. unfold Keeps, choiceView, ApplyOk. by intros [= -> -> -> _]. Qed.

Lemma APPLIED_MESSAGE_eq : APPLIED_MESSAGE = "Historic flag shown on rewards element".
Proof. reflexivity. Qed.

Section OutHandlers.

Context (P : Outbound → Prop) (Q : string → Prop).
Hypothesis Hord : Ordinary P Q.

Lemma Out_find s t : Out P Q s t → Out P Q s (snd (findRewardsElement t)).
Proof.
  intros H. unfold findRewardsElement. cbv zeta.
  repeat case_match; cbn [snd]; out.
Qed.

Lemma Out_missed s t : Out P Q s t → Out P Q s (missed t).
Proof. intros H. unfold missed. cbv zeta. repeat case_match; out. Qed.

Lemma Out_bookkeep element s t : Out P Q s t → Out P Q s (bookkeep element t).
Proof. intros H. unfold bookkeep. cbv zeta. repeat case_match; out. Qed.

Lemma Out_request s t :
  RequestOk P t → Out P Q s t → Out P Q s (requestHistoricFlagImage t).
Proof.
  intros Hreq H. unfold requestHistoricFlagImage.
  destruct (Js.truthy_opt (historicFlagImageUrl t)) eqn:Hurl; cbn [negb andb]; [done|].
  case_bool_decide as Hpend; cbn [negb]; [done|].
  cbv zeta. apply Out_send.
  - apply Hreq; [done|]. by apply eq_None_not_Some.
  - out.
Qed.

Lemma Out_settle element s t :
  RequestOk P t →
  (historicModeActive t = true → Js.truthy_opt (historicFlagImageUrl t) = true →
   P (ChromaLog "info" APPLIED_MESSAGE) ∧ Q APPLIED_MESSAGE) →
  Out P Q s t → Out P Q s (settle element t).
Proof.
  intros Hreq Happ H. unfold settle.
  destruct (historicModeActive t) eqn:Hact.
  - destruct (historicFlagImageUrl t) as [url|] eqn:Hurl; [|by apply Out_request].
    destruct (Js.truthy url) eqn:Htruthy; [|by apply Out_request].
    cbv zeta. destruct Happ as [HP HQ]; [done..|].
    rewrite APPLIED_MESSAGE_eq in *. apply Out_log; [done..|]. out.
  - cbv zeta. out.
Qed.

Lemma Out_updateHistoricFlag s t :
  RequestOk P t → ApplyOk P Q t → Out P Q s t → Out P Q s (updateHistoricFlag t).
Proof.
  intros Hreq Happ H. rewrite updateHistoricFlag_parts.
  destruct (isInChampSelect t) eqn:Hphase; cbn [negb]; [|done].
  pose proof (Out_find s t H) as Hfind.
  assert (Keeps choiceView t (snd (findRewardsElement t))) as Hchoice
    by (apply Keeps_find; ignores).
  destruct (findRewardsElement t) as [[element|] t1]; cbn [snd] in *.
  - assert (Keeps choiceView t (bookkeep element t1)) as Hchoice'
      by (apply Keeps_bookkeep; ignores).
    apply Out_settle.
    + by eapply RequestOk_keeps.
    + intros Hact Hurl. eapply ApplyOk_keeps in Happ; [|done].
      apply Happ; [|done..].
      unfold Keeps, choiceView in Hchoice'. congruence.
    + by apply Out_bookkeep.
  - by apply Out_missed.
Qed.

Lemma Out_retryFlag s t :
  RequestOk P t → ApplyOk P Q t → Out P Q s t → Out P Q s (retryFlag t).
Proof.
  intros Hreq Happ H. unfold retryFlag.
  case_match; [by apply Out_updateHistoricFlag | out].
Qed.

Lemma Out_onmutation s t :
  RequestOk P t → ApplyOk P Q t → Out P Q s t → Out P Q s (onmutation t).
Proof.
  intros Hreq Happ H. unfold onmutation.
  case_match; [by apply Out_updateHistoricFlag | done].
Qed.

Lemma Out_handlePhaseChange phase s t :
  Out P Q s t → Out P Q s (handlePhaseChange phase t).
Proof. intros H. unfold handlePhaseChange. cbv zeta. repeat case_match; out. Qed.

Lemma Out_handleHistoricStateUpdate active name s t :
  Out P Q s t → Out P Q s (handleHistoricStateUpdate active name t).
Proof. intros H. unfold handleHistoricStateUpdate. cbv zeta. repeat case_match; out. Qed.

Lemma Out_handleLocalAssetUrl assetPath url s t :
  (resolves assetPath url = true → isInChampSelect t = true →
   historicModeActive t = true →
   P (ChromaLog "info" APPLIED_MESSAGE) ∧ Q APPLIED_MESSAGE) →
  Out P Q s t → Out P Q s (handleLocalAssetUrl assetPath url t).
Proof.
  intros Happ H. unfold handleLocalAssetUrl, resolves in *.
  destruct assetPath as [path|], url as [u|]; try done.
  destruct (String.eqb path HISTORIC_FLAG_ASSET_PATH && Js.truthy u) eqn:Hres; [|done].
  apply andb_prop in Hres as [_ Htruthy].
  cbv zeta. case_match eqn:Hgo; [|out].
  apply Out_updateHistoricFlag; [| |out].
  - unfold RequestOk. rewrite (log_view historicFlagImageUrl) by ignores.
    cbn. by rewrite Htruthy.
  - intros Hphase Hact _. apply Happ; [done | |].
    + revert Hphase. by rewrite (log_view isInChampSelect) by ignores.
    + revert Hact. by rewrite (log_view historicModeActive) by ignores.
Qed.

Lemma Out_runCallback cb s t :
  cb ≠ CbBridgeRetry →
  RequestOk P t → ApplyOk P Q t → Out P Q s t → Out P Q s (runCallback cb t).
Proof.
  intros Hcb Hreq Happ H. destruct cb; cbn; [| |done|].
  - by apply Out_updateHistoricFlag.
  - by apply Out_retryFlag.
  - repeat case_match; out.
Qed.

End OutHandlers.

(** *** Runs *)

Lemma run_cons s e events : run s (e :: events) = run (step s e) events.
Proof. reflexivity. Qed.

Lemma run_snoc s events e : run s (events ++ [e]) = step (run s events) e.
Proof. unfold run. by rewrite fold_left_app. Qed.

Lemma fireTimer_cases id s :
  fireTimer id s = s
  ∨ ∃ t, t ∈ timers s ∧ timerId t = id
         ∧ fireTimer id s = runCallback (callback t) (clearTimeout id s).
Proof.
  unfold fireTimer. destruct (List.find _ _) as [t|] eqn:Hfind; [|by left].
  right. exists t. apply List.find_some in Hfind as [Hin Hid].
  split; [by apply list_elem_of_In|]. split; [by apply Nat.eqb_eq | done].
Qed.

(** *** Phase membership *)

Lemma handlePhaseChange_phase phase s :
  isInChampSelect (handlePhaseChange phase s) = isTargetPhase phase.
Proof.
  assert (∀ t, Keeps isInChampSelect (set_isInChampSelect (isTargetPhase phase) s) t →
               isInChampSelect t = isTargetPhase phase) as Hk by (intros t ->; done).
  apply Hk. unfold handlePhaseChange. cbv zeta. repeat case_match; keeps.
Qed.

(** The flag follows the phase-change messages and nothing else. *)
Lemma step_phase s e :
  isInChampSelect (step s e) =
    match e with
    | EvMessage (Some (PhaseChange phase)) => isTargetPhase phase
    | _ => isInChampSelect s
    end.
Proof.
  destruct e as [| | | |[[active id name|assetPath url|phase|]|]| | | |];
    try (apply (Keeps_step_other isInChampSelect); [ignores..|done]).
  - apply (Keeps_handleHistoricStateUpdate isInChampSelect); ignores.
  - apply (Keeps_handleLocalAssetUrl isInChampSelect); ignores.
  - apply handlePhaseChange_phase.
  - reflexivity.
  - cbn. by rewrite (log_view isInChampSelect) by ignores.
Qed.

Lemma run_phase s events :
  isInChampSelect (run s events) = lastPhaseIsTarget events (isInChampSelect s).
Proof.
  revert s. induction events as [|e events IH]; intros s; [done|].
  rewrite run_cons, IH, step_phase. cbn.
  by destruct e as [| | | |[[]|]| | | |].
Qed.

Lemma init_phase body0 elements0 : isInChampSelect (init body0 elements0) = false.
Proof. reflexivity. Qed.

(** *** Outside the target phase *)

Lemma updateHistoricFlag_outside s :
  isInChampSelect s = false → updateHistoricFlag s = s.
Proof. intros H. unfold updateHistoricFlag. by rewrite H. Qed.

Lemma retryFlag_outside s :
  isInChampSelect s = false → retryFlag s = set_retryCount (Some 0) s.
Proof. intros H. unfold retryFlag. by rewrite H. Qed.

Section Outside.

Context {V : Type} (view : State → V).

Hypothesis Hf : IgnFrames view.
Hypothesis Hl : IgnLog view.
Hypothesis Ht : IgnTimers view.
Hypothesis Hp : IgnPopup view.
Hypothesis Hb : IgnBridge view.
Hypothesis Hu : IgnUrl view.
Hypothesis Hpe : IgnPending view.
Hypothesis Ha : IgnActive view.
Hypothesis Hph : IgnPhase view.

Variable s : State.

(** Resetting the retry counter is not seen from [s]. *)
Hypothesis Hr0 : ∀ t, Keeps view s t → Keeps view s (set_retryCount (Some 0) t).

(** While the flag is false a handler writes neither the element store
    nor the current element, and never reaches the apply branch. *)
Lemma step_outside e :
  isInChampSelect s = false →
  view (step s e) =
    view (match e with
          | EvMutation body' elements' =>
              set_document (mkDocument body' elements' (popup (document s))) s
          | EvRestyle elements' =>
              set_document (mkDocument (body (document s)) elements' (popup (document s))) s
          | _ => s
          end).
Proof.
  intros Hout.
  destruct e as [| | | |[[active id name|assetPath url|phase|]|]|id| | |]; cbn [step].
  - case_match; [|done]. case_match; try done. unfold onopen. cbv zeta.
    change (Keeps view s (flushBridgeQueue (set_bridgeReady true
      (log "info" "WebSocket bridge connected" (set_bridgeSocket (Some OPEN) s))))).
    keeps.
  - case_match; [|done]. unfold onerror.
    change (Keeps view s (log "warn" "WebSocket bridge error" s)). keeps.
  - repeat case_match; try done;
      change (Keeps view s (set_bridgeSocket (Some CLOSING) s)); keeps.
  - case_match; [|done]. unfold onclose, scheduleBridgeRetry. cbv zeta.
    match goal with |- view ?t = _ => change (Keeps view s t) end. keeps.
  - unfold onmessage, handleBridgeMessage, handleHistoricStateUpdate. cbv zeta.
    match goal with |- view ?t = _ => change (Keeps view s t) end.
    case_match; keeps.
  - unfold onmessage, handleBridgeMessage, handleLocalAssetUrl. cbv zeta.
    destruct assetPath as [path|], url as [u|]; try done.
    case_match; [|done].
    rewrite (log_view isInChampSelect) by ignores. cbn. rewrite Hout. cbn.
    match goal with |- view ?t = _ => change (Keeps view s t) end. keeps.
  - unfold onmessage, handleBridgeMessage, handlePhaseChange. cbv zeta. cbn.
    rewrite Hout. rewrite andb_false_r.
    destruct (isTargetPhase phase); cbn; [|done].
    rewrite (log_view historicModeActive) by ignores. cbn.
    match goal with |- view ?t = _ => change (Keeps view s t) end.
    case_match; keeps.
  - done.
  - unfold onmessage.
    match goal with |- view ?t = _ => change (Keeps view s t) end. keeps.
  - destruct (fireTimer_cases id s) as [-> | (t & _ & _ & ->)]; [done|].
    assert (isInChampSelect (clearTimeout id s) = false) as Hout' by done.
    destruct (callback t); cbn [runCallback].
    + rewrite updateHistoricFlag_outside by done.
      change (Keeps view s (clearTimeout id s)). keeps.
    + rewrite retryFlag_outside by done. apply Hr0. keeps.
    + match goal with |- view ?t = _ => change (Keeps view s t) end.
      case_match; keeps.
    + match goal with |- view ?t = _ => change (Keeps view s t) end.
      repeat case_match; keeps.
  - unfold onmutation. cbn. by rewrite Hout.
  - done.
  - change (Keeps view s (removeHistoricSkinName s)). keeps.
Qed.

End Outside.

Lemma appliedCount_log level message s :
  message ≠ APPLIED_MESSAGE → appliedCount (log level message s) = appliedCount s.
Proof.
  intros Hm. unfold appliedCount, log. cbv zeta. cbn [console set_console].
  rewrite (send_view console) by ignores.
  rewrite List.filter_app. cbn. unfold isApplied at 2. cbn [snd].
  apply String.eqb_neq in Hm as ->. by rewrite app_nil_r.
Qed.

Lemma appliedCount_outside s e :
  isInChampSelect s = false → appliedCount (step s e) = appliedCount s.
Proof.
  intros Hout. rewrite (step_outside appliedCount); try ignores; try done.
  - by destruct e.
  - intros level message t. apply appliedCount_log.
Qed.

Lemma elements_outside s e :
  isInChampSelect s = false →
  elements (document (step s e)) =
    match e with
    | EvMutation _ elements' | EvRestyle elements' => elements'
    | _ => elements (document s)
    end.
Proof.
  intros Hout. rewrite (step_outside (λ s, elements (document s))); try ignores; try done.
  by destruct e.
Qed.

Lemma appliedCount_handlePhaseChange phase s :
  appliedCount (handlePhaseChange phase s) = appliedCount s.
Proof.
  change (Keeps appliedCount s (handlePhaseChange phase s)).
  apply Keeps_handlePhaseChange; try ignores.
  intros level message t. apply appliedCount_log.
Qed.

(** C1: the phase flag is the membership of the last phase-change message
    received; a step that runs the apply branch starts and ends with the
    flag true; while the flag is false no step runs the apply branch or
    writes the classes and styles of any element (only the third party
    does); and a deferred synchronization that fires while the flag is
    false leaves the state as it is, the retry closure only resetting the
    retry counter. *)
Theorem decoration_only_in_target_phase body0 elements0 events e :
  let s := run (init body0 elements0) events in
  isInChampSelect s = lastPhaseIsTarget events false
  ∧ (appliedCount (step s e) ≠ appliedCount s →
       lastPhaseIsTarget events false = true ∧ isInChampSelect (step s e) = true)
  ∧ (isInChampSelect s = false →
       appliedCount (step s e) = appliedCount s
       ∧ elements (document (step s e)) =
           match e with
           | EvMutation _ elements' | EvRestyle elements' => elements'
           | _ => elements (document s)
           end)
  ∧ (isInChampSelect s = false →
       runCallback CbUpdateFlag s = s
       ∧ runCallback CbRetryFlag s = set_retryCount (Some 0) s).
Proof.
  intros s.
  assert (isInChampSelect s = lastPhaseIsTarget events false) as Hphase.
  { unfold s. by rewrite run_phase, init_phase. }
  split; [done|]. split; [|split].
  - intros Happlied. rewrite <- Hphase.
    destruct (isInChampSelect s) eqn:Hin.
    + split; [done|]. rewrite step_phase.
      destruct e as [| | | |[[| |phase|]|]| | | |]; try done.
      destruct Happlied. apply appliedCount_handlePhaseChange.
    + destruct Happlied. by apply appliedCount_outside.
  - intros Hout. split; [by apply appliedCount_outside | by apply elements_outside].
  - intros Hout. cbn. split.
    + by apply updateHistoricFlag_outside.
    + by apply retryFlag_outside.
Qed.

Lemma decoration_only_in_target_phase_witness :
  appliedCount (step (run (init pageBody pageElements) leftChampSelect) (EvTimer 1))
    = appliedCount (run (init pageBody pageElements) leftChampSelect)
  ∧ runCallback CbUpdateFlag (run (init pageBody pageElements) leftChampSelect)
    = run (init pageBody pageElements) leftChampSelect
  ∧ lastPhaseIsTarget scenarioEvents false = true.
Proof.
  destruct (decoration_only_in_target_phase pageBody pageElements leftChampSelect (EvTimer 1))
    as (_ & _ & Happlied & Hno_op).
  split; [|split].
  - apply Happlied. vm_compute. reflexivity.
  - apply Hno_op. vm_compute. reflexivity.
  - destruct (decoration_only_in_target_phase pageBody pageElements scenarioEvents
                (assetUrlMessage scenarioUrl)) as (_ & Happly & _).
    apply Happly. vm_compute. discriminate.
Defined.

(** *** The asset request *)

Lemma requestsEmitted_send frame s :
  requestsEmitted (sendOrQueue frame s) =
    requestsEmitted s + (if isRequest frame then 1 else 0).
Proof.
  unfold requestsEmitted, outbound, sendOrQueue.
  case_match; cbn [wire bridgeQueue set_wire set_bridgeQueue];
    rewrite !List.filter_app, !length_app; cbn; destruct (isRequest frame); cbn; lia.
Qed.

Lemma requestsEmitted_log level message s :
  requestsEmitted (log level message s) = requestsEmitted s.
Proof.
  unfold log. cbv zeta.
  change (requestsEmitted (set_console ?c ?t)) with (requestsEmitted t).
  rewrite requestsEmitted_send. cbn. lia.
Qed.

Lemma requestsEmitted_flush s : requestsEmitted (flushBridgeQueue s) = requestsEmitted s.
Proof.
  unfold flushBridgeQueue. destruct (bridgeQueue s) as [|frame queue] eqn:Hq; [done|].
  case_match; [|done].
  unfold requestsEmitted, outbound. cbn. by rewrite Hq, app_nil_r.
Qed.

Lemma awaitView_log : IgnLog awaitView.
Proof.
  intros level message s Hm. unfold awaitView.
  rewrite requestsEmitted_log, appliedCount_log by done.
  by rewrite (log_view historicFlagImageUrl), (log_view pendingHistoricFlagRequest)
    by ignores.
Qed.

Lemma awaitView_flush s t :
  Keeps awaitView s t → Keeps awaitView s (flushBridgeQueue t).
Proof.
  unfold Keeps, awaitView. intros <-.
  rewrite requestsEmitted_flush.
  rewrite (Keeps_flush historicFlagImageUrl t t),
          (Keeps_flush pendingHistoricFlagRequest t t),
          (Keeps_flush appliedCount t t); first [done | ignores].
Qed.

Lemma awaiting_keeps s t : Keeps assetView s t → awaitingAsset s → awaitingAsset t.
Proof. unfold Keeps, assetView, awaitingAsset. by intros [= -> ->]. Qed.

(** With the request pending and no URL, asking again does nothing. *)
Lemma request_noop s : awaitingAsset s → requestHistoricFlagImage s = s.
Proof.
  intros [Hurl Hpend]. unfold requestHistoricFlagImage.
  by rewrite (bool_decide_eq_true_2 _ Hpend), andb_false_r.
Qed.

Lemma settle_awaiting element s t :
  awaitingAsset t → Keeps awaitView s t → Keeps awaitView s (settle element t).
Proof.
  intros Hw H. unfold settle. pose proof Hw as [Hurl _].
  rewrite Hurl, request_noop by done.
  pose proof awaitView_log. case_match; [done|]. cbv zeta. keeps.
Qed.

(** While the asset is awaited, no event other than the resolving message
    changes the URL, the pending marker, the number of requests emitted
    or the number of times the flag was applied. *)
Lemma step_awaiting s e :
  awaitingAsset s → resolving e = false → Keeps awaitView s (step s e).
Proof.
  intros Hw He. pose proof awaitView_log as Hl.
  destruct e as [| | | |[[active id name|assetPath url|phase|]|]| | | |];
    try (apply (Keeps_step_other_if awaitView awaitingAsset);
         first [ done | ignores | apply awaiting_keeps | apply settle_awaiting
               | apply awaitView_flush ]).
  - apply Keeps_handleHistoricStateUpdate; ignores.
  - cbn in *. unfold handleLocalAssetUrl, resolves in *.
    destruct assetPath, url; try apply Keeps_refl. by rewrite He.
  - apply Keeps_handlePhaseChange; ignores.
  - apply Keeps_refl.
  - cbn. keeps.
Qed.

Lemma run_awaiting s events :
  awaitingAsset s → forallb (λ e, negb (resolving e)) events = true →
  Keeps awaitView s (run s events).
Proof.
  revert s. induction events as [|e events IH]; intros s Hw Hev; [apply Keeps_refl|].
  cbn in Hev. apply andb_prop in Hev as [He Hev]. apply negb_true_iff in He.
  rewrite run_cons. pose proof (step_awaiting s e Hw He) as Hstep.
  eapply Keeps_trans; [done|]. apply IH; [|done].
  apply (awaiting_keeps s); [|done].
  unfold Keeps, awaitView, assetView in *. congruence.
Qed.

Lemma init_awaiting body0 elements0 :
  awaitingAsset (init body0 elements0)
  ∧ requestsEmitted (init body0 elements0) = 1
  ∧ appliedCount (init body0 elements0) = 0.
Proof. split; [split; [done | by eexists] | done]. Qed.

(** *** Finding the element *)

Lemma find_fst s :
  fst (findRewardsElement s) =
    if isInChampSelect s then locateRewards (document s) else None.
Proof.
  unfold findRewardsElement, locateRewards. cbv zeta.
  destruct (isInChampSelect s); cbn [negb]; [|done].
  repeat case_match; simplify_eq; try done;
    cbn [fst]; destruct (scanCarousel _ _); simplify_eq; done.
Qed.

Lemma scanCarousel_cons d item rest :
  scanCarousel d (item :: rest) =
    match querySelectorIn d item SEL_INFO with
    | Some info =>
        if bool_decide ("loyalty-reward-icon--rewards"
                          ∈ classList (getElement d (nodeId info)))
        then Some info
        else scanCarousel d rest
    | None => scanCarousel d rest
    end.
Proof. reflexivity. Qed.

Lemma scanCarousel_popup b es p p' items :
  scanCarousel (mkDocument b es p) items = scanCarousel (mkDocument b es p') items.
Proof.
  induction items as [|item items IH]; [done|].
  rewrite !scanCarousel_cons, IH. reflexivity.
Qed.

Lemma locate_ext d d' :
  body d' = body d → elements d' = elements d → locateRewards d' = locateRewards d.
Proof.
  destruct d as [b es p], d' as [b' es' p']. cbn. intros -> ->.
  unfold locateRewards. cbv zeta.
  change (querySelector (mkDocument b es p')) with (querySelector (mkDocument b es p)).
  change (querySelectorIn (mkDocument b es p')) with (querySelectorIn (mkDocument b es p)).
  change (querySelectorAllIn (mkDocument b es p'))
    with (querySelectorAllIn (mkDocument b es p)).
  repeat case_match; try done; by rewrite (scanCarousel_popup b es p' p).
Qed.

Lemma find_same s t :
  isInChampSelect t = isInChampSelect s → pageOf t = pageOf s →
  fst (findRewardsElement t) = fst (findRewardsElement s).
Proof.
  unfold pageOf. intros Hphase [= Hbody Helems].
  rewrite !find_fst, Hphase. by rewrite (locate_ext (document s) (document t)).
Qed.

Lemma find_found s element :
  fst (findRewardsElement s) = Some element →
  isInChampSelect s = true
  ∧ ∃ message, message ≠ APPLIED_MESSAGE
               ∧ findRewardsElement s = (Some element, log "debug" message s).
Proof.
  unfold findRewardsElement. destruct (isInChampSelect s); cbn [negb]; [|done].
  intros H. split; [done|].
  repeat case_match; cbn [fst] in H; simplify_eq; eexists; (split; [|reflexivity]); done.
Qed.

Lemma find_absent s :
  isInChampSelect s = true → fst (findRewardsElement s) = None →
  findRewardsElement s =
    (None, removeHistoricSkinName (log "debug" "Rewards element not found anywhere" s)).
Proof.
  unfold findRewardsElement. intros ->. cbn [negb]. intros H.
  repeat case_match; cbn [fst] in H; simplify_eq; done.
Qed.

(** *** Arrival of the asset URL *)

Lemma getElement_update_eq f id d :
  getElement (updateElement f id d) id = f (getElement d id).
Proof. unfold getElement, updateElement. cbn. by rewrite lookup_insert_eq. Qed.

Lemma getElement_update_ne f id id' d :
  id ≠ id' → getElement (updateElement f id d) id' = getElement d id'.
Proof. intros Hne. unfold getElement, updateElement. cbn. by rewrite lookup_insert_ne. Qed.

Lemma bookkeep_elementAt element s t :
  Keeps (elementAt element) s t → Keeps (elementAt element) s (bookkeep element t).
Proof.
  intros H. unfold bookkeep. cbv zeta.
  destruct (currentRewardsElement _) as [previous|] eqn:Hcur; [|keeps].
  destruct (Nat.eqb previous element) eqn:Heq; cbn [negb]; [keeps|].
  apply Nat.eqb_neq in Heq.
  apply Keeps_log; [ignores|done|]. apply Keeps_current; [ignores|].
  unfold Keeps, elementAt, hideOn. cbn [document set_document].
  rewrite getElement_update_ne by done.
  change (Keeps (elementAt element) s
            (log "debug" "Selected skin changed - hiding flag on previous element"
               (set_retryCount (Some 0) t))).
  keeps.
Qed.

Lemma requestsEmitted_IgnLog : IgnLog requestsEmitted.
Proof. intros level message s _. apply requestsEmitted_log. Qed.

Lemma appliedCount_IgnLog : IgnLog appliedCount.
Proof. intros level message s. apply appliedCount_log. Qed.

Lemma appliedCount_applied level s :
  appliedCount (log level APPLIED_MESSAGE s) = S (appliedCount s).
Proof.
  unfold appliedCount, log. cbv zeta. cbn [console set_console].
  rewrite (send_view console) by ignores.
  rewrite List.filter_app, length_app. cbn. lia.
Qed.

Lemma asset_arrival s url element :
  Js.truthy url = true →
  isInChampSelect s = true → historicModeActive s = true →
  fst (findRewardsElement s) = Some element →
  let s' := handleLocalAssetUrl (Some HISTORIC_FLAG_ASSET_PATH) (Some url) s in
  requestsEmitted s' = requestsEmitted s
  ∧ appliedCount s' = S (appliedCount s)
  ∧ historicFlagImageUrl s' = Some url
  ∧ pendingHistoricFlagRequest s' !! HISTORIC_FLAG_ASSET_PATH = None
  ∧ currentRewardsElement s' = Some element
  ∧ elementAt element s' = showFlagOnElement url (elementAt element s).
Proof.
  intros Htruthy Hphase Hactive Hfind s'. subst s'.
  unfold handleLocalAssetUrl. rewrite String.eqb_refl, Htruthy. cbn [andb]. cbv zeta.
  set (t0 := log "info" "Received historic flag image URL from Python" _).
  assert (Keeps isInChampSelect s t0) as Hp0 by (unfold t0; keeps).
  assert (Keeps historicModeActive s t0) as Ha0 by (unfold t0; keeps).
  assert (Keeps pageOf s t0) as Hd0 by (unfold t0; keeps).
  assert (Keeps requestsEmitted s t0) as Hr0.
  { pose proof requestsEmitted_IgnLog. unfold t0; keeps. }
  assert (Keeps appliedCount s t0) as Hc0.
  { pose proof appliedCount_IgnLog. unfold t0; keeps. }
  assert (Keeps (elementAt element) s t0) as He0 by (unfold t0; keeps).
  assert (historicFlagImageUrl t0 = Some url) as Hu0.
  { unfold t0. by rewrite (log_view historicFlagImageUrl) by ignores. }
  assert (pendingHistoricFlagRequest t0 !! HISTORIC_FLAG_ASSET_PATH = None) as Hpe0.
  { unfold t0. rewrite (log_view pendingHistoricFlagRequest) by ignores.
    cbn. apply lookup_delete_eq. }
  rewrite Hp0, Ha0, Hphase, Hactive. cbn [andb].
  rewrite updateHistoricFlag_parts, Hp0, Hphase. cbn [negb].
  assert (fst (findRewardsElement t0) = Some element) as Hfind0.
  { rewrite <- Hfind. apply find_same; [by rewrite Hp0 | done]. }
  apply find_found in Hfind0 as (_ & message & Hmessage & ->).
  set (t1 := log "debug" message t0).
  set (t2 := bookkeep element t1).
  assert (Keeps historicModeActive s t2) as Ha2.
  { unfold t2, t1. apply Keeps_bookkeep; try ignores. keeps. }
  assert (Keeps historicFlagImageUrl t0 t2) as Hu2.
  { unfold t2, t1. apply Keeps_bookkeep; try ignores. keeps. }
  assert (Keeps pendingHistoricFlagRequest t0 t2) as Hpe2.
  { unfold t2, t1. apply Keeps_bookkeep; try ignores. keeps. }
  assert (Keeps requestsEmitted s t2) as Hr2.
  { pose proof requestsEmitted_IgnLog.
    unfold t2, t1. apply Keeps_bookkeep; try ignores. keeps. }
  assert (Keeps appliedCount s t2) as Hc2.
  { pose proof appliedCount_IgnLog.
    unfold t2, t1. apply Keeps_bookkeep; try ignores. keeps. }
  assert (Keeps (elementAt element) s t2) as He2.
  { unfold t2, t1. apply bookkeep_elementAt. keeps. }
  assert (currentRewardsElement t2 = Some element) as Hcur2.
  { unfold t2, bookkeep. cbv zeta. by rewrite (log_view currentRewardsElement) by ignores. }
  unfold settle. rewrite Ha2, Hactive, Hu2, Hu0, Htruthy. cbv zeta.
  rewrite requestsEmitted_log, appliedCount_applied.
  rewrite !(log_view _ "info" APPLIED_MESSAGE) by ignores.
  unfold Keeps in *.
  repeat split.
  - by rewrite <- Hr2.
  - by rewrite <- Hc2.
  - cbn. by rewrite Hu2.
  - cbn. by rewrite Hpe2.
  - done.
  - unfold elementAt in *. unfold showOn. cbn [document set_document].
    by rewrite getElement_update_eq, He2.
Qed.

(** C5: as long as no local-asset-url message for the tracked asset with
    a non-empty url has arrived, exactly one request-local-asset frame has
    been produced (by [init]; the pending marker stops any further one)
    and the apply branch has never run.  When such a message arrives in
    the target phase with historic mode active and the element present,
    the flag is applied on that element with the URL received, and no
    further request is produced. *)
Theorem asset_requested_once_then_applied body0 elements0 events :
  forallb (λ e, negb (resolving e)) events = true →
  let s := run (init body0 elements0) events in
  requestsEmitted s = 1
  ∧ appliedCount s = 0
  ∧ awaitingAsset s
  ∧ ∀ url element,
      Js.truthy url = true →
      isInChampSelect s = true → historicModeActive s = true →
      fst (findRewardsElement s) = Some element →
      let s' := step s (assetUrlMessage url) in
      requestsEmitted s' = 1
      ∧ appliedCount s' = 1
      ∧ historicFlagImageUrl s' = Some url
      ∧ elementAt element s' = showFlagOnElement url (elementAt element s).
Proof.
  intros Hev s.
  destruct (init_awaiting body0 elements0) as (Hw & Hreq & Happ).
  pose proof (run_awaiting _ events Hw Hev) as Hrun.
  fold s in Hrun. clearbody s. unfold Keeps, awaitView in Hrun.
  injection Hrun as Hurl Hpend Hreq' Happ'.
  assert (requestsEmitted s = 1) as Hr1 by congruence.
  assert (appliedCount s = 0) as Ha0 by congruence.
  split; [done|]. split; [done|]. split.
  { destruct Hw as [Hw1 Hw2]. split; [rewrite Hurl; exact Hw1 | rewrite Hpend; exact Hw2]. }
  intros url element Htruthy Hphase Hactive Hfind s'.
  destruct (asset_arrival s url element Htruthy Hphase Hactive Hfind)
    as (H1 & H2 & H3 & _ & _ & H4).
  unfold s', assetUrlMessage. cbn [step onmessage handleBridgeMessage].
  repeat split; [congruence | congruence | done | done].
Qed.

Lemma asset_requested_once_then_applied_witness :
  requestsEmitted (run (init pageBody pageElements) scenarioEvents) = 1
  ∧ appliedCount (run (init pageBody pageElements) scenarioEvents) = 0
  ∧ appliedCount (step (run (init pageBody pageElements) scenarioEvents)
                       (assetUrlMessage scenarioUrl)) = 1
  ∧ style (elementAt 2 (step (run (init pageBody pageElements) scenarioEvents)
                             (assetUrlMessage scenarioUrl))) !! "background-image"
    = Some (cssUrl scenarioUrl, true).
Proof.
  destruct (asset_requested_once_then_applied pageBody pageElements scenarioEvents)
    as (Hreq & Happ & _ & Harrival); [vm_compute; reflexivity|].
  split; [exact Hreq|]. split; [exact Happ|].
  destruct (Harrival scenarioUrl 2) as (_ & Happ' & _ & Helem);
    [vm_compute; reflexivity ..|].
  split; [exact Happ'|].
  rewrite Helem. vm_compute. reflexivity.
Defined.

(** *** Messages that do not resolve the asset *)

Lemma resolves_false assetPath url :
  assetPath ≠ Some HISTORIC_FLAG_ASSET_PATH ∨ url = None ∨ url = Some EmptyString →
  resolves assetPath url = false.
Proof.
  unfold resolves. intros [Hpath | [-> | ->]].
  - destruct assetPath as [path|], url as [u|]; try done.
    destruct (String.eqb path HISTORIC_FLAG_ASSET_PATH) eqn:Heq; [|done].
    apply String.eqb_eq in Heq. congruence.
  - by destruct assetPath.
  - destruct assetPath; [|done]. apply andb_false_r.
Qed.

Lemma handleLocalAssetUrl_ignored assetPath url s :
  resolves assetPath url = false → handleLocalAssetUrl assetPath url s = s.
Proof.
  unfold resolves, handleLocalAssetUrl. destruct assetPath, url; try done.
  by intros ->.
Qed.

Lemma handleLocalAssetUrl_url assetPath url s :
  historicFlagImageUrl (handleLocalAssetUrl assetPath url s) =
    if resolves assetPath url then url else historicFlagImageUrl s.
Proof.
  destruct (resolves assetPath url) eqn:Hres;
    [|by rewrite handleLocalAssetUrl_ignored].
  unfold resolves, handleLocalAssetUrl in *.
  destruct assetPath as [path|], url as [u|]; try done. rewrite Hres. cbv zeta.
  assert (∀ t, Keeps historicFlagImageUrl (set_historicFlagImageUrl (Some u) s) t →
               historicFlagImageUrl t = Some u) as Hk by (intros t ->; done).
  apply Hk. case_match; [apply Keeps_updateHistoricFlag; try ignores|]; keeps.
Qed.

(** Once resolved, the URL stays resolved. *)
Lemma step_url_resolved s e :
  historicFlagImageUrl s ≠ None → historicFlagImageUrl (step s e) ≠ None.
Proof.
  intros Hurl.
  destruct e as [| | | |[[active id name|assetPath url|phase|]|]| | | |];
    try (by rewrite (Keeps_step_other historicFlagImageUrl); first [ignores | done]).
  - assert (Keeps historicFlagImageUrl s (handleHistoricStateUpdate active name s)) as H
      by (apply Keeps_handleHistoricStateUpdate; ignores).
    cbn. by rewrite H.
  - cbn. rewrite handleLocalAssetUrl_url. unfold resolves.
    destruct assetPath, url; try done. by case_match.
  - assert (Keeps historicFlagImageUrl s (handlePhaseChange phase s)) as H
      by (apply Keeps_handlePhaseChange; ignores).
    cbn. by rewrite H.
  - done.
  - cbn. by rewrite (log_view historicFlagImageUrl) by ignores.
Qed.

Lemma run_url_resolved s events :
  historicFlagImageUrl s ≠ None → historicFlagImageUrl (run s events) ≠ None.
Proof.
  revert s. induction events as [|e events IH]; intros s Hurl; [done|].
  rewrite run_cons. by apply IH, step_url_resolved.
Qed.

Lemma resolving_url s e :
  resolving e = true → historicFlagImageUrl (step s e) ≠ None.
Proof.
  destruct e as [| | | |[[active id name|assetPath url|phase|]|]| | | |]; try done.
  cbn. intros Hres. rewrite handleLocalAssetUrl_url, Hres.
  unfold resolves in Hres. by destruct assetPath, url.
Qed.

(** C10: a local-asset-url message for another asset, or without a url,
    or with an empty url, leaves the whole state as it is, so neither the
    stored URL nor the pending marker moves; and from a state with the
    request pending and the URL unresolved, as long as the URL is still
    unresolved at the end of a run the marker is still set and no further
    request-local-asset frame has been produced. *)
Theorem unmatched_asset_url_ignored s events :
  (∀ assetPath url,
     assetPath ≠ Some HISTORIC_FLAG_ASSET_PATH ∨ url = None ∨ url = Some EmptyString →
     step s (EvMessage (Some (LocalAssetUrl assetPath url))) = s)
  ∧ (awaitingAsset s →
     historicFlagImageUrl (run s events) = None →
     awaitingAsset (run s events)
     ∧ requestsEmitted (run s events) = requestsEmitted s).
Proof.
  split.
  - intros assetPath url H. cbn. by apply handleLocalAssetUrl_ignored, resolves_false.
  - revert s. induction events as [|e events IH]; intros s Hw Hend; [done|].
    rewrite run_cons in *.
    destruct (resolving e) eqn:Hres.
    + destruct (run_url_resolved (step s e) events); [by apply resolving_url | done].
    + pose proof (step_awaiting s e Hw Hres) as Hstep.
      assert (awaitingAsset (step s e)) as Hw'.
      { apply (awaiting_keeps s); [|done].
        unfold Keeps, awaitView, assetView in *. congruence. }
      destruct (IH _ Hw' Hend) as [Hw'' Hreq]. split; [done|].
      rewrite Hreq. unfold Keeps, awaitView in Hstep. congruence.
Qed.

Lemma unmatched_asset_url_ignored_witness :
  step (init pageBody pageElements) otherAssetMessage = init pageBody pageElements
  ∧ requestsEmitted (run (init pageBody pageElements) (otherAssetMessage :: scenarioEvents))
    = requestsEmitted (init pageBody pageElements).
Proof.
  destruct (unmatched_asset_url_ignored (init pageBody pageElements)
              (otherAssetMessage :: scenarioEvents)) as (Hignored & Hpending).
  split.
  - apply Hignored. left. discriminate.
  - apply Hpending.
    + split; [vm_compute; reflexivity | eexists; vm_compute; reflexivity].
    + vm_compute. reflexivity.
Defined.

(** *** The outbound queue *)

Lemma Ordinary_any : Ordinary anyFrame anyMessage.
Proof. done. Qed.

Lemma Out_step_message data s : Out anyFrame anyMessage s (onmessage data s).
Proof.
  pose proof Ordinary_any as Hord.
  destruct data as [[active id name|assetPath url|phase|]|]; cbn.
  - by apply Out_handleHistoricStateUpdate, Out_refl.
  - by apply Out_handleLocalAssetUrl, Out_refl.
  - by apply Out_handlePhaseChange, Out_refl.
  - apply Out_refl.
  - out.
Qed.

Lemma Out_BridgeStep s t :
  bridgeConsistent s → Out anyFrame anyMessage s t → BridgeStep s t.
Proof.
  intros [Hready Hempty] (Hsock & Hrdy & (new & _ & Hw & Hq) & _).
  assert (socketOpen t = socketOpen s) as Hopen by by apply socketOpen_flags.
  unfold BridgeStep, bridgeConsistent, outbound. rewrite Hopen, Hw, Hq, Hsock, Hrdy.
  destruct (socketOpen s) eqn:Hso.
  - rewrite Hempty by done. rewrite !app_nil_r.
    repeat split; eauto; try done.
  - rewrite !app_nil_r.
    split; [exists new; by rewrite app_assoc|].
    split; [exists []; by rewrite app_nil_r|].
    split; [done|]. split; [|done].
    intros _ _. split; [done | by exists new].
Qed.

Lemma BridgeStep_frames_same s t :
  bridgeConsistent s →
  wire t = wire s → bridgeQueue t = bridgeQueue s → bridgeReady t = bridgeReady s →
  (bridgeSocket t = bridgeSocket s
   ∨ bridgeSocket t = Some CLOSING
   ∨ (bridgeReady s = false)) →
  BridgeStep s t.
Proof.
  intros [Hready Hempty] Hw Hq Hr Hsock.
  assert (socketOpen t = true → socketOpen s = true) as Hopen.
  { unfold socketOpen. rewrite Hr. destruct (bridgeReady s) eqn:Hrs; [|done]. cbn.
    destruct Hsock as [-> | [-> | ?]]; done. }
  unfold BridgeStep, bridgeConsistent, outbound. rewrite Hw, Hq, Hr.
  split; [exists []; by rewrite app_nil_r|].
  split; [exists []; by rewrite app_nil_r|].
  split; [split|split].
  - intros Hrs. destruct Hsock as [-> | [-> | ?]]; [by apply Hready | by right | congruence].
  - intros Ht. by apply Hempty, Hopen.
  - intros _ _. split; [done|]. exists []. by rewrite app_nil_r.
  - intros Hs Ht. apply Hopen in Ht. congruence.
Qed.

Lemma BridgeStep_refl s : bridgeConsistent s → BridgeStep s s.
Proof. intros H. apply BridgeStep_frames_same; auto. Qed.

Lemma onopen_frames s :
  bridgeReady s = false →
  let s' := onopen (set_bridgeSocket (Some OPEN) s) in
  wire s' = wire s ++ bridgeQueue s ++ [ChromaLog "info" "WebSocket bridge connected"]
  ∧ bridgeQueue s' = []
  ∧ bridgeReady s' = true ∧ bridgeSocket s' = Some OPEN.
Proof.
  intros Hr. unfold onopen, log, sendOrQueue, socketOpen, flushBridgeQueue. cbn.
  rewrite Hr. cbn. destruct (bridgeQueue s); cbn; by rewrite ?Hr.
Qed.

Lemma onclose_frames s :
  let s' := onclose (set_bridgeSocket (Some CLOSED) s) in
  wire s' = wire s
  ∧ bridgeQueue s' =
      bridgeQueue s ++ [ChromaLog "info" "WebSocket bridge closed, reconnecting..."]
  ∧ bridgeReady s' = false ∧ bridgeSocket s' = None.
Proof.
  unfold onclose, scheduleBridgeRetry, log, sendOrQueue, socketOpen. cbn.
  by rewrite andb_false_r.
Qed.

Lemma step_bridge s e : bridgeConsistent s → BridgeStep s (step s e).
Proof.
  intros Hc. pose proof Ordinary_any as Hord. pose proof Hc as [Hready Hempty].
  destruct e as [| | | |data|id|body' elements'|elements'|]; cbn [step].
  - destruct (bridgeSocket s) as [[]|] eqn:Hsock; try by apply BridgeStep_refl.
    assert (bridgeReady s = false) as Hr.
    { destruct (bridgeReady s) eqn:Hrs; [|done].
      destruct Hready as [?|?]; congruence. }
    destruct (onopen_frames s Hr) as (Hw & Hq & Hr' & Hs').
    assert (socketOpen (onopen (set_bridgeSocket (Some OPEN) s)) = true) as Hso'
      by (unfold socketOpen; by rewrite Hr', Hs').
    unfold BridgeStep, bridgeConsistent, outbound. rewrite Hso', Hw, Hq, Hr', Hs'.
    split.
    { exists [ChromaLog "info" "WebSocket bridge connected"].
      by rewrite app_nil_r, app_assoc. }
    split; [by eexists|]. split; [split; auto|]. split; [done|]. done.
  - destruct (bridgeSocket s); [|by apply BridgeStep_refl].
    apply Out_BridgeStep; [done|]. unfold onerror. out.
  - destruct (bridgeSocket s) as [[]|] eqn:Hsock; try by apply BridgeStep_refl.
    all: apply BridgeStep_frames_same; auto.
  - destruct (bridgeSocket s) eqn:Hsock; [|by apply BridgeStep_refl].
    destruct (onclose_frames s) as (Hw & Hq & Hr' & Hs').
    assert (socketOpen (onclose (set_bridgeSocket (Some CLOSED) s)) = false) as Hso'
      by (unfold socketOpen; by rewrite Hr').
    unfold BridgeStep, bridgeConsistent, outbound. rewrite Hso', Hw, Hq, Hr', Hs'.
    split; [eexists; by rewrite app_assoc|].
    split; [exists []; by rewrite app_nil_r|].
    split; [split; done|]. split; [|done].
    intros _ _. split; [done | by eexists].
  - apply Out_BridgeStep; [done|]. apply Out_step_message.
  - destruct (fireTimer_cases id s) as [-> | (t & _ & _ & ->)]; [by apply BridgeStep_refl|].
    destruct (callback t) eqn:Hcb.
    3: { cbn. unfold setupBridgeSocket.
         destruct (bridgeReady s) eqn:Hr; cbn [negb];
           [by apply BridgeStep_frames_same; auto|].
         destruct (bridgeSocket s) as [[]|] eqn:Hsock; cbn; rewrite ?Hsock;
           apply BridgeStep_frames_same; auto. }
    all: apply Out_BridgeStep; [done|]; apply Out_runCallback; try done; out.
  - apply Out_BridgeStep; [done|]. apply Out_onmutation; try done. out.
  - apply Out_BridgeStep; [done|]. out.
  - apply Out_BridgeStep; [done|]. out.
Qed.

Lemma init_consistent body0 elements0 : bridgeConsistent (init body0 elements0).
Proof. split; done. Qed.

Lemma run_consistent s events : bridgeConsistent s → bridgeConsistent (run s events).
Proof.
  revert s. induction events as [|e events IH]; intros s Hc; [done|].
  rewrite run_cons. apply IH. by destruct (step_bridge s e Hc) as (_ & _ & ? & _).
Qed.

Lemma sendOrQueue_closed frame s :
  socketOpen s = false →
  wire (sendOrQueue frame s) = wire s
  ∧ bridgeQueue (sendOrQueue frame s) = bridgeQueue s ++ [frame].
Proof. intros Hso. unfold sendOrQueue. by rewrite Hso. Qed.

(** C8: in every reachable state, a send while the socket is not open
    appends the frame to the queue; across any step the frames produced
    so far (sent, then queued) only grow at the end and the socket only
    receives more, so nothing is dropped, repeated or reordered; a step
    during which the socket stays closed leaves the socket's input alone
    and only appends to the queue; and the step that opens the socket
    sends the whole queue in enqueue order, followed by the connection
    log, and leaves the queue empty. *)
Theorem queue_flushed_in_order body0 elements0 events e :
  let s := run (init body0 elements0) events in
  let s' := step s e in
  (∀ frame, socketOpen s = false →
     wire (sendOrQueue frame s) = wire s
     ∧ bridgeQueue (sendOrQueue frame s) = bridgeQueue s ++ [frame])
  ∧ (∃ new, outbound s' = outbound s ++ new)
  ∧ (∃ sent, wire s' = wire s ++ sent)
  ∧ (socketOpen s = false → socketOpen s' = false →
       wire s' = wire s ∧ ∃ new, bridgeQueue s' = bridgeQueue s ++ new)
  ∧ (socketOpen s = false → socketOpen s' = true →
       wire s' = wire s ++ bridgeQueue s
                   ++ [ChromaLog "info" "WebSocket bridge connected"]
       ∧ bridgeQueue s' = []).
Proof.
  intros s s'.
  assert (bridgeConsistent s) as Hc by apply run_consistent, init_consistent.
  destruct (step_bridge s e Hc) as (H1 & H2 & _ & H3 & H4).
  split; [intros frame; apply sendOrQueue_closed|]. done.
Qed.

Lemma queue_flushed_in_order_witness :
  wire (step (run (init pageBody pageElements) enteredChampSelect) EvOpen)
    = bridgeQueue (run (init pageBody pageElements) enteredChampSelect)
        ++ [ChromaLog "info" "WebSocket bridge connected"]
  ∧ bridgeQueue (step (run (init pageBody pageElements) enteredChampSelect) EvOpen) = [].
Proof.
  destruct (queue_flushed_in_order pageBody pageElements enteredChampSelect EvOpen)
    as (_ & _ & _ & _ & Hopen).
  apply Hopen; vm_compute; reflexivity.
Defined.

(** *** The retry campaign *)

Lemma console_log level message s :
  console (log level message s) = console s ++ [(level, message)].
Proof. unfold log. cbn. by rewrite (send_view console) by ignores. Qed.

(** The branch taken when no element was found, with the normalisation
    of the unset counter folded into [retriesUsed]. *)
Lemma missed_unfold u :
  isInChampSelect u = true →
  missed u =
    let u1 := log "debug" "Rewards element not found, will retry" u in
    if Nat.ltb (retriesUsed u) 5 then
      setTimeout CbRetryFlag 500%Z (set_retryCount (Some (S (retriesUsed u))) u1)
    else
      set_retryCount (Some 0)
        (log "warn" "Rewards element not found after 5 retries, giving up" u1).
Proof.
  intros Hin. unfold missed, retriesUsed. rewrite Hin. cbn [negb]. cbv zeta.
  rewrite (log_view retryCount) by ignores.
  destruct (retryCount u) as [[|n]|] eqn:Hrc; cbn [default retryCount set_retryCount];
    rewrite ?(log_view retryCount), ?Hrc by ignores; cbn [default].
  - change (Nat.ltb 0 5) with true. cbv iota. reflexivity.
  - destruct (Nat.ltb (S n) 5); reflexivity.
  - change (Nat.ltb 0 5) with true. cbv iota. reflexivity.
Qed.

Lemma missed_retry u k :
  isInChampSelect u = true → retriesUsed u = k → k < 5 →
  isInChampSelect (missed u) = true
  ∧ pageOf (missed u) = pageOf u
  ∧ retryCount (missed u) = Some (S k)
  ∧ timers (missed u) = timers u ++ [mkTimer (nextTimer u) 500%Z CbRetryFlag]
  ∧ nextTimer (missed u) = S (nextTimer u)
  ∧ console (missed u) = console u ++ [("debug", "Rewards element not found, will retry")].
Proof.
  intros Hin Hk Hlt. rewrite missed_unfold, Hk by done. cbv zeta.
  apply Nat.ltb_lt in Hlt as ->.
  set (u1 := log "debug" "Rewards element not found, will retry" u).
  assert (∀ {V} (view : State → V), IgnFrames view → IgnConsole view →
            view u1 = view u) as Hv by (intros; by apply log_view).
  unfold pageOf, setTimeout. cbn.
  rewrite (Hv _ isInChampSelect), (Hv _ document), (Hv _ timers), (Hv _ nextTimer)
    by ignores.
  repeat split; try done. apply console_log.
Qed.

Lemma missed_giveup u :
  isInChampSelect u = true → (5 ≤ retriesUsed u)%nat →
  retryCount (missed u) = Some 0
  ∧ timers (missed u) = timers u
  ∧ console (missed u) =
      console u ++ [("debug", "Rewards element not found, will retry"); giveUpLog].
Proof.
  intros Hin Hge. rewrite missed_unfold by done. cbv zeta.
  apply Nat.ltb_ge in Hge as ->. cbn.
  rewrite !(log_view timers) by ignores. rewrite !console_log, <- app_assoc.
  done.
Qed.

(** A failed attempt, up to the branch taken on the counter. *)
Lemma attempt_missed t :
  isInChampSelect t = true → fst (findRewardsElement t) = None →
  ∃ u, updateHistoricFlag t = missed u
       ∧ isInChampSelect u = true ∧ pageOf u = pageOf t
       ∧ retryCount u = retryCount t ∧ timers u = timers t
       ∧ nextTimer u = nextTimer t
       ∧ console u = console t ++ [("debug", "Rewards element not found anywhere")].
Proof.
  intros Hin Hfind. rewrite updateHistoricFlag_parts, Hin. cbn [negb].
  rewrite find_absent by done. eexists. split; [reflexivity|].
  set (t1 := log "debug" "Rewards element not found anywhere" t).
  assert (∀ {V} (view : State → V), IgnFrames view → IgnLog view → IgnPopup view →
            view (removeHistoricSkinName t1) = view t) as Hv.
  { intros V view Hf Hl Hp. change (Keeps view t (removeHistoricSkinName t1)).
    unfold t1. keeps. }
  rewrite (Hv _ isInChampSelect), (Hv _ pageOf), (Hv _ retryCount), (Hv _ timers),
    (Hv _ nextTimer) by ignores.
  repeat split; try done.
  assert (Keeps console t1 (removeHistoricSkinName t1)) as -> by keeps.
  apply console_log.
Qed.

(** Firing the timer scheduled last, when the ids in use are fresh. *)
Lemma fireTimer_last ts id ms cb t :
  timers t = ts ++ [mkTimer id ms cb] →
  Forall (λ x, timerId x < id) ts →
  fireTimer id t = runCallback cb (set_timers ts t).
Proof.
  intros Ht Hfresh. unfold fireTimer, clearTimeout. rewrite Ht.
  assert (List.find (λ x, Nat.eqb (timerId x) id) (ts ++ [mkTimer id ms cb])
          = Some (mkTimer id ms cb)) as ->.
  { clear Ht. induction Hfresh as [|x ts Hx _ IH]; cbn; [by rewrite Nat.eqb_refl|].
    assert (Nat.eqb (timerId x) id = false) as -> by (apply Nat.eqb_neq; lia). done. }
  assert (List.filter (λ x, negb (Nat.eqb (timerId x) id)) (ts ++ [mkTimer id ms cb]) = ts)
    as ->.
  { clear Ht. induction Hfresh as [|x ts Hx _ IH]; cbn; [by rewrite Nat.eqb_refl|].
    assert (Nat.eqb (timerId x) id = false) as -> by (apply Nat.eqb_neq; lia).
    cbn. by rewrite IH. }
  done.
Qed.

Lemma concat_replicate_S {A} (l : list A) n :
  List.concat (replicate n l) ++ l = List.concat (replicate (S n) l).
Proof.
  induction n as [|n IH]; cbn; [by rewrite app_nil_r|].
  rewrite <- app_assoc. f_equal. exact IH.
Qed.

Section Campaign.

Variable s : State.

Hypothesis Hin : isInChampSelect s = true.
Hypothesis Habsent : fst (findRewardsElement s) = None.
Hypothesis Hfresh : timersFresh s.

(** An attempt made in a state that shows the page of [s]. *)
Lemma campaign_attempt t k :
  isInChampSelect t = true → pageOf t = pageOf s → retriesUsed t = k → k < 5 →
  isInChampSelect (updateHistoricFlag t) = true
  ∧ pageOf (updateHistoricFlag t) = pageOf s
  ∧ retryCount (updateHistoricFlag t) = Some (S k)
  ∧ timers (updateHistoricFlag t) = timers t ++ [mkTimer (nextTimer t) 500%Z CbRetryFlag]
  ∧ nextTimer (updateHistoricFlag t) = S (nextTimer t)
  ∧ console (updateHistoricFlag t) = console t ++ attemptLog.
Proof.
  intros Hint Hpage Hk Hlt.
  assert (fst (findRewardsElement t) = None) as Hfind
    by (rewrite <- Habsent; apply find_same; congruence).
  destruct (attempt_missed t Hint Hfind) as (u & -> & Hu1 & Hu2 & Hu3 & Hu4 & Hu5 & Hu6).
  assert (retriesUsed u = k) as Hku by (unfold retriesUsed in *; by rewrite Hu3).
  destruct (missed_retry u k Hu1 Hku Hlt) as (H1 & H2 & H3 & H4 & H5 & H6).
  rewrite H2, H4, H5, H6, Hu2, Hu4, Hu5, Hu6, <- app_assoc. done.
Qed.

Lemma campaign_start :
  retriesUsed s = 0 → campaignAt s 0 (updateHistoricFlag s).
Proof.
  intros Hk.
  destruct (campaign_attempt s 0 Hin eq_refl Hk) as (H1 & H2 & H3 & H4 & H5 & H6); [lia|].
  unfold campaignAt. rewrite H4, H5, H6, Nat.add_0_r, Nat.add_1_r.
  repeat split; done.
Qed.

Lemma campaign_fire t k :
  campaignAt s k t →
  step t (EvTimer (nextTimer s + k)) = updateHistoricFlag (set_timers (timers s) t).
Proof.
  intros (H1 & H2 & H3 & H4 & H5 & H6). cbn [step].
  rewrite (fireTimer_last (timers s) _ _ _ t H4).
  - cbn. unfold retryFlag. cbn. by rewrite H1.
  - eapply Forall_impl; [exact Hfresh|]. cbn. intros x Hx. lia.
Qed.

Lemma campaign_next t k :
  campaignAt s k t → S k < 5 →
  campaignAt s (S k) (step t (EvTimer (nextTimer s + k))).
Proof.
  intros Hc Hlt. rewrite (campaign_fire t k Hc).
  destruct Hc as (H1 & H2 & H3 & H4 & H5 & H6).
  set (u := set_timers (timers s) t).
  destruct (campaign_attempt u (S k)) as (G1 & G2 & G3 & G4 & G5 & G6); try done.
  { unfold retriesUsed, u. cbn. by rewrite H3. }
  unfold campaignAt. rewrite G4, G5, G6. unfold u. cbn. rewrite H5, H6.
  repeat split; try done; try lia.
  rewrite <- app_assoc. f_equal. apply (concat_replicate_S attemptLog (S k)).
Qed.

Lemma campaign_run k :
  retriesUsed s = 0 → k < 5 →
  campaignAt s k (run (updateHistoricFlag s) (retryEvents s k)).
Proof.
  intros Hk. induction k as [|k IH]; intros Hlt; [by apply campaign_start|].
  unfold retryEvents. rewrite seq_S, map_app. cbn [map]. rewrite run_snoc.
  apply campaign_next; [|done]. apply IH. lia.
Qed.

Lemma campaign_end t :
  campaignAt s 4 t →
  let t' := step t (EvTimer (nextTimer s + 4)) in
  retryCount t' = Some 0
  ∧ timers t' = timers s
  ∧ console t' = console s ++ List.concat (replicate 6 attemptLog) ++ [giveUpLog].
Proof.
  intros Hc t'. unfold t'. rewrite (campaign_fire t 4 Hc).
  destruct Hc as (H1 & H2 & H3 & H4 & H5 & H6).
  set (u := set_timers (timers s) t).
  assert (fst (findRewardsElement u) = None) as Hfind
    by (rewrite <- Habsent; apply find_same; [unfold u; cbn; congruence | done]).
  destruct (attempt_missed u H1 Hfind) as (v & -> & Hv1 & Hv2 & Hv3 & Hv4 & Hv5 & Hv6).
  destruct (missed_giveup v Hv1) as (G3 & G4 & G6).
  { unfold retriesUsed. rewrite Hv3. unfold u. cbn. by rewrite H3. }
  rewrite G3, G4, G6, Hv4, Hv6. unfold u. cbn. rewrite H6.
  repeat split; try done. by rewrite <- !app_assoc.
Qed.

End Campaign.

(** *** Timer ids stay fresh *)

Lemma fresh_keeps s t : Keeps timersView s t → timersFresh s → timersFresh t.
Proof. unfold Keeps, timersView, timersFresh. by intros [= -> ->]. Qed.

Lemma fresh_setTimeout cb ms t : timersFresh t → timersFresh (setTimeout cb ms t).
Proof.
  unfold timersFresh, setTimeout. cbn. intros H. apply Forall_app. split.
  - eapply Forall_impl; [done|]. cbn. lia.
  - repeat constructor.
Qed.

Lemma fresh_clearTimeout id t : timersFresh t → timersFresh (clearTimeout id t).
Proof.
  unfold timersFresh, clearTimeout. cbn. intros H.
  induction H as [|x ts Hx _ IH]; cbn; [done|]. case_match; [by constructor | done].
Qed.

Ltac fresh_step :=
  lazymatch goal with
  | H : timersFresh ?t |- timersFresh ?t => exact H
  | |- timersFresh (setTimeout _ _ _) => apply fresh_setTimeout
  | |- timersFresh (clearTimeout _ _) => apply fresh_clearTimeout
  | |- timersFresh (?f ?t) =>
      apply (fresh_keeps t (f t)); [keeps_step; apply Keeps_refl|]
  end.

Ltac timers_ok := repeat fresh_step.

Lemma fresh_updateHistoricFlag t : timersFresh t → timersFresh (updateHistoricFlag t).
Proof.
  intros H. rewrite updateHistoricFlag_parts. case_match; [done|].
  assert (timersFresh (snd (findRewardsElement t))) as Hfind.
  { apply (fresh_keeps t); [|done]. apply Keeps_find; ignores. }
  destruct (findRewardsElement t) as [[element|] t1]; cbn [snd] in Hfind.
  - apply (fresh_keeps t1); [|done].
    apply Keeps_settle; try ignores. apply Keeps_bookkeep; ignores.
  - unfold missed. cbv zeta. repeat case_match; timers_ok.
Qed.

Lemma fresh_skinName name t :
  timersFresh t → timersFresh (handleHistoricSkinNameUpdate name t).
Proof.
  intros H. unfold handleHistoricSkinNameUpdate, showSkinName, resetTimer,
    removeHistoricSkinName.
  cbv zeta. repeat case_match; timers_ok.
Qed.

Lemma fresh_step_event s e : timersFresh s → timersFresh (step s e).
Proof.
  intros H.
  destruct e as [| | | |[[active id name|assetPath url|phase|]|]|id| | |]; cbn [step].
  - repeat case_match; try done. unfold onopen. cbv zeta.
    apply (fresh_keeps s); [keeps; ignores | done].
  - case_match; [|done]. unfold onerror. timers_ok.
  - repeat case_match; timers_ok.
  - case_match; [|done]. unfold onclose, scheduleBridgeRetry. cbv zeta. timers_ok.
  - cbn. unfold handleHistoricStateUpdate. cbv zeta.
    case_match; timers_ok; by apply fresh_skinName.
  - cbn. unfold handleLocalAssetUrl. cbv zeta.
    repeat case_match; try done; try apply fresh_updateHistoricFlag; timers_ok.
  - cbn. unfold handlePhaseChange. cbv zeta. repeat case_match; timers_ok.
  - done.
  - cbn. timers_ok.
  - unfold fireTimer. case_match; [|done].
    assert (timersFresh (clearTimeout id s)) as Hc by timers_ok.
    destruct (callback _); cbn.
    + by apply fresh_updateHistoricFlag.
    + unfold retryFlag. case_match; [by apply fresh_updateHistoricFlag | timers_ok].
    + unfold setupBridgeSocket. repeat case_match; timers_ok.
    + unfold removePopup. repeat case_match; timers_ok.
  - unfold onmutation. case_match; [apply fresh_updateHistoricFlag|]; timers_ok.
  - timers_ok.
  - unfold removeHistoricSkinName, removePopup. case_match; timers_ok.
Qed.

Lemma fresh_run s events : timersFresh s → timersFresh (run s events).
Proof.
  revert s. induction events as [|e events IH]; intros s H; [done|].
  rewrite run_cons. by apply IH, fresh_step_event.
Qed.

Lemma fresh_init body0 elements0 : timersFresh (init body0 elements0).
Proof. unfold timersFresh. vm_compute. constructor. Qed.

(** *** The counter is idle outside the target phase *)

Lemma retriesUsed_handlePhaseChange phase s :
  isInChampSelect s = true → isTargetPhase phase = false →
  retriesUsed (handlePhaseChange phase s) = 0.
Proof.
  intros Hin Hphase. unfold handlePhaseChange. cbv zeta.
  change (isInChampSelect (set_isInChampSelect (isTargetPhase phase) s))
    with (isTargetPhase phase).
  rewrite Hphase, Hin. cbn [negb andb].
  match goal with
  | |- retriesUsed (match retryCount ?t with _ => _ end) = 0 => generalize t
  end.
  intros t. unfold retriesUsed.
  destruct (retryCount t) as [[|n]|] eqn:Ht; cbn [retryCount set_retryCount default];
    by rewrite ?Ht.
Qed.

Lemma retryIdle_step s e : retryIdle s → retryIdle (step s e).
Proof.
  unfold retryIdle. intros Hidle Hout'.
  destruct (isInChampSelect s) eqn:Hin.
  - rewrite step_phase in Hout'.
    destruct e as [| | | |[[| |phase|]|]| | | |]; try congruence.
    cbn. by apply retriesUsed_handlePhaseChange.
  - specialize (Hidle eq_refl).
    rewrite (step_outside retriesUsed); try ignores; try done.
    by destruct e.
Qed.

Lemma retryIdle_run s events : retryIdle s → retryIdle (run s events).
Proof.
  revert s. induction events as [|e events IH]; intros s H; [done|].
  rewrite run_cons. by apply IH, retryIdle_step.
Qed.

Lemma retryIdle_init body0 elements0 : retryIdle (init body0 elements0).
Proof. intros _. vm_compute. reflexivity. Qed.

Lemma updateHistoricFlag_found_retry s element :
  fst (findRewardsElement s) = Some element →
  retryCount (updateHistoricFlag s) = Some 0.
Proof.
  intros Hfind. destruct (find_found s element Hfind) as (Hin & message & _ & Heq).
  rewrite updateHistoricFlag_parts, Hin, Heq. cbn [negb].
  assert (∀ t, Keeps retryCount (set_retryCount (Some 0) (log "debug" message s)) t →
               retryCount t = Some 0) as Hk by (intros t ->; done).
  apply Hk. apply Keeps_settle; try ignores.
  unfold bookkeep. cbv zeta. repeat case_match; keeps.
Qed.

(** C2: in a reachable state in the target phase where the element is
    absent and no retry has been counted, the attempt and the five retry
    timers it leads to, fired one after the other on an unchanged page,
    make exactly six attempts: after attempt k+1 (k < 5) the counter is
    k+1 and one retry timer is pending; the sixth attempt schedules
    nothing, logs that it gives up and resets the counter to 0.  The
    counter is also reset on a successful find, is zero (or still unset)
    after a phase-change message for a phase outside the target set, and
    is set to 0 by a retry timer that fires after the flag became false. *)
Theorem retry_campaign body0 elements0 events :
  let s := run (init body0 elements0) events in
  (isInChampSelect s = true → fst (findRewardsElement s) = None → retriesUsed s = 0 →
     (∀ k, k < 5 →
        let sk := run (updateHistoricFlag s) (retryEvents s k) in
        retryCount sk = Some (S k)
        ∧ timers sk = timers s ++ [mkTimer (nextTimer s + k) 500%Z CbRetryFlag]
        ∧ console sk = console s ++ List.concat (replicate (S k) attemptLog))
     ∧ (let s6 := run (updateHistoricFlag s) (retryEvents s 5) in
        retryCount s6 = Some 0
        ∧ timers s6 = timers s
        ∧ console s6 = console s ++ List.concat (replicate 6 attemptLog) ++ [giveUpLog]))
  ∧ (∀ element, fst (findRewardsElement s) = Some element →
       retryCount (updateHistoricFlag s) = Some 0)
  ∧ (∀ phase, isTargetPhase phase = false →
       retriesUsed (step s (EvMessage (Some (PhaseChange phase)))) = 0)
  ∧ (isInChampSelect s = false → retryCount (runCallback CbRetryFlag s) = Some 0).
Proof.
  intros s.
  assert (timersFresh s) as Hfresh by apply fresh_run, fresh_init.
  assert (retryIdle s) as Hidle by apply retryIdle_run, retryIdle_init.
  split; [|split; [|split]].
  - intros Hin Habsent Hzero. split.
    + intros k Hk sk.
      destruct (campaign_run s Hin Habsent Hfresh k Hzero Hk) as (_ & _ & H3 & H4 & _ & H6).
      done.
    + intros s6. subst s6. unfold retryEvents.
      rewrite (seq_S 4), map_app. cbn [map]. rewrite run_snoc.
      apply (campaign_end s Hin Habsent Hfresh).
      apply (campaign_run s Hin Habsent Hfresh 4 Hzero). lia.
  - intros element. apply updateHistoricFlag_found_retry.
  - intros phase Hphase.
    assert (retryIdle (step s (EvMessage (Some (PhaseChange phase))))) as Hidle'
      by by apply retryIdle_step.
    apply Hidle'. by rewrite step_phase.
  - intros Hout. cbn. by rewrite retryFlag_outside.
Qed.

Lemma retry_campaign_witness :
  retryCount (run (updateHistoricFlag (run (init [] ∅) enteredChampSelect))
                  (retryEvents (run (init [] ∅) enteredChampSelect) 5)) = Some 0
  ∧ console (run (updateHistoricFlag (run (init [] ∅) enteredChampSelect))
                 (retryEvents (run (init [] ∅) enteredChampSelect) 5))
    = console (run (init [] ∅) enteredChampSelect)
        ++ List.concat (replicate 6 attemptLog) ++ [giveUpLog].
Proof.
  destruct (retry_campaign [] ∅ enteredChampSelect) as (Hcampaign & _).
  destruct Hcampaign as (_ & Hcount & _ & Hconsole); [vm_compute; reflexivity ..|].
  split; [exact Hcount | exact Hconsole].
Defined.

(** *** The popup label *)

Lemma showSkinName_spec name s :
  popupOf (showSkinName name s)
    = Some (mkPopup (labelSerial s) name (Some (nextTimer s)))
  ∧ timers (showSkinName name s)
    = clearedTimers s
        ++ [mkTimer (nextTimer s) 125000%Z (CbPopupExpire (labelSerial s))].
Proof.
  unfold showSkinName, resetTimer, clearedTimers, labelSerial, popupOf.
  destruct (popup (document s)) as [[serial text [old|]]|]; cbn; done.
Qed.

Lemma removeHistoricSkinName_popup s : popupOf (removeHistoricSkinName s) = None.
Proof. unfold removeHistoricSkinName, popupOf. by case_match. Qed.

Lemma handleHistoricStateUpdate_popup active name s :
  popupOf (handleHistoricStateUpdate active name s)
    = popupOf (handleHistoricSkinNameUpdate name s).
Proof.
  unfold handleHistoricStateUpdate. cbv zeta.
  match goal with |- popupOf ?t = popupOf ?u => change (Keeps popupOf u t) end.
  case_match; keeps.
Qed.

Lemma fades_refl s : fades s s.
Proof. by left. Qed.

Lemma fades_keeps s t u : fades s t → Keeps popupOf t u → fades s u.
Proof. unfold fades, Keeps. intros [H|H] ->; rewrite H; auto. Qed.

Lemma fades_remove s t : fades s (removeHistoricSkinName t).
Proof. right. apply removeHistoricSkinName_popup. Qed.

Lemma fades_find s : fades s (snd (findRewardsElement s)).
Proof.
  unfold findRewardsElement. cbv zeta.
  repeat case_match; cbn [snd]; try apply fades_refl; try apply fades_remove;
    (eapply fades_keeps; [apply fades_refl | keeps]).
Qed.

Lemma fades_updateHistoricFlag s t : fades s t → fades s (updateHistoricFlag t).
Proof.
  intros H. rewrite updateHistoricFlag_parts. case_match; [done|].
  assert (fades s (snd (findRewardsElement t))) as Hfind.
  { destruct (fades_find t) as [Hf|Hf]; [|by right].
    destruct H as [H|H]; [left | right]; congruence. }
  destruct (findRewardsElement t) as [[element|] t1]; cbn [snd] in Hfind.
  - eapply fades_keeps; [done|].
    apply Keeps_settle; try ignores. apply Keeps_bookkeep; ignores.
  - eapply fades_keeps; [done|]. apply Keeps_missed; ignores.
Qed.

Lemma fades_step s e :
  (∀ active id name, e ≠ EvMessage (Some (HistoricState active id name))) →
  fades s (step s e).
Proof.
  intros He.
  destruct e as [| | | |[[active id name|assetPath url|phase|]|]|id|body' elements'| |];
    cbn [step].
  - repeat case_match; try apply fades_refl.
    eapply fades_keeps; [apply fades_refl|]. unfold onopen. cbv zeta. keeps.
  - case_match; [|apply fades_refl].
    eapply fades_keeps; [apply fades_refl|]. unfold onerror. keeps.
  - eapply fades_keeps; [apply fades_refl|]. repeat case_match; keeps.
  - case_match; [|apply fades_refl].
    eapply fades_keeps; [apply fades_refl|].
    unfold onclose, scheduleBridgeRetry. cbv zeta. keeps.
  - by destruct (He active id name).
  - cbn. unfold handleLocalAssetUrl. cbv zeta.
    repeat case_match; try apply fades_refl.
    + apply fades_updateHistoricFlag. eapply fades_keeps; [apply fades_refl | keeps].
    + eapply fades_keeps; [apply fades_refl | keeps].
  - cbn. eapply fades_keeps; [apply fades_refl|].
    apply Keeps_handlePhaseChange; ignores.
  - apply fades_refl.
  - cbn. eapply fades_keeps; [apply fades_refl | keeps].
  - unfold fireTimer. case_match; [|apply fades_refl].
    assert (fades s (clearTimeout id s)) as Hc
      by (eapply fades_keeps; [apply fades_refl | keeps]).
    destruct (callback _); cbn.
    + by apply fades_updateHistoricFlag.
    + unfold retryFlag. case_match; [by apply fades_updateHistoricFlag|].
      eapply fades_keeps; [done | keeps].
    + eapply fades_keeps; [done|]. case_match; keeps.
    + repeat case_match; try done. by right.
  - unfold onmutation. case_match; [apply fades_updateHistoricFlag|]; by left.
  - by left.
  - apply fades_remove.
Qed.

Lemma updateHistoricFlag_absent_popup s :
  isInChampSelect s = true → fst (findRewardsElement s) = None →
  popupOf (updateHistoricFlag s) = None.
Proof.
  intros Hin Hfind. rewrite updateHistoricFlag_parts, Hin, find_absent by done.
  cbn [negb].
  set (t := removeHistoricSkinName _).
  assert (Keeps popupOf t (missed t)) as -> by (apply Keeps_missed; ignores).
  apply removeHistoricSkinName_popup.
Qed.

Lemma updateHistoricFlag_found_popup s element :
  fst (findRewardsElement s) = Some element →
  popupOf (updateHistoricFlag s) = popupOf s.
Proof.
  intros Hfind. destruct (find_found s element Hfind) as (Hin & message & Hm & Heq).
  rewrite updateHistoricFlag_parts, Hin, Heq. cbn [negb].
  change (Keeps popupOf s (settle element (bookkeep element (log "debug" message s)))).
  apply Keeps_settle; try ignores. apply Keeps_bookkeep; try ignores. keeps.
Qed.

(** C9, as stated, fails: with the label shown and no rewards element on
    the page, the synchronization scheduled by the historic-state message
    finds nothing and removes the label. *)
Lemma popup_removed_by_discovery :
  popupOf labelShown = Some (mkPopup 0 "Foo" (Some 1))
  ∧ fst (findRewardsElement labelShown) = None
  ∧ popupOf (step labelShown (EvTimer 2)) = None.
Proof. repeat split; vm_compute; reflexivity. Qed.

(** C9, amended: a historic-state message with a non-empty name other
    than None leaves a label with that name, on the element already there
    if any, cancels the label's previous expiry timer and schedules a new
    one; with a missing, empty or None name it leaves no label.  No other
    event creates a label or changes the one shown: it can only remove it.
    A synchronization in the target phase that finds no rewards element
    removes the label; one that finds the element leaves it alone. *)
Theorem popup_label_lifecycle s :
  (∀ active id name,
     Js.truthy name = true → name ≠ "None" →
     popupOf (step s (EvMessage (Some (HistoricState active id (Some name)))))
       = Some (mkPopup (labelSerial s) name (Some (nextTimer s)))
     ∧ timers (handleHistoricSkinNameUpdate (Some name) s)
       = clearedTimers s
           ++ [mkTimer (nextTimer s) 125000%Z (CbPopupExpire (labelSerial s))])
  ∧ (∀ active id name,
       name = None ∨ name = Some EmptyString ∨ name = Some "None" →
       popupOf (step s (EvMessage (Some (HistoricState active id name)))) = None)
  ∧ (∀ e,
       (∀ active id name, e ≠ EvMessage (Some (HistoricState active id name))) →
       popupOf (step s e) = popupOf s ∨ popupOf (step s e) = None)
  ∧ (isInChampSelect s = true → fst (findRewardsElement s) = None →
       popupOf (updateHistoricFlag s) = None)
  ∧ (∀ element, fst (findRewardsElement s) = Some element →
       popupOf (updateHistoricFlag s) = popupOf s).
Proof.
  split; [|split; [|split; [|split]]].
  - intros active id name Htruthy Hname. cbn [step onmessage handleBridgeMessage].
    rewrite handleHistoricStateUpdate_popup. unfold handleHistoricSkinNameUpdate.
    rewrite Htruthy. apply String.eqb_neq in Hname as ->. cbn [negb andb].
    apply showSkinName_spec.
  - intros active id name Hname. cbn [step onmessage handleBridgeMessage].
    rewrite handleHistoricStateUpdate_popup. unfold handleHistoricSkinNameUpdate.
    destruct Hname as [-> | [-> | ->]]; cbn; apply removeHistoricSkinName_popup.
  - intros e He. by apply fades_step.
  - apply updateHistoricFlag_absent_popup.
  - apply updateHistoricFlag_found_popup.
Qed.

Lemma popup_label_lifecycle_witness :
  popupOf (step labelShown (EvMessage (Some (HistoricState true 42 (Some "Bar")))))
    = Some (mkPopup 0 "Bar" (Some 4))
  ∧ popupOf (updateHistoricFlag labelShown) = None.
Proof.
  destruct (popup_label_lifecycle labelShown) as (Hshow & _ & _ & Habsent & _).
  split.
  - destruct (Hshow true 42%Z "Bar") as (Hpopup & _); [reflexivity | discriminate |].
    rewrite Hpopup. vm_compute. reflexivity.
  - apply Habsent; vm_compute; reflexivity.
Defined.

(** * Further properties *)

(** ** DOM Decoration Applier: how apply and clear compose *)

Section DecorationMore.

Implicit Types (element : Element) (url : string) (sty : Style).

Lemma declared_none (p : string) decls :
  declared p decls = None ↔ p ∉ map fst decls.
Proof.
  unfold declared. induction decls as [|[n v] decls IH]; cbn.
  - split; [intros _; apply not_elem_of_nil | done].
  - rewrite not_elem_of_cons. destruct (String.eqb n p) eqn:Hn; cbn.
    + apply String.eqb_eq in Hn. split; [done | intros [? _]; congruence].
    + apply String.eqb_neq in Hn. rewrite IH. split; [intros ?; split; congruence | tauto].
Qed.

Lemma declared_elem (p v : string) decls :
  NoDup (map fst decls) → (p, v) ∈ decls → declared p decls = Some v.
Proof.
  unfold declared. induction decls as [|[n w] decls IH]; cbn; intros Hnd Hin.
  - by apply elem_of_nil in Hin.
  - apply NoDup_cons in Hnd as [Hn Hnd]. apply elem_of_cons in Hin as [[= <- <-]|Hin].
    + by rewrite String.eqb_refl.
    + destruct (String.eqb n p) eqn:Hnp; cbn; [|by apply IH].
      apply String.eqb_eq in Hnp as ->. destruct Hn.
      apply list_elem_of_fmap. by exists (p, v).
Qed.

(** The style left by a run of [setProperty] calls, property by property. *)
Lemma lookup_setAll decls sty (p : string) :
  NoDup (map fst decls) →
  setAll decls sty !! p =
    match declared p decls with
    | Some v => Some (v, true)
    | None => sty !! p
    end.
Proof.
  unfold setAll. revert sty.
  induction decls as [|[n v] decls IH]; intros sty Hnd; cbn [fold_left]; [done|].
  cbn in Hnd. apply NoDup_cons in Hnd as [Hn Hnd]. rewrite IH by done.
  unfold declared at 2. cbn. destruct (String.eqb n p) eqn:Hnp; cbn.
  - apply String.eqb_eq in Hnp as ->.
    apply declared_none in Hn as ->. unfold setProperty. cbn. by rewrite lookup_insert_eq.
  - apply String.eqb_neq in Hnp. fold (declared p decls).
    destruct (declared p decls); [done|].
    unfold setProperty. cbn. by rewrite lookup_insert_ne.
Qed.

Lemma appliedDecls_names url :
  map fst (appliedDecls url) = "display" :: "visibility" :: "opacity" :: sharedProps.
Proof. reflexivity. Qed.

Lemma appliedDecls_NoDup url : NoDup (map fst (appliedDecls url)).
Proof. rewrite appliedDecls_names. apply (bool_decide_unpack _). vm_compute. exact I. Qed.

Lemma show_style url sty :
  setAll (flagDecls url) (setAll visibleDecls sty) = setAll (appliedDecls url) sty.
Proof. unfold setAll, appliedDecls. by rewrite fold_left_app. Qed.

Lemma show_style_lookup url element (p : string) :
  style (showFlagOnElement url element) !! p =
    match declared p (appliedDecls url) with
    | Some v => Some (v, true)
    | None => style element !! p
    end.
Proof.
  unfold showFlagOnElement; cbn [style]. rewrite show_style.
  apply lookup_setAll, appliedDecls_NoDup.
Qed.

Lemma declared_applied_none url (p : string) :
  declared p (appliedDecls url) = None →
  p ≠ "opacity" ∧ p ≠ "visibility" ∧ p ≠ "display" ∧ p ∉ sharedProps.
Proof.
  rewrite declared_none, appliedDecls_names, !not_elem_of_cons. tauto.
Qed.

(** Two elements are the same after apply as soon as they agree on the
    classes other than the marker and on the properties apply leaves alone. *)
Lemma show_ext url element element' :
  classList element ∖ {[ HISTORIC_CLASS ]} = classList element' ∖ {[ HISTORIC_CLASS ]} →
  (∀ p : string, declared p (appliedDecls url) = None →
                 style element !! p = style element' !! p) →
  showFlagOnElement url element = showFlagOnElement url element'.
Proof.
  intros Hc Hs.
  assert (style (showFlagOnElement url element) = style (showFlagOnElement url element'))
    as Hstyle.
  { apply map_eq; intros p. rewrite !show_style_lookup.
    destruct (declared p (appliedDecls url)) eqn:Hp; [done | by apply Hs]. }
  unfold showFlagOnElement in *; cbn [style] in Hstyle. rewrite Hstyle. f_equal.
  clear Hs Hstyle. apply set_eq. intros c.
  assert (c ∈ classList element ∖ {[HISTORIC_CLASS]}
          ↔ c ∈ classList element' ∖ {[HISTORIC_CLASS]}) as Hiff by (by rewrite Hc).
  rewrite !elem_of_difference, !elem_of_singleton in Hiff.
  rewrite !elem_of_union, !elem_of_singleton.
  destruct (decide (c = HISTORIC_CLASS)); tauto.
Qed.

Lemma hide_classes element :
  classList (hideFlagOnElement element) = classList element ∖ {[ HISTORIC_CLASS ]}.
Proof. unfold hideFlagOnElement. cbv zeta. by repeat case_match. Qed.

(** Clearing leaves alone every property that apply writes anyway. *)
Lemma hide_style_outside url element (p : string) :
  declared p (appliedDecls url) = None →
  style (hideFlagOnElement element) !! p = style element !! p.
Proof.
  intros Hp. apply declared_applied_none in Hp as (Ho & Hv & Hd & Hs).
  destruct (decide (RANDOM_CLASS ∈ classList element)) as [Hr|Hr].
  - rewrite hide_with_random by done. cbn [style]. case_match; [|done].
    unfold removeProperty. rewrite lookup_delete_ne; [done|].
    intros <-. apply Hs. unfold sharedProps. apply list_elem_of_here.
  - rewrite hide_without_random by done. cbn [style]. rewrite hidden_style_lookup.
    repeat (case_decide; [done|]). by rewrite bool_decide_eq_false_2.
Qed.

Lemma append_cons (c : ascii) (x y : string) :
  String.append (String c x) y = String c (String.append x y).
Proof. reflexivity. Qed.

Lemma append_empty (y : string) : String.append EmptyString y = y.
Proof. reflexivity. Qed.

Lemma prefix_app_other (sub x t : string) (q : ascii) :
  occurs q sub = false →
  String.prefix sub (String.append x (String q t)) = String.prefix sub x.
Proof.
  revert x. induction sub as [|a sub IH]; intros x Hq; cbn in Hq.
  - by destruct x.
  - apply orb_false_iff in Hq as [Ha Hq].
    destruct x as [|c x]; rewrite ?append_cons, ?append_empty; cbn [String.prefix].
    + destruct (ascii_dec a q) as [->|]; [|done]. by rewrite Ascii.eqb_refl in Ha.
    + destruct (ascii_dec a c); [by apply IH | done].
Qed.

Lemma includes_unfold (s sub : string) :
  Js.includes s sub =
    if String.prefix sub s then true
    else match s with
         | EmptyString => false
         | String _ rest => Js.includes rest sub
         end.
Proof. by destruct s. Qed.

(** A match cannot straddle a character that the pattern does not hold. *)
Lemma includes_app_other (sub x t : string) (q : ascii) :
  occurs q sub = false → Js.truthy sub = true →
  Js.includes (String.append x (String q t)) sub
    = Js.includes x sub || Js.includes (String q t) sub.
Proof.
  intros Hq Hsub. induction x as [|c x IH].
  - rewrite append_empty, (includes_unfold EmptyString).
    by destruct sub.
  - rewrite (includes_unfold (String.append (String c x) (String q t))).
    rewrite (includes_unfold (String c x)).
    rewrite prefix_app_other by done.
    destruct (String.prefix sub (String c x)); [done|].
    rewrite append_cons. apply IH.
Qed.

Lemma includes_skip (a c : ascii) (sub s : string) :
  a ≠ c → Js.includes (String c s) (String a sub) = Js.includes s (String a sub).
Proof.
  intros Hne. rewrite includes_unfold. cbn [String.prefix].
  by destruct (ascii_dec a c).
Qed.

Lemma includes_cssUrl (url : string) :
  Js.includes (cssUrl url) "historic_flag.png" = Js.includes url "historic_flag.png".
Proof.
  unfold cssUrl, dquote. rewrite !append_cons, !append_empty.
  do 5 (rewrite includes_skip by discriminate).
  rewrite includes_app_other by reflexivity.
  apply orb_false_r.
Qed.

End DecorationMore.

Lemma hide_hide (element : Element) :
  hideFlagOnElement (hideFlagOnElement element) = hideFlagOnElement element.
Proof.
  destruct (decide (RANDOM_CLASS ∈ classList element)) as [Hr|Hr].
  - assert (RANDOM_CLASS ∈ classList (hideFlagOnElement element)) as Hr'.
    { rewrite hide_classes. apply elem_of_difference. split; [done|].
      rewrite elem_of_singleton. discriminate. }
    rewrite (hide_with_random (hideFlagOnElement element)) by done.
    rewrite hide_classes.
    rewrite (hide_with_random element) by done. cbn [classList style].
    f_equal; [set_solver|].
    destruct (Js.truthy (getPropertyValue "background-image" (style element))
              && Js.includes (getPropertyValue "background-image" (style element))
                             "historic_flag.png") eqn:Hbg.
    + unfold getPropertyValue at 1, removeProperty at 1.
      by rewrite lookup_delete_eq.
    + by rewrite Hbg.
  - assert (RANDOM_CLASS ∉ classList (hideFlagOnElement element)) as Hr'.
    { rewrite hide_classes. set_solver. }
    rewrite (hide_without_random (hideFlagOnElement element)) by done.
    rewrite hide_classes.
    rewrite (hide_without_random element) by done. cbn [classList style].
    f_equal; [set_solver|].
    apply map_eq; intros p. rewrite !hidden_style_lookup.
    repeat (case_decide; [done|]). by case_bool_decide.
Qed.

(** X1: clearing is idempotent: a second clear changes neither the classes
    nor the style, whether or not the random flag is on the element. *)
Theorem hide_idempotent (element : Element) :
  hideFlagOnElement (hideFlagOnElement element) = hideFlagOnElement element.
Proof. apply hide_hide. Qed.

(** X2: apply overrides whatever an earlier apply or clear left: applying
    after a clear, or after an apply with another URL, gives the element
    that applying alone gives. *)
Theorem apply_overrides (url url' : string) (element : Element) :
  showFlagOnElement url (hideFlagOnElement element) = showFlagOnElement url element
  ∧ showFlagOnElement url (showFlagOnElement url' element) = showFlagOnElement url element.
Proof.
  split; apply show_ext.
  - rewrite hide_classes. set_solver.
  - intros p Hp. by apply hide_style_outside with url.
  - unfold showFlagOnElement; cbn [classList]. set_solver.
  - intros p Hp. rewrite show_style_lookup.
    assert (declared p (appliedDecls url') = None) as ->; [|done].
    apply declared_none. rewrite appliedDecls_names.
    apply declared_none in Hp. by rewrite appliedDecls_names in Hp.
Qed.

(** X3: what apply writes: it adds the marker class and removes none;
    each of its sixteen declarations ends up in the inline style with the
    value of the source and the important flag; every other property
    keeps the value and the priority it had. *)
Theorem show_footprint (url : string) (element : Element) :
  classList (showFlagOnElement url element) = classList element ∪ {[ HISTORIC_CLASS ]}
  ∧ (∀ p v : string, (p, v) ∈ appliedDecls url →
       style (showFlagOnElement url element) !! p = Some (v, true))
  ∧ (∀ p : string, p ∉ map fst (appliedDecls url) →
       style (showFlagOnElement url element) !! p = style element !! p)
  ∧ getPropertyValue "background-image" (style (showFlagOnElement url element))
      = cssUrl url.
Proof.
  split; [done|]. split; [|split].
  - intros p v Hin. rewrite show_style_lookup.
    by rewrite (declared_elem p v) by (apply appliedDecls_NoDup || done).
  - intros p Hp. rewrite show_style_lookup. by apply declared_none in Hp as ->.
  - unfold getPropertyValue. by rewrite show_style_lookup.
Qed.

(** X4: with the random flag on the element, clearing after an apply
    removes the marker class and, of the sixteen properties apply wrote,
    at most background-image: that one is removed exactly when the URL
    applied mentions historic_flag.png, and stays in place otherwise. *)
Theorem clear_after_apply_beside_random (url : string) (element : Element) :
  RANDOM_CLASS ∈ classList element →
  hideFlagOnElement (showFlagOnElement url element) =
    mkElement (classList element ∖ {[ HISTORIC_CLASS ]})
      (if Js.includes url HISTORIC_FLAG_ASSET_PATH
       then removeProperty "background-image" (style (showFlagOnElement url element))
       else style (showFlagOnElement url element)).
Proof.
  intros Hr.
  assert (RANDOM_CLASS ∈ classList (showFlagOnElement url element)) as Hr'.
  { unfold showFlagOnElement; cbn [classList]. set_solver. }
  rewrite hide_with_random by done.
  assert (getPropertyValue "background-image" (style (showFlagOnElement url element))
          = cssUrl url) as ->.
  { unfold getPropertyValue. by rewrite show_style_lookup. }
  rewrite includes_cssUrl. f_equal.
  unfold showFlagOnElement; cbn [classList]. set_solver.
Qed.

Lemma clear_after_apply_beside_random_witness :
  style (hideFlagOnElement (showFlagOnElement "http://host/flag.png" bothFlagsElement))
    !! "background-image" = Some (cssUrl "http://host/flag.png", true).
Proof.
  rewrite (clear_after_apply_beside_random "http://host/flag.png" bothFlagsElement).
  - vm_compute. reflexivity.
  - unfold bothFlagsElement; cbn. apply elem_of_union_r, elem_of_singleton. reflexivity.
Defined.

(** ** Bridge Port Resolver: what is stored, what is fetched *)

Section ResolverMore.

Import Resolver.






Lemma positive_port_pos (o : option Z) (n : Z) :
  Js.positive_port o = Some n → (0 < n)%Z.
Proof.
  destruct o as [m|]; cbn; [|done]. destruct (0 <? m)%Z eqn:Hm; [|done].
  intros [= <-]. by apply Z.ltb_lt.
Qed.

Lemma probe_adopted (o : FetchOutcome) (p : Z) : probe o = Adopted p → (0 < p)%Z.
Proof.
  destruct o as [|[] [text|]]; cbn; try done.
  destruct (Js.positive_port _) eqn:Hp; [|done]. intros [= <-].
  by apply positive_port_pos in Hp.
Qed.

Lemma sweepProbe_adopts net stage port :
  sweepProbe (net stage port) = None ↔ adopts net (stage, port) = false.
Proof. unfold sweepProbe, adopts; cbn. by destruct (probe _). Qed.

Lemma sweepStage_none net stage :
  sweepStage net stage = None ↔
  Forall (λ call, adopts net call = false) (sweepCalls stage).
Proof.
  unfold sweepStage, sweepCalls. rewrite firstFulfilled_none, !Forall_fmap.
  apply Forall_proper; [|done]. intros port. cbn. apply sweepProbe_adopts.
Qed.

Lemma sweepStage_pos net stage (p : Z) : sweepStage net stage = Some p → (0 < p)%Z.
Proof.
  intros (pre & port & post & _ & Hp & _)%sweepStage_first.
  unfold sweepProbe in Hp. destruct (probe _) eqn:Hprobe; try done.
  injection Hp as <-. by apply probe_adopted in Hprobe.
Qed.

Variable net : Network.
Variable port0 : Z.

(** The five ways a run can end, over the candidate list. *)
Lemma load_outcome (storage0 : option string) :
  let r := loadBridgePort net port0 storage0 in
  let cc := cachedCandidate storage0 in
  (∃ port p, cc = [(Cached, port)] ∧ probe (net Cached port) = Adopted p
             ∧ r = mkLoadResult true p storage0 cc)
  ∨ (Forall (λ call, adopts net call = false) cc
     ∧ ((∃ p, probe (net Default DEFAULT_PORT) = Adopted p
              ∧ r = mkLoadResult true p (Some (pretty p)) (cc ++ [(Default, DEFAULT_PORT)]))
        ∨ (adopts net (Default, DEFAULT_PORT) = false
           ∧ ((∃ p, sweepStage net Sweep = Some p
                    ∧ r = mkLoadResult true p (Some (pretty p))
                            (cc ++ (Default, DEFAULT_PORT) :: sweepCalls Sweep))
              ∨ (sweepStage net Sweep = None
                 ∧ ((∃ p, sweepStage net Legacy = Some p
                          ∧ r = mkLoadResult true p (Some (pretty p)) (candidates storage0))
                    ∨ (sweepStage net Legacy = None
                       ∧ found r = false ∧ BRIDGE_PORT r = port0
                       ∧ fetched r = candidates storage0))))))).
Proof.
  cbv zeta. unfold candidates.
  assert (∀ storage1 calls1,
    Forall (λ call, adopts net call = false) calls1 →
    let r := match probe (net Default DEFAULT_PORT) with
      | Adopted fetchedPort =>
          mkLoadResult true fetchedPort (Some (pretty fetchedPort))
            (calls1 ++ [(Default, DEFAULT_PORT)])
      | Declined | Threw =>
          match sweepStage net Sweep with
          | Some fetchedPort =>
              mkLoadResult true fetchedPort (Some (pretty fetchedPort))
                ((calls1 ++ [(Default, DEFAULT_PORT)]) ++ sweepCalls Sweep)
          | None =>
              match sweepStage net Legacy with
              | Some fetchedPort =>
                  mkLoadResult true fetchedPort (Some (pretty fetchedPort))
                    (((calls1 ++ [(Default, DEFAULT_PORT)]) ++ sweepCalls Sweep)
                       ++ sweepCalls Legacy)
              | None =>
                  mkLoadResult false port0 storage1
                    (((calls1 ++ [(Default, DEFAULT_PORT)]) ++ sweepCalls Sweep)
                       ++ sweepCalls Legacy)
              end
          end
      end in
    Forall (λ call, adopts net call = false) calls1
     ∧ ((∃ p, probe (net Default DEFAULT_PORT) = Adopted p
              ∧ r = mkLoadResult true p (Some (pretty p)) (calls1 ++ [(Default, DEFAULT_PORT)]))
        ∨ (adopts net (Default, DEFAULT_PORT) = false
           ∧ ((∃ p, sweepStage net Sweep = Some p
                    ∧ r = mkLoadResult true p (Some (pretty p))
                            (calls1 ++ (Default, DEFAULT_PORT) :: sweepCalls Sweep))
              ∨ (sweepStage net Sweep = None
                 ∧ ((∃ p, sweepStage net Legacy = Some p
                          ∧ r = mkLoadResult true p (Some (pretty p))
                                  (calls1 ++ (Default, DEFAULT_PORT)
                                     :: sweepCalls Sweep ++ sweepCalls Legacy))
                    ∨ (sweepStage net Legacy = None
                       ∧ found r = false ∧ BRIDGE_PORT r = port0
                       ∧ fetched r = calls1 ++ (Default, DEFAULT_PORT)
                                       :: sweepCalls Sweep ++ sweepCalls Legacy))))))) as Hrest.
  { intros storage1 calls1 Hc. cbv zeta. split; [done|].
    unfold adopts; cbn [fst snd].
    destruct (probe (net Default DEFAULT_PORT)) as [p| |]; [left; by exists p|..];
      (right; split; [done|]);
      (destruct (sweepStage net Sweep) as [p|];
       [left; exists p; by rewrite <- app_assoc|]);
      (right; split; [done|]);
      (destruct (sweepStage net Legacy) as [p|];
       [left; exists p; by rewrite <- !app_assoc|]);
      right; rewrite <- !app_assoc; done. }
  unfold loadBridgePort, cachedStage, cachedCandidate.
  destruct storage0 as [cachedPort|]; [|right; apply Hrest; constructor].
  destruct (Js.truthy cachedPort); [|right; apply Hrest; constructor].
  destruct (Js.positive_port (Js.parseInt cachedPort)) as [port|];
    [|right; apply Hrest; constructor].
  destruct (probe (net Cached port)) as [p| |] eqn:Hprobe.
  - left. by exists port, p.
  - right. apply Hrest. constructor; [|constructor]. unfold adopts; cbn. by rewrite Hprobe.
  - right. apply Hrest. constructor; [|constructor]. unfold adopts; cbn. by rewrite Hprobe.
Qed.

Lemma sweepStage_some stage (p : Z) :
  sweepStage net stage = Some p →
  Exists (λ call, adopts net call = true) (sweepCalls stage).
Proof.
  intros (pre & port & post & Hports & Hp & _)%sweepStage_first.
  unfold sweepCalls. rewrite Hports, map_app. apply Exists_app. right.
  cbn. apply Exists_cons_hd. unfold adopts, sweepProbe in *; cbn.
  by destruct (probe _).
Qed.

Lemma cachedCandidate_usable (cachedPort : string) (port : Z) :
  Js.truthy cachedPort = true → Js.positive_port (Js.parseInt cachedPort) = Some port →
  cachedCandidate (Some cachedPort) = [(Cached, port)].
Proof. intros Ht Hp. unfold cachedCandidate. by rewrite Ht, Hp. Qed.

Lemma cachedCandidate_cases (storage : option string) :
  cachedCandidate storage = []
  ∨ ∃ cachedPort port, storage = Some cachedPort ∧ Js.truthy cachedPort = true
      ∧ Js.positive_port (Js.parseInt cachedPort) = Some port
      ∧ cachedCandidate storage = [(Cached, port)].
Proof.
  unfold cachedCandidate. destruct storage as [cachedPort|]; [|by left].
  destruct (Js.truthy cachedPort) eqn:Ht; [|by left].
  destruct (Js.positive_port _) as [port|] eqn:Hp; [|by left].
  right. by exists cachedPort, port.
Qed.

Lemma sweepPorts_range : Forall (λ port, 50000 ≤ port ≤ 50010)%Z sweepPorts.
Proof.
  apply Forall_forall. intros port Hin. unfold sweepPorts in Hin.
  apply elem_of_seqZ in Hin. unfold DISCOVERY_START_PORT, DISCOVERY_END_PORT in Hin. lia.
Qed.

Lemma candidates_range (storage : option string) :
  Forall (λ call, fst call = Cached ∨ (50000 ≤ snd call ≤ 50010)%Z) (candidates storage).
Proof.
  assert (∀ stage, Forall (λ call : Stage * Z,
            fst call = Cached ∨ (50000 ≤ snd call ≤ 50010)%Z) (sweepCalls stage)) as Hsweep.
  { intros stage. unfold sweepCalls. apply Forall_fmap.
    eapply Forall_impl; [apply sweepPorts_range|]. cbn. auto. }
  unfold candidates. apply Forall_app. split.
  - destruct (cachedCandidate_cases storage) as [->|(? & ? & _ & _ & _ & ->)];
      repeat constructor.
  - constructor; [right; cbn; unfold DEFAULT_PORT; lia|].
    apply Forall_app. auto.
Qed.

Lemma candidates_length (storage : option string) :
  (List.length (candidates storage) ≤ 22)%nat.
Proof.
  unfold candidates.
  destruct (cachedCandidate_cases storage) as [->|(? & ? & _ & _ & _ & ->)];
    cbn [List.length app]; rewrite ?length_app; unfold sweepCalls;
    rewrite !length_map; unfold sweepPorts; rewrite length_seqZ;
    unfold DISCOVERY_START_PORT, DISCOVERY_END_PORT; lia.
Qed.

End ResolverMore.


(** X6: the resolver reports a port exactly when the probe of one of its
    candidates, in the list it goes through, yields one; the port it then
    adopts is positive; and when it reports none, BRIDGE_PORT keeps its
    value and every candidate has been fetched, in order. *)
Theorem resolver_succeeds_iff (net : Resolver.Network) (port0 : Z)
    (storage0 : option string) :
  let r := Resolver.loadBridgePort net port0 storage0 in
  (Resolver.found r = true
   ↔ Exists (λ call, adopts net call = true) (candidates storage0))
  ∧ (Resolver.found r = true → (0 < Resolver.BRIDGE_PORT r)%Z)
  ∧ (Resolver.found r = false →
       Resolver.BRIDGE_PORT r = port0 ∧ Resolver.fetched r = candidates storage0).
Proof.
  cbv zeta.
  assert (∀ call, adopts net call = true → adopts net call = false → False) as Hboth
    by (intros call -> [=]).
  destruct (load_outcome net port0 storage0)
    as [(port & p & Hcc & Hprobe & Hr)
       |(Hcached & [(p & Hprobe & Hr)
             |(Hdefault & [(p & Hsweep & Hr)
                   |(Hnosweep & [(p & Hlegacy & Hr)|(Hnolegacy & Hnone & Hport & Hcalls)])])])].
  - rewrite Hr. cbn. split; [|split; [|done]].
    + split; [intros _|done]. unfold candidates. apply Exists_app. left.
      rewrite Hcc. apply Exists_cons_hd. unfold adopts; cbn. by rewrite Hprobe.
    + intros _. by apply probe_adopted in Hprobe.
  - rewrite Hr. cbn. split; [|split; [|done]].
    + split; [intros _|done]. unfold candidates. apply Exists_app. right.
      apply Exists_cons_hd. unfold adopts; cbn. by rewrite Hprobe.
    + intros _. by apply probe_adopted in Hprobe.
  - rewrite Hr. cbn. split; [|split; [|done]].
    + split; [intros _|done]. unfold candidates. apply Exists_app. right.
      apply Exists_cons_tl, Exists_app. left. by apply sweepStage_some in Hsweep.
    + intros _. by apply sweepStage_pos in Hsweep.
  - rewrite Hr. cbn. split; [|split; [|done]].
    + split; [intros _|done]. unfold candidates. apply Exists_app. right.
      apply Exists_cons_tl, Exists_app. right. by apply sweepStage_some in Hlegacy.
    + intros _. by apply sweepStage_pos in Hlegacy.
  - rewrite Hnone. split; [|split; [done|by intros _]].
    split; [done|]. intros Hex. exfalso.
    apply sweepStage_none in Hnosweep, Hnolegacy.
    assert (Forall (λ call, adopts net call = false) (candidates storage0)) as Hall.
    { unfold candidates. apply Forall_app. split; [done|].
      constructor; [done|]. by apply Forall_app. }
    apply Exists_exists in Hex as (call & Hin & Hcall).
    rewrite Forall_forall in Hall. eapply Hboth; [done | by apply Hall].
Qed.

Lemma fetched_prefix (net : Resolver.Network) (port0 : Z) (storage0 : option string) :
  Resolver.fetched (Resolver.loadBridgePort net port0 storage0)
    `prefix_of` candidates storage0.
Proof.
  destruct (load_outcome net port0 storage0)
    as [(port & p & Hcc & Hprobe & Hr)
       |(_ & [(p & Hprobe & Hr)
             |(_ & [(p & Hsweep & Hr)
                   |(_ & [(p & Hlegacy & Hr)|(_ & _ & _ & Hcalls)])])])];
    rewrite ?Hr, ?Hcalls; cbn [Resolver.fetched]; unfold candidates.
  - apply prefix_app_r. done.
  - apply prefix_app, prefix_cons, prefix_nil.
  - apply prefix_app, prefix_cons, prefix_app_r. done.
  - done.
  - done.
Qed.

(** X7: the fetches of a run are an initial segment of the candidate
    list: at most 22 requests, none of them to a port outside 50000 to
    50010 except the probe of the cached port. *)
Theorem fetches_bounded (net : Resolver.Network) (port0 : Z) (storage0 : option string) :
  let r := Resolver.loadBridgePort net port0 storage0 in
  Resolver.fetched r `prefix_of` candidates storage0
  ∧ (List.length (Resolver.fetched r) ≤ 22)%nat
  ∧ Forall (λ call, fst call = Resolver.Cached ∨ (50000 ≤ snd call ≤ 50010)%Z)
           (Resolver.fetched r).
Proof.
  cbv zeta.
  pose proof (fetched_prefix net port0 storage0) as Hpre.
  split; [done|]. destruct Hpre as [rest Hrest]. split.
  - pose proof (candidates_length storage0) as Hlen.
    rewrite Hrest, length_app in Hlen. lia.
  - pose proof (candidates_range storage0) as Hrange.
    rewrite Hrest in Hrange. by apply Forall_app in Hrange as [? _].
Qed.

(** X8: a storage item that is empty, or that [parseInt] does not read as
    a positive number, is never probed and never removed: the run is the
    one without a cache, and the item is still there afterwards unless a
    later stage stored a port over it. *)
Theorem unusable_cache_skipped (net : Resolver.Network) (port0 : Z) (cachedPort : string) :
  Js.truthy cachedPort = false ∨ Js.positive_port (Js.parseInt cachedPort) = None →
  Resolver.loadBridgePort net port0 (Some cachedPort)
    = keeping cachedPort (Resolver.loadBridgePort net port0 None)
  ∧ Forall (λ call, fst call ≠ Resolver.Cached)
           (Resolver.fetched (Resolver.loadBridgePort net port0 (Some cachedPort)))
  ∧ (Resolver.found (Resolver.loadBridgePort net port0 (Some cachedPort)) = false →
       Resolver.localStorage (Resolver.loadBridgePort net port0 (Some cachedPort))
         = Some cachedPort).
Proof.
  intros Hc. rewrite (loadBridgePort_unusable_cache net port0 cachedPort Hc).
  split; [done|]. split.
  - unfold keeping; cbn [Resolver.fetched].
    destruct (fetched_prefix net port0 None) as [rest Hrest].
    assert (Forall (λ call : Resolver.Stage * Z, fst call ≠ Resolver.Cached)
              (candidates None)) as Hall.
    { unfold candidates, Resolver.sweepCalls. cbn [cachedCandidate app].
      constructor; [done|]. apply Forall_app. split; apply Forall_fmap, Forall_true; done. }
    rewrite Hrest in Hall. by apply Forall_app in Hall as [? _].
  - unfold keeping; cbn. by intros ->.
Qed.

Lemma unusable_cache_skipped_witness :
  Resolver.localStorage (Resolver.loadBridgePort netSilent 50000 (Some "port"))
    = Some "port".
Proof.
  apply (unusable_cache_skipped netSilent 50000 "port"); [by right | reflexivity].
Defined.

(** ** Invariants of the event loop

    A property of the state is kept by every event as soon as it is kept
    by the few operations the handlers are made of.  The section proves
    this once; each invariant below supplies the operations. *)

Section Invariant.

Variable Inv : State → Prop.

Hypothesis Hlog : ∀ level message t, Inv t → Inv (log level message t).
Hypothesis Hrequest : ∀ t, Inv t → Inv (requestHistoricFlagImage t).
Hypothesis Hsync : ∀ ms t, Inv t → Inv (setTimeout CbUpdateFlag ms t).
Hypothesis Hagain : ∀ ms t, Inv t → Inv (setTimeout CbRetryFlag ms t).
Hypothesis Hcount : ∀ (n : nat) t, (n ≤ 5)%nat → Inv t → Inv (set_retryCount (Some n) t).
Hypothesis Hcurrent : ∀ v t, Inv t → Inv (set_currentRewardsElement v t).
Hypothesis Hhide : ∀ id t, Inv t → Inv (hideOn id t).
Hypothesis Hshow : ∀ url id t, Inv t → Inv (showOn url id t).
Hypothesis Hremove : ∀ t, Inv t → Inv (removeHistoricSkinName t).

Local Ltac inv_step :=
  lazymatch goal with
  | H : Inv ?t |- Inv ?t => exact H
  | |- Inv (log _ _ _) => apply Hlog
  | |- Inv (requestHistoricFlagImage _) => apply Hrequest
  | |- Inv (setTimeout CbUpdateFlag _ _) => apply Hsync
  | |- Inv (setTimeout CbRetryFlag _ _) => apply Hagain
  | |- Inv (set_retryCount (Some 0) _) => apply Hcount; [lia|]
  | |- Inv (set_currentRewardsElement _ _) => apply Hcurrent
  | |- Inv (hideOn _ _) => apply Hhide
  | |- Inv (showOn _ _ _) => apply Hshow
  | |- Inv (removeHistoricSkinName _) => apply Hremove
  end.

Local Ltac inv_ok := repeat inv_step.

Lemma Inv_find t : Inv t → Inv (snd (findRewardsElement t)).
Proof.
  intros H. unfold findRewardsElement. repeat case_match; cbn [snd]; inv_ok.
Qed.

Lemma Inv_missed t : Inv t → Inv (missed t).
Proof.
  intros H. unfold missed. case_match; [done|]. cbv zeta.
  match goal with
  | |- context [Nat.ltb (default 0 (retryCount ?u)) 5] =>
      assert (Inv u) as Hu by (repeat case_match; inv_ok); revert Hu; generalize u
  end.
  intros u Hu. destruct (Nat.ltb _ 5) eqn:Hlt; [|inv_ok].
  apply Nat.ltb_lt in Hlt. apply Hagain, Hcount; [lia | done].
Qed.

Lemma Inv_bookkeep element t : Inv t → Inv (bookkeep element t).
Proof. intros H. unfold bookkeep. cbv zeta. repeat case_match; inv_ok. Qed.

Lemma Inv_settle element t : Inv t → Inv (settle element t).
Proof. intros H. unfold settle. cbv zeta. repeat case_match; inv_ok. Qed.

Lemma Inv_updateHistoricFlag t : Inv t → Inv (updateHistoricFlag t).
Proof.
  intros H. rewrite updateHistoricFlag_parts. case_match; [done|].
  pose proof (Inv_find t H) as Hfind.
  destruct (findRewardsElement t) as [[element|] t1]; cbn [snd] in Hfind.
  - by apply Inv_settle, Inv_bookkeep.
  - by apply Inv_missed.
Qed.

Lemma Inv_retryFlag t : Inv t → Inv (retryFlag t).
Proof.
  intros H. unfold retryFlag. case_match; [by apply Inv_updateHistoricFlag | inv_ok].
Qed.

Lemma Inv_onmutation t : Inv t → Inv (onmutation t).
Proof.
  intros H. unfold onmutation. case_match; [by apply Inv_updateHistoricFlag | done].
Qed.

Hypothesis Hphase : ∀ v t, Inv t → Inv (set_isInChampSelect v t).
Hypothesis Hurl : ∀ v t, Inv t → Inv (set_historicFlagImageUrl v t).
Hypothesis Hpending : ∀ v t, Inv t → Inv (set_pendingHistoricFlagRequest v t).
Hypothesis Hactive : ∀ v t, Inv t → Inv (set_historicModeActive v t).
Hypothesis Hname : ∀ name t, Inv t → Inv (handleHistoricSkinNameUpdate name t).

Lemma Inv_handlePhaseChange phase t : Inv t → Inv (handlePhaseChange phase t).
Proof.
  intros H. unfold handlePhaseChange. cbv zeta.
  pose proof (Hphase (isTargetPhase phase) t H).
  repeat case_match; inv_ok.
Qed.

Lemma Inv_handleLocalAssetUrl assetPath url t :
  Inv t → Inv (handleLocalAssetUrl assetPath url t).
Proof.
  intros H. unfold handleLocalAssetUrl. cbv zeta.
  repeat case_match; try done; try apply Inv_updateHistoricFlag;
    apply Hlog, Hpending, Hurl, H.
Qed.

Lemma Inv_handleHistoricStateUpdate active name t :
  Inv t → Inv (handleHistoricStateUpdate active name t).
Proof.
  intros H. unfold handleHistoricStateUpdate. cbv zeta.
  pose proof (Hactive active _ (Hname name t H)).
  case_match; inv_ok.
Qed.

Lemma Inv_onmessage data t : Inv t → Inv (onmessage data t).
Proof.
  intros H. destruct data as [[active id name|assetPath url|phase|]|]; cbn.
  - by apply Inv_handleHistoricStateUpdate.
  - by apply Inv_handleLocalAssetUrl.
  - by apply Inv_handlePhaseChange.
  - done.
  - inv_ok.
Qed.

Hypothesis Hopen : ∀ s,
  Inv s → bridgeSocket s = Some CONNECTING → Inv (onopen (set_bridgeSocket (Some OPEN) s)).
Hypothesis Hclosing : ∀ s,
  Inv s → bridgeSocket s = Some CONNECTING ∨ bridgeSocket s = Some OPEN →
  Inv (set_bridgeSocket (Some CLOSING) s).
Hypothesis Hclose : ∀ s,
  Inv s → is_Some (bridgeSocket s) → Inv (onclose (set_bridgeSocket (Some CLOSED) s)).
Hypothesis Hpage : ∀ b es s,
  Inv s → Inv (set_document (mkDocument b es (popup (document s))) s).
(** A timer that fires: the synchronizer's callbacks run on the state
    without the timer; the two others are taken with their callback. *)
Hypothesis Hfire : ∀ id tm s,
  Inv s → List.find (fun t => Nat.eqb (timerId t) id) (timers s) = Some tm →
  match callback tm with
  | CbUpdateFlag | CbRetryFlag => Inv (clearTimeout id s)
  | cb => Inv (runCallback cb (clearTimeout id s))
  end.

Lemma Inv_step s e : Inv s → Inv (step s e).
Proof.
  intros H. destruct e as [| | | |data|id|b es|es|]; cbn [step].
  - destruct (bridgeSocket s) as [[]|] eqn:Hs; try done. by apply Hopen.
  - case_match; [|done]. unfold onerror. inv_ok.
  - destruct (bridgeSocket s) as [[]|] eqn:Hs; try done; apply Hclosing; auto.
  - destruct (bridgeSocket s) eqn:Hs; [|done]. apply Hclose; [done | by rewrite Hs].
  - by apply Inv_onmessage.
  - unfold fireTimer. destruct (List.find _ _) as [tm|] eqn:Hfind; [|done].
    pose proof (Hfire id tm s H Hfind) as Hf.
    destruct (callback tm); cbn [runCallback] in *.
    + by apply Inv_updateHistoricFlag.
    + by apply Inv_retryFlag.
    + done.
    + done.
  - by apply Inv_onmutation, Hpage.
  - by apply Hpage.
  - by apply Hremove.
Qed.

End Invariant.

(** ** Bridge Client: the log stream *)















(** ** The asset request, over the whole session *)

Lemma resolved_keeps s t : Keeps assetView s t → resolved s → resolved t.
Proof. unfold Keeps, assetView, resolved. by intros [= -> _]. Qed.

Lemma resolved_url s t : Keeps historicFlagImageUrl s t → resolved s → resolved t.
Proof. unfold Keeps, resolved. by intros ->. Qed.

Lemma requestsEmitted_IgnApplied : IgnApplied requestsEmitted.
Proof. intros level s. apply requestsEmitted_log. Qed.

Lemma settle_resolved element s t :
  resolved t → Keeps requestsEmitted s t → Keeps requestsEmitted s (settle element t).
Proof.
  intros Hres H. unfold settle, resolved in *.
  pose proof requestsEmitted_IgnLog. pose proof requestsEmitted_IgnApplied.
  destruct (historicFlagImageUrl t) as [url|]; [|done]. cbn in Hres. rewrite Hres.
  case_match; cbv zeta; keeps.
Qed.

(** The message that delivers the URL produces no request. *)
Lemma resolving_step s e :
  resolving e = true →
  requestsEmitted (step s e) = requestsEmitted s ∧ resolved (step s e).
Proof.
  destruct e as [| | | |[[active id name|assetPath url|phase|]|]| | | |]; try done.
  cbn [resolving step onmessage handleBridgeMessage]. intros Hres. split.
  - unfold handleLocalAssetUrl. unfold resolves in Hres.
    destruct assetPath as [path|], url as [u|]; try done. rewrite Hres. cbv zeta.
    apply andb_prop in Hres as [_ Hu].
    pose proof requestsEmitted_IgnLog.
    match goal with |- requestsEmitted ?t = _ => change (Keeps requestsEmitted s t) end.
    case_match; [|keeps].
    apply (Keeps_updateHistoricFlag_if requestsEmitted resolved);
      first [ ignores | apply resolved_keeps | apply settle_resolved | idtac ].
    + apply (resolved_url (set_historicFlagImageUrl (Some u) s)); [keeps; ignores|].
      exact Hu.
    + keeps.
  - unfold resolved. rewrite handleLocalAssetUrl_url, Hres.
    unfold resolves in Hres. destruct assetPath, url; try done.
    by apply andb_prop in Hres as [_ Hu].
Qed.

Lemma resolved_step s e :
  resolved s → requestsEmitted (step s e) = requestsEmitted s ∧ resolved (step s e).
Proof.
  intros Hres. destruct (resolving e) eqn:He; [by apply resolving_step|].
  pose proof requestsEmitted_IgnLog as Hl.
  assert (Keeps historicFlagImageUrl s (step s e) →
          requestsEmitted (step s e) = requestsEmitted s →
          requestsEmitted (step s e) = requestsEmitted s ∧ resolved (step s e)) as Hboth.
  { intros Ha Hr. split; [done | by apply (resolved_url s)]. }
  destruct e as [| | | |[[active id name|assetPath url|phase|]|]| | | |];
    try (apply Hboth;
         [ apply Keeps_step_other; first [ignores | done]
         | apply (Keeps_step_other_if requestsEmitted resolved);
           first [ done | ignores | apply resolved_keeps | apply settle_resolved
                 | intros s' t' Hk; unfold Keeps in *; by rewrite requestsEmitted_flush ] ]).
  - apply Hboth; apply Keeps_handleHistoricStateUpdate; ignores.
  - cbn in *. by rewrite handleLocalAssetUrl_ignored.
  - apply Hboth; apply Keeps_handlePhaseChange; ignores.
  - done.
  - apply Hboth; cbn [step onmessage]; [keeps | apply requestsEmitted_log].
Qed.

(** X9: over the whole session exactly one request-local-asset frame is
    produced, whatever is received and whenever: the one of [init].  At
    any time the URL is either still unset with that request marked
    pending, or set to a non-empty string. *)
Theorem single_asset_request body0 elements0 events :
  let s := run (init body0 elements0) events in
  requestsEmitted s = 1 ∧ (awaitingAsset s ∨ resolved s).
Proof.
  cbv zeta. induction events as [|e events IH] using rev_ind.
  - destruct (init_awaiting body0 elements0) as (Hw & Hreq & _). split; [done | by left].
  - rewrite run_snoc. destruct IH as [Hreq Hstate].
    destruct (resolving e) eqn:He.
    + destruct (resolving_step (run (init body0 elements0) events) e He) as [-> Hres].
      split; [done | by right].
    + destruct Hstate as [Hw|Hres].
      * pose proof (step_awaiting _ e Hw He) as Hk.
        split.
        -- unfold Keeps, awaitView in Hk. injection Hk as _ _ -> _. done.
        -- left. apply (awaiting_keeps (run (init body0 elements0) events)); [|done].
           unfold Keeps, awaitView, assetView in *. congruence.
      * destruct (resolved_step _ e Hres) as [-> Hres']. split; [done | by right].
Qed.

(** ** View Synchronizer: the retry counter and the remembered element *)

Lemma bounded_keeps s t :
  Keeps retryCount s t → (retriesUsed s ≤ 5)%nat → (retriesUsed t ≤ 5)%nat.
Proof. unfold Keeps, retriesUsed. by intros ->. Qed.

Lemma bounded_step s e : (retriesUsed s ≤ 5)%nat → (retriesUsed (step s e) ≤ 5)%nat.
Proof.
  apply (Inv_step (λ s, (retriesUsed s ≤ 5)%nat)); clear s e.
  - intros level message t H. unfold retriesUsed.
    by rewrite (log_view retryCount) by ignores.
  - intros t H. eapply bounded_keeps; [|exact H]. keeps.
  - intros ms t H. eapply bounded_keeps; [|exact H]. keeps.
  - intros ms t H. eapply bounded_keeps; [|exact H]. keeps.
  - intros n t Hn _. exact Hn.
  - intros v t H. eapply bounded_keeps; [|exact H]. keeps.
  - intros id t H. eapply bounded_keeps; [|exact H]. keeps.
  - intros url id t H. eapply bounded_keeps; [|exact H]. keeps.
  - intros t H. eapply bounded_keeps; [|exact H]. keeps.
  - intros v t H. eapply bounded_keeps; [|exact H]. keeps.
  - intros v t H. eapply bounded_keeps; [|exact H]. keeps.
  - intros v t H. eapply bounded_keeps; [|exact H]. keeps.
  - intros v t H. eapply bounded_keeps; [|exact H]. keeps.
  - intros name t H. eapply bounded_keeps; [|exact H]. keeps.
  - intros s H _. eapply bounded_keeps; [|exact H]. unfold onopen. cbv zeta. keeps.
  - intros s H _. eapply bounded_keeps; [|exact H]. keeps.
  - intros s H _. eapply bounded_keeps; [|exact H].
    unfold onclose, scheduleBridgeRetry. cbv zeta. keeps.
  - intros b es s H. eapply bounded_keeps; [|exact H]. keeps.
  - intros id tm s H _.
    destruct (callback tm); cbn [runCallback];
      repeat case_match; (eapply bounded_keeps; [|exact H]); keeps.
Qed.

(** X11: the retry counter never exceeds 5, whatever the triggers and
    however they interleave with the retry timers. *)
Theorem retry_counter_bounded body0 elements0 events :
  (retriesUsed (run (init body0 elements0) events) ≤ 5)%nat.
Proof.
  induction events as [|e events IH] using rev_ind.
  - vm_compute. lia.
  - rewrite run_snoc. by apply bounded_step.
Qed.

Lemma handlePhaseChange_leave phase s :
  isInChampSelect s = true → isTargetPhase phase = false →
  currentRewardsElement (handlePhaseChange phase s) = None.
Proof.
  intros Hin Hphase. unfold handlePhaseChange. cbv zeta.
  change (isInChampSelect (set_isInChampSelect (isTargetPhase phase) s))
    with (isTargetPhase phase).
  rewrite Hphase, Hin. cbn [negb andb].
  match goal with
  | |- currentRewardsElement (match retryCount ?t with _ => _ end) = None =>
      assert (currentRewardsElement t = None) as Ht; [|revert Ht; generalize t]
  end.
  - match goal with
    | |- currentRewardsElement (match currentRewardsElement ?u with _ => _ end) = None =>
        destruct (currentRewardsElement u) eqn:Hc; [done | exact Hc]
    end.
  - intros t Ht. by repeat case_match.
Qed.

Lemma forgetful_step s e : forgetful s → forgetful (step s e).
Proof.
  unfold forgetful. intros Hidle Hout'.
  destruct (isInChampSelect s) eqn:Hin.
  - rewrite step_phase in Hout'.
    destruct e as [| | | |[[| |phase|]|]| | | |]; try congruence.
    cbn. by apply handlePhaseChange_leave.
  - specialize (Hidle eq_refl).
    rewrite (step_outside currentRewardsElement); try ignores; try done.
    by destruct e.
Qed.

(** X12: while the phase flag is false no rewards element is remembered:
    the reference taken during champion select is dropped when the phase
    is left and none is taken before it is entered again. *)
Theorem no_element_outside_phase body0 elements0 events :
  let s := run (init body0 elements0) events in
  isInChampSelect s = false → currentRewardsElement s = None.
Proof.
  cbv zeta. induction events as [|e events IH] using rev_ind.
  - done.
  - rewrite run_snoc. by apply forgetful_step.
Qed.

Lemma no_element_outside_phase_witness :
  currentRewardsElement
    (run (init pageBody pageElements)
         (scenarioEvents ++ [EvMessage (Some (PhaseChange "None"))])) = None.
Proof.
  apply (no_element_outside_phase pageBody pageElements
           (scenarioEvents ++ [EvMessage (Some (PhaseChange "None"))])).
  vm_compute. reflexivity.
Defined.

(** ** Timers: reconnection and label expiry *)

Section Schedule.

Implicit Types (l : list Timer) (P : Timer → bool) (id : nat) (tm : Timer).

Lemma elem_of_List_filter P l (x : Timer) : x ∈ List.filter P l ↔ x ∈ l ∧ P x = true.
Proof. rewrite !list_elem_of_In. apply List.filter_In. Qed.

Lemma filter_nil_iff P l : List.filter P l = [] ↔ ∀ x, x ∈ l → P x = false.
Proof.
  induction l as [|y l IH]; cbn.
  - split; [intros _ x Hx; by apply elem_of_nil in Hx | done].
  - destruct (P y) eqn:Hy.
    + split; [done|]. intros H. specialize (H y (list_elem_of_here _ _)). congruence.
    + rewrite IH. split.
      * intros H x [->|Hx]%elem_of_cons; auto.
      * intros H x Hx. apply H. by apply list_elem_of_further.
Qed.

Lemma filter_filter_same P Q l :
  (∀ x, x ∈ l → P x = true → Q x = true) →
  List.filter P (List.filter Q l) = List.filter P l.
Proof.
  induction l as [|y l IH]; intros H; cbn; [done|].
  assert (List.filter P (List.filter Q l) = List.filter P l) as IH'.
  { apply IH. intros x Hx. apply H. by apply list_elem_of_further. }
  destruct (Q y) eqn:HQ; cbn.
  - by rewrite IH'.
  - destruct (P y) eqn:HP; [|done].
    rewrite (H y (list_elem_of_here _ _) HP) in HQ. done.
Qed.

Lemma NoDup_ids_filter P l :
  NoDup (map timerId l) → NoDup (map timerId (List.filter P l)).
Proof.
  induction l as [|y l IH]; cbn; [done|]. intros [Hy Hl]%NoDup_cons.
  destruct (P y); cbn; [|by apply IH].
  apply NoDup_cons. split; [|by apply IH].
  intros (x & Hid & [Hx _]%elem_of_List_filter)%list_elem_of_fmap.
  apply Hy. apply list_elem_of_fmap. by exists x.
Qed.

Lemma NoDup_ids_eq l (x y : Timer) :
  NoDup (map timerId l) → x ∈ l → y ∈ l → timerId x = timerId y → x = y.
Proof.
  induction l as [|z l IH]; cbn; [by intros _ ?%elem_of_nil|].
  intros [Hz Hl]%NoDup_cons [->|Hx]%elem_of_cons [->|Hy]%elem_of_cons Hid; auto.
  - destruct Hz. apply list_elem_of_fmap. by exists y.
  - destruct Hz. apply list_elem_of_fmap. by exists x.
Qed.

(** Cancelling a timer does not change the timers selected by [P] when
    the timer is not one of them. *)
Lemma filter_cancel_other P l tm :
  NoDup (map timerId l) → tm ∈ l → P tm = false →
  List.filter P (List.filter (notId (timerId tm)) l) = List.filter P l.
Proof.
  intros Hnd Htm HP. apply filter_filter_same. intros x Hx HPx.
  unfold notId. apply negb_true_iff, Nat.eqb_neq. intros Hid.
  assert (x = tm) as -> by (by apply (NoDup_ids_eq l)). congruence.
Qed.

(** Cancelling the only timer selected by [P] leaves none. *)
Lemma filter_cancel_own P l tm :
  List.filter P l = [tm] →
  List.filter P (List.filter (notId (timerId tm)) l) = [].
Proof.
  intros Hone. apply filter_nil_iff. intros x [Hx Hne]%elem_of_List_filter.
  destruct (P x) eqn:HP; [|done].
  assert (x ∈ List.filter P l) as Hin by (by apply elem_of_List_filter).
  rewrite Hone in Hin. apply list_elem_of_singleton in Hin as ->.
  unfold notId in Hne. by rewrite Nat.eqb_refl in Hne.
Qed.

Lemma find_timer id l tm :
  List.find (fun t => Nat.eqb (timerId t) id) l = Some tm → tm ∈ l ∧ timerId tm = id.
Proof.
  intros [Hin Hid]%List.find_some. split; [by apply list_elem_of_In|].
  by apply Nat.eqb_eq.
Qed.

End Schedule.
Lemma scheduled_keeps s t : Keeps scheduleView s t → scheduled s → scheduled t.
Proof.
  unfold Keeps, scheduleView, scheduled, timersDistinct, timersFresh, connectionOk,
    labelOk, reconnects, labelExpiry.
  by intros [= -> -> -> -> -> ->].
Qed.

Lemma timers_setTimeout cb ms t :
  timers (setTimeout cb ms t) = timers t ++ [mkTimer (nextTimer t) ms cb].
Proof. reflexivity. Qed.

Lemma timers_clearTimeout id t :
  timers (clearTimeout id t) = List.filter (notId id) (timers t).
Proof. reflexivity. Qed.

Lemma distinct_setTimeout cb ms t : timersDistinct t → timersDistinct (setTimeout cb ms t).
Proof.
  intros [Hf Hnd]. split; [by apply fresh_setTimeout|].
  rewrite timers_setTimeout, map_app. cbn. apply NoDup_app. split; [done|]. split.
  - intros id (x & -> & Hx)%list_elem_of_fmap Hid. apply list_elem_of_singleton in Hid.
    unfold timersFresh in Hf. rewrite Forall_forall in Hf. specialize (Hf x Hx). lia.
  - apply NoDup_singleton.
Qed.

Lemma distinct_clearTimeout id t : timersDistinct t → timersDistinct (clearTimeout id t).
Proof.
  intros [Hf Hnd]. split; [by apply fresh_clearTimeout|].
  rewrite timers_clearTimeout. by apply NoDup_ids_filter.
Qed.

(** Scheduling a timer that is neither a reconnection nor an expiry. *)
Lemma scheduled_setTimeout cb ms t :
  cb = CbUpdateFlag ∨ cb = CbRetryFlag → scheduled t → scheduled (setTimeout cb ms t).
Proof.
  intros Hcb (Hd & [Hready Hconn] & [Hserial Hlabel]).
  assert (isReconnect (mkTimer (nextTimer t) ms cb) = false) as Hrec
    by (by destruct Hcb as [-> | ->]).
  assert (∀ k, expiresLabel k (mkTimer (nextTimer t) ms cb) = false) as Hexp
    by (by destruct Hcb as [-> | ->]).
  split; [by apply distinct_setTimeout|]. split; [split|split].
  - exact Hready.
  - change (bridgeSocket (setTimeout cb ms t)) with (bridgeSocket t).
    unfold reconnects in *. rewrite timers_setTimeout, List.filter_app. cbn.
    rewrite Hrec, app_nil_r. exact Hconn.
  - rewrite timers_setTimeout. apply Forall_app. split; [exact Hserial|].
    constructor; [|constructor]. intros k Hk. cbn in Hk. destruct Hcb; congruence.
  - change (popupOf (setTimeout cb ms t)) with (popupOf t).
    destruct (popupOf t) as [p|]; [|done].
    unfold labelExpiry in *. rewrite timers_setTimeout, List.filter_app. cbn.
    rewrite Hexp, app_nil_r. exact Hlabel.
Qed.

Lemma scheduled_removePopup t : scheduled t → scheduled (removePopup t).
Proof.
  intros (Hd & Hconn & [Hserial Hlabel]). split; [exact Hd|]. split; [exact Hconn|].
  split; [exact Hserial | done].
Qed.

Lemma scheduled_remove t : scheduled t → scheduled (removeHistoricSkinName t).
Proof.
  intros H. unfold removeHistoricSkinName. case_match; [by apply scheduled_removePopup | done].
Qed.

(** Cancelling a timer that is neither a reconnection nor the expiry of
    the label shown. *)
Lemma scheduled_cancel tm t :
  scheduled t → tm ∈ timers t → isReconnect tm = false →
  (∀ p, popupOf t = Some p → expiresLabel (popupSerial p) tm = false) →
  scheduled (clearTimeout (timerId tm) t).
Proof.
  intros (Hd & [Hready Hconn] & [Hserial Hlabel]) Hin Hrec Hexp.
  pose proof Hd as [_ Hnd].
  split; [by apply distinct_clearTimeout|]. split; [split|split].
  - exact Hready.
  - change (bridgeSocket (clearTimeout (timerId tm) t)) with (bridgeSocket t).
    unfold reconnects in *. rewrite timers_clearTimeout.
    by rewrite filter_cancel_other.
  - rewrite timers_clearTimeout. rewrite Forall_forall in *.
    intros x [Hx _]%elem_of_List_filter. by apply Hserial.
  - change (popupOf (clearTimeout (timerId tm) t)) with (popupOf t).
    destruct (popupOf t) as [p|] eqn:Hp; [|done].
    unfold labelExpiry in *. rewrite timers_clearTimeout.
    rewrite filter_cancel_other; auto.
Qed.

Lemma scheduled_showSkinName name t : scheduled t → scheduled (showSkinName name t).
Proof.
  intros (Hd & [Hready Hconn] & [Hserial Hlabel]). pose proof Hd as [Hfresh Hnd].
  unfold showSkinName. fold (popupOf t). destruct (popupOf t) as [p|] eqn:Hp.
  - destruct Hlabel as (Hlt & id & Hid & Hone).
    set (old := mkTimer id 125000%Z (CbPopupExpire (popupSerial p))) in *.
    assert (old ∈ timers t) as Hold.
    { assert (old ∈ labelExpiry (popupSerial p) t) as Hin
        by (rewrite Hone; apply list_elem_of_here).
      by apply elem_of_List_filter in Hin as [? _]. }
    unfold resetTimer. cbn [popupTimer popupSerial popupText]. rewrite Hid. cbv zeta.
    change id with (timerId old).
    set (t1 := clearTimeout (timerId old) t).
    assert (timersDistinct t1) as Hd1 by (by apply distinct_clearTimeout).
    split; [|split; [split|split]].
    + by apply distinct_setTimeout.
    + exact Hready.
    + change (bridgeSocket t) with (bridgeSocket t) in Hconn.
      assert (reconnects (setTimeout (CbPopupExpire (popupSerial p)) 125000%Z t1)
              = reconnects t) as Hsame.
      { unfold reconnects. rewrite timers_setTimeout, List.filter_app. cbn.
        rewrite app_nil_r. by apply (filter_cancel_other isReconnect (timers t) old). }
      unfold reconnects in *. cbn [timers set_document bridgeSocket] in *.
      rewrite Hsame. exact Hconn.
    + cbn [timers set_document nextSerial].
      rewrite timers_setTimeout. apply Forall_app. split.
      * unfold t1. rewrite timers_clearTimeout. rewrite Forall_forall in *.
        intros x [Hx _]%elem_of_List_filter. by apply Hserial.
      * constructor; [|constructor]. intros k [= <-]. exact Hlt.
    + unfold popupOf. cbn [document set_document popup setPopup popupSerial popupTimer].
      split; [exact Hlt|]. exists (nextTimer t1). split; [done|].
      unfold labelExpiry. cbn [timers set_document].
      rewrite timers_setTimeout, List.filter_app.
      unfold t1. rewrite timers_clearTimeout.
      rewrite (filter_cancel_own _ _ old Hone). cbn. by rewrite Nat.eqb_refl.
  - unfold resetTimer. cbn [popupTimer popupSerial popupText]. cbv zeta.
    set (t1 := set_nextSerial (S (nextSerial t)) t).
    assert (List.filter (expiresLabel (nextSerial t)) (timers t) = []) as Hnone.
    { apply filter_nil_iff. intros x Hx. unfold expiresLabel.
      destruct (callback x) as [| | |k] eqn:Hcb; try done.
      rewrite Forall_forall in Hserial. specialize (Hserial x Hx k Hcb).
      apply Nat.eqb_neq. lia. }
    split; [|split; [split|split]].
    + by apply (distinct_setTimeout _ _ t1).
    + exact Hready.
    + unfold reconnects in *. cbn [timers set_document bridgeSocket].
      rewrite timers_setTimeout, List.filter_app. cbn. rewrite app_nil_r. exact Hconn.
    + cbn [timers set_document nextSerial]. rewrite timers_setTimeout.
      apply Forall_app. split.
      * eapply Forall_impl; [exact Hserial|]. cbn. intros x Hx k Hk.
        specialize (Hx k Hk). lia.
      * constructor; [|constructor]. intros k [= <-]. cbn. lia.
    + unfold popupOf. cbn [document set_document popup setPopup popupSerial popupTimer].
      split; [cbn; lia|]. exists (nextTimer t1). split; [done|].
      unfold labelExpiry. cbn [timers set_document].
      rewrite timers_setTimeout, List.filter_app.
      change (timers t1) with (timers t). rewrite Hnone. cbn. by rewrite Nat.eqb_refl.
Qed.

Lemma scheduled_skinName name t :
  scheduled t → scheduled (handleHistoricSkinNameUpdate name t).
Proof.
  intros H. unfold handleHistoricSkinNameUpdate.
  repeat case_match; first [by apply scheduled_showSkinName | by apply scheduled_remove].
Qed.

(** A change of the socket that keeps one, with the timers as they are. *)
Lemma scheduled_socket s t :
  Keeps timersPopupView s t → scheduled s →
  is_Some (bridgeSocket s) → is_Some (bridgeSocket t) →
  scheduled t.
Proof.
  unfold Keeps, timersPopupView.
  intros [= Ht Hn Hs Hp] (Hd & [Hready Hconn] & Hlabel) [x Hx] [y Hy].
  split; [|split; [split|]].
  - unfold timersDistinct, timersFresh in *. by rewrite Ht, Hn.
  - intros _. by rewrite Hy.
  - rewrite Hx in Hconn. rewrite Hy. unfold reconnects in *. by rewrite Ht.
  - unfold labelOk, labelExpiry in *. by rewrite Ht, Hs, Hp.
Qed.

Lemma bridgeSocket_flush t : bridgeSocket (flushBridgeQueue t) = bridgeSocket t.
Proof. unfold flushBridgeQueue. by repeat case_match. Qed.

Lemma scheduled_open s :
  scheduled s → bridgeSocket s = Some CONNECTING →
  scheduled (onopen (set_bridgeSocket (Some OPEN) s)).
Proof.
  intros H Hs. apply (scheduled_socket s); [|done|by rewrite Hs|].
  - unfold onopen. cbv zeta. keeps.
  - unfold onopen. cbv zeta. rewrite bridgeSocket_flush.
    cbn [bridgeSocket set_bridgeReady]. by rewrite (log_view bridgeSocket) by ignores.
Qed.

Lemma scheduled_closing s :
  scheduled s → bridgeSocket s = Some CONNECTING ∨ bridgeSocket s = Some OPEN →
  scheduled (set_bridgeSocket (Some CLOSING) s).
Proof.
  intros H Hs. apply (scheduled_socket s); [keeps|done| |done].
  destruct Hs as [-> | ->]; done.
Qed.

Lemma scheduled_close s :
  scheduled s → is_Some (bridgeSocket s) →
  scheduled (onclose (set_bridgeSocket (Some CLOSED) s)).
Proof.
  intros (Hd & [Hready Hconn] & [Hserial Hlabel]) [x Hx]. rewrite Hx in Hconn.
  unfold onclose, scheduleBridgeRetry. cbv zeta.
  set (u := set_bridgeSocket None _).
  assert (Keeps timersPopupView s u) as Hk by (unfold u; keeps).
  assert (bridgeReady u = false) as Hru by reflexivity.
  assert (bridgeSocket u = None) as Hsu by reflexivity.
  clearbody u. unfold Keeps, timersPopupView in Hk. injection Hk as Ht Hn Hsn Hp.
  assert (timersDistinct u) as Hdu.
  { unfold timersDistinct, timersFresh in *. by rewrite Ht, Hn. }
  split; [by apply distinct_setTimeout|]. split; [split|split].
  - change (bridgeReady (setTimeout CbBridgeRetry 3000 u)) with (bridgeReady u).
    by rewrite Hru.
  - change (bridgeSocket (setTimeout CbBridgeRetry 3000 u)) with (bridgeSocket u).
    rewrite Hsu. exists (nextTimer u). unfold reconnects in *.
    rewrite timers_setTimeout, List.filter_app, Ht, Hconn. reflexivity.
  - change (nextSerial (setTimeout CbBridgeRetry 3000 u)) with (nextSerial u).
    rewrite timers_setTimeout, Ht, Hsn. apply Forall_app. split; [done|].
    constructor; [|constructor]. intros k [=].
  - change (popupOf (setTimeout CbBridgeRetry 3000 u)) with (popupOf u).
    change (nextSerial (setTimeout CbBridgeRetry 3000 u)) with (nextSerial u).
    rewrite Hp, Hsn. destruct (popupOf s) as [p|]; [|done].
    unfold labelExpiry in *. rewrite timers_setTimeout, List.filter_app, Ht. cbn.
    by rewrite app_nil_r.
Qed.

(** The reconnection timer fires: it is the only one, and the socket it
    creates takes its place. *)
Lemma scheduled_reconnect tm s :
  scheduled s → tm ∈ timers s → callback tm = CbBridgeRetry →
  scheduled (runCallback CbBridgeRetry (clearTimeout (timerId tm) s)).
Proof.
  intros (Hd & [Hready Hconn] & [Hserial Hlabel]) Hin Hcb. pose proof Hd as [_ Hnd].
  assert (isReconnect tm = true) as Hrec by (unfold isReconnect; by rewrite Hcb).
  assert (tm ∈ reconnects s) as Hpending by (by apply elem_of_List_filter).
  destruct (bridgeSocket s) as [x|] eqn:Hs;
    [rewrite Hconn in Hpending; by apply elem_of_nil in Hpending|].
  destruct Hconn as [id Hone]. rewrite Hone in Hpending.
  apply list_elem_of_singleton in Hpending. rewrite <- Hpending in Hone.
  assert (bridgeReady s = false) as Hr.
  { destruct (bridgeReady s); [|done]. by destruct (Hready eq_refl). }
  cbn [runCallback].
  change (bridgeReady (clearTimeout (timerId tm) s)) with (bridgeReady s).
  rewrite Hr. cbn [negb]. unfold setupBridgeSocket.
  change (bridgeSocket (clearTimeout (timerId tm) s)) with (bridgeSocket s). rewrite Hs.
  split; [by apply distinct_clearTimeout|]. split; [split|split].
  - intros _. by eexists.
  - cbn [bridgeSocket set_bridgeSocket]. unfold reconnects in *.
    change (timers (set_bridgeSocket ?v ?t)) with (timers t).
    rewrite timers_clearTimeout. by apply filter_cancel_own.
  - change (timers (set_bridgeSocket ?v ?t)) with (timers t).
    rewrite timers_clearTimeout. rewrite Forall_forall in *.
    intros y [Hy _]%elem_of_List_filter. by apply Hserial.
  - change (popupOf (set_bridgeSocket ?v (clearTimeout ?i ?t))) with (popupOf t).
    destruct (popupOf s) as [p|]; [|done]. unfold labelExpiry in *.
    change (timers (set_bridgeSocket ?v ?t)) with (timers t).
    rewrite timers_clearTimeout, filter_cancel_other; auto.
    unfold expiresLabel. by rewrite Hcb.
Qed.

(** An expiry timer fires: it removes the label it belongs to, and no
    other. *)
Lemma scheduled_expire tm k s :
  scheduled s → tm ∈ timers s → callback tm = CbPopupExpire k →
  scheduled (runCallback (CbPopupExpire k) (clearTimeout (timerId tm) s)).
Proof.
  intros H Hin Hcb. pose proof H as (Hd & Hconn & [Hserial Hlabel]).
  assert (isReconnect tm = false) as Hrec by (unfold isReconnect; by rewrite Hcb).
  cbn [runCallback].
  change (popup (document (clearTimeout (timerId tm) s))) with (popupOf s).
  destruct (popupOf s) as [p|] eqn:Hp.
  - destruct (Nat.eqb (popupSerial p) k) eqn:Hk.
    + destruct Hconn as [Hready Hconn]. pose proof Hd as [_ Hnd].
      split; [by apply distinct_clearTimeout|]. split; [split|split].
      * exact Hready.
      * change (bridgeSocket (removePopup (clearTimeout ?i ?t))) with (bridgeSocket t).
        unfold reconnects in *.
        change (timers (removePopup ?t)) with (timers t).
        rewrite timers_clearTimeout. by rewrite filter_cancel_other.
      * change (timers (removePopup ?t)) with (timers t).
        rewrite timers_clearTimeout. rewrite Forall_forall in *.
        intros y [Hy _]%elem_of_List_filter. by apply Hserial.
      * done.
    + apply scheduled_cancel; try done. intros q Hq.
      rewrite Hp in Hq. injection Hq as <-. unfold expiresLabel. rewrite Hcb.
      apply Nat.eqb_neq. apply Nat.eqb_neq in Hk. congruence.
  - apply scheduled_cancel; try done. intros q Hq. congruence.
Qed.

Lemma scheduled_step s e : scheduled s → scheduled (step s e).
Proof.
  apply (Inv_step scheduled); clear s e.
  - intros level message t H. apply (scheduled_keeps t); [|done].
    unfold Keeps. by rewrite (log_view scheduleView) by ignores.
  - intros t H. apply (scheduled_keeps t); [keeps | done].
  - intros ms t H. apply scheduled_setTimeout; auto.
  - intros ms t H. apply scheduled_setTimeout; auto.
  - intros n t _ H. apply (scheduled_keeps t); [keeps | done].
  - intros v t H. apply (scheduled_keeps t); [keeps | done].
  - intros id t H. apply (scheduled_keeps t); [keeps | done].
  - intros url id t H. apply (scheduled_keeps t); [keeps | done].
  - intros t H. by apply scheduled_remove.
  - intros v t H. apply (scheduled_keeps t); [keeps | done].
  - intros v t H. apply (scheduled_keeps t); [keeps | done].
  - intros v t H. apply (scheduled_keeps t); [keeps | done].
  - intros v t H. apply (scheduled_keeps t); [keeps | done].
  - intros name t H. by apply scheduled_skinName.
  - intros s H Hs. by apply scheduled_open.
  - intros s H Hs. by apply scheduled_closing.
  - intros s H Hs. by apply scheduled_close.
  - intros b es s H. apply (scheduled_keeps s); [keeps | done].
  - intros id tm s H [Hin <-]%find_timer.
    destruct (callback tm) as [| | |k] eqn:Hcb.
    + apply scheduled_cancel; try done; [unfold isReconnect | intros p _; unfold expiresLabel];
        by rewrite Hcb.
    + apply scheduled_cancel; try done; [unfold isReconnect | intros p _; unfold expiresLabel];
        by rewrite Hcb.
    + by apply scheduled_reconnect.
    + by apply scheduled_expire.
Qed.

Lemma scheduled_init body0 elements0 : scheduled (init body0 elements0).
Proof.
  split; [split|split; [split|split]].
  - apply fresh_init.
  - vm_compute. constructor.
  - vm_compute. discriminate.
  - vm_compute. reflexivity.
  - vm_compute. constructor.
  - vm_compute. exact I.
Qed.

Lemma scheduled_run s events : scheduled s → scheduled (run s events).
Proof.
  revert s. induction events as [|e events IH]; intros s H; [done|].
  rewrite run_cons. by apply IH, scheduled_step.
Qed.

Lemma find_unique (l : list Timer) (tm : Timer) :
  NoDup (map timerId l) → tm ∈ l →
  List.find (fun t => Nat.eqb (timerId t) (timerId tm)) l = Some tm.
Proof.
  intros Hnd Hin.
  destruct (List.find _ l) as [x|] eqn:Hfind.
  - apply find_timer in Hfind as [Hx Hid]. f_equal. by apply (NoDup_ids_eq l).
  - apply List.find_none with (x := tm) in Hfind; [|by apply list_elem_of_In].
    by rewrite Nat.eqb_refl in Hfind.
Qed.

Lemma fireTimer_pending (tm : Timer) s :
  timersDistinct s → tm ∈ timers s →
  fireTimer (timerId tm) s = runCallback (callback tm) (clearTimeout (timerId tm) s).
Proof. intros [_ Hnd] Hin. unfold fireTimer. by rewrite find_unique. Qed.


(** X14: the label shown has exactly one pending expiry timer, of
    125000 ms, the one scheduled by its last update.  When that timer
    fires the label is removed; when any other pending expiry timer
    fires, one left behind by a label removed earlier, the label shown
    stays. *)
Theorem label_expiry_is_single body0 elements0 events (p : Popup) :
  let s := run (init body0 elements0) events in
  popupOf s = Some p →
  ∃ id, popupTimer p = Some id
    ∧ labelExpiry (popupSerial p) s
      = [mkTimer id 125000%Z (CbPopupExpire (popupSerial p))]
    ∧ popupOf (step s (EvTimer id)) = None
    ∧ ∀ tm k, tm ∈ timers s → callback tm = CbPopupExpire k → timerId tm ≠ id →
        popupOf (step s (EvTimer (timerId tm))) = Some p.
Proof.
  cbv zeta. set (s := run (init body0 elements0) events). intros Hp.
  assert (scheduled s) as Hs by apply scheduled_run, scheduled_init.
  pose proof Hs as (Hd & _ & [_ Hlabel]). rewrite Hp in Hlabel.
  destruct Hlabel as (_ & id & Hid & Hone). exists id. split; [done|]. split; [done|].
  set (own := mkTimer id 125000%Z (CbPopupExpire (popupSerial p))) in *.
  assert (own ∈ timers s) as Hown.
  { assert (own ∈ labelExpiry (popupSerial p) s) as Hin
      by (rewrite Hone; apply list_elem_of_here).
    by apply elem_of_List_filter in Hin as [? _]. }
  split.
  - cbn [step]. change id with (timerId own). rewrite fireTimer_pending by done.
    change (callback own) with (CbPopupExpire (popupSerial p)). cbn [runCallback].
    change (popup (document (clearTimeout (timerId own) s))) with (popupOf s).
    rewrite Hp, Nat.eqb_refl. reflexivity.
  - intros tm k Hin Hcb Hne. cbn [step]. rewrite fireTimer_pending by done.
    rewrite Hcb. cbn [runCallback].
    change (popup (document (clearTimeout (timerId tm) s))) with (popupOf s).
    rewrite Hp. destruct (Nat.eqb (popupSerial p) k) eqn:Hk; [|exact Hp].
    apply Nat.eqb_eq in Hk. exfalso. apply Hne.
    assert (tm ∈ labelExpiry (popupSerial p) s) as Hexp.
    { apply elem_of_List_filter. split; [done|]. unfold expiresLabel.
      rewrite Hcb. apply Nat.eqb_eq. done. }
    rewrite Hone in Hexp. by apply list_elem_of_singleton in Hexp as ->.
Qed.

Lemma label_expiry_is_single_witness :
  ∃ id, popupTimer (mkPopup 0 "Foo" (Some 1)) = Some id
    ∧ labelExpiry 0 labelShown = [mkTimer id 125000%Z (CbPopupExpire 0)]
    ∧ popupOf (step labelShown (EvTimer id)) = None
    ∧ ∀ tm k, tm ∈ timers labelShown → callback tm = CbPopupExpire k → timerId tm ≠ id →
        popupOf (step labelShown (EvTimer (timerId tm))) = Some (mkPopup 0 "Foo" (Some 1)).
Proof.
  apply (label_expiry_is_single [] ∅
           [ EvMessage (Some (PhaseChange "ChampSelect"));
             EvMessage (Some (HistoricState true 42 (Some "Foo"))) ]
           (mkPopup 0 "Foo" (Some 1))).
  vm_compute. reflexivity.
Defined.

(** ** View Synchronizer: finding the rewards element *)

Section Finding.

Implicit Types (d : Document) (t u : Tree) (sel : list string).

Lemma Tree_nested_ind (P : Tree → Prop) :
  (∀ i ks, Forall P ks → P (Node i ks)) → ∀ t, P t.
Proof.
  intros H.
  refine (fix IH (t : Tree) : P t :=
            match t with
            | Node i ks =>
                H i ks ((fix go (ks : list Tree) : Forall P ks :=
                           match ks with
                           | [] => Forall_nil_2 P
                           | k :: rest => Forall_cons_2 P k rest (IH k) (go rest)
                           end) ks)
            end).
Qed.

Lemma elem_of_List_flat_map {A B} (f : A → list B) (l : list A) (y : B) :
  y ∈ flat_map f l ↔ ∃ x, x ∈ l ∧ y ∈ f x.
Proof.
  rewrite list_elem_of_In, List.in_flat_map. split.
  - intros (x & Hx & Hy). exists x. by rewrite !list_elem_of_In.
  - intros (x & Hx & Hy). exists x. by rewrite <- !list_elem_of_In.
Qed.

Lemma subtrees_unfold t : subtrees t = t :: descendants t.
Proof. by destruct t. Qed.

Lemma subtrees_trans r t u : t ∈ subtrees r → u ∈ subtrees t → u ∈ subtrees r.
Proof.
  revert t u. induction r as [i ks IH] using Tree_nested_ind. intros t u Ht Hu.
  rewrite subtrees_unfold in Ht. apply elem_of_cons in Ht as [->|Ht]; [done|].
  unfold descendants in Ht. cbn [children] in Ht.
  apply elem_of_List_flat_map in Ht as (k & Hk & Ht).
  rewrite subtrees_unfold. apply list_elem_of_further.
  unfold descendants. cbn [children]. apply elem_of_List_flat_map. exists k. split; [done|].
  rewrite Forall_forall in IH. by apply (IH k Hk t).
Qed.

(** A descendant of a node of the document is a node of the document. *)
Lemma nodesOf_descendant d t u : t ∈ nodesOf d → u ∈ descendants t → u ∈ nodesOf d.
Proof.
  unfold nodesOf. intros (r & Hr & Ht)%elem_of_List_flat_map Hu.
  apply elem_of_List_flat_map. exists r. split; [done|].
  apply (subtrees_trans r t); [done|]. rewrite subtrees_unfold.
  by apply list_elem_of_further.
Qed.

Lemma head_filter_Some {A} (P : A → bool) (l : list A) (x : A) :
  head (List.filter P l) = Some x → x ∈ l ∧ P x = true.
Proof.
  intros Hx. assert (x ∈ List.filter P l) as Hin.
  { destruct (List.filter P l); [done|]. injection Hx as ->. apply list_elem_of_here. }
  rewrite list_elem_of_In in *. by apply List.filter_In in Hin.
Qed.

Lemma head_filter_None {A} (P : A → bool) (l : list A) (x : A) :
  head (List.filter P l) = None → x ∈ l → P x = false.
Proof.
  intros Hnone Hx. destruct (P x) eqn:HP; [|done].
  assert (x ∈ List.filter P l) as Hin
    by (rewrite list_elem_of_In in *; by apply List.filter_In).
  destruct (List.filter P l); [by apply elem_of_nil in Hin | done].
Qed.

Lemma querySelector_Some d sel t :
  querySelector d sel = Some t → t ∈ nodesOf d ∧ matchesSel d sel t = true.
Proof. apply head_filter_Some. Qed.

Lemma querySelectorIn_Some d sel node t :
  querySelectorIn d node sel = Some t → t ∈ descendants node ∧ matchesSel d sel t = true.
Proof. apply head_filter_Some. Qed.

Lemma matches_rewards d t :
  matchesSel d REWARDS_SELECTOR t = true ↔
  "skin-selection-item-information" ∈ classList (getElement d (nodeId t))
  ∧ "loyalty-reward-icon--rewards" ∈ classList (getElement d (nodeId t)).
Proof.
  unfold matchesSel, REWARDS_SELECTOR. cbn [forallb].
  rewrite !andb_true_iff, !bool_decide_eq_true. tauto.
Qed.

Lemma matches_info d t :
  matchesSel d SEL_INFO t = true ↔
  "skin-selection-item-information" ∈ classList (getElement d (nodeId t)).
Proof.
  unfold matchesSel, SEL_INFO. cbn [forallb].
  rewrite !andb_true_iff, !bool_decide_eq_true. tauto.
Qed.

(** What the scan of the carousel items returns is a rewards element
    below one of the items. *)
Lemma scanCarousel_Some d items info :
  scanCarousel d items = Some info →
  ∃ item, item ∈ items ∧ info ∈ descendants item
          ∧ matchesSel d REWARDS_SELECTOR info = true.
Proof.
  induction items as [|item items IH]; [done|]. rewrite scanCarousel_cons.
  destruct (querySelectorIn d item SEL_INFO) as [found|] eqn:Hq.
  - case_bool_decide as Hclass.
    + intros [= ->]. apply querySelectorIn_Some in Hq as [Hin Hm].
      exists item. split; [apply list_elem_of_here|]. split; [done|].
      apply matches_rewards. split; [by apply matches_info | done].
    + intros (x & Hx & H)%IH. exists x. split; [by apply list_elem_of_further | done].
  - intros (x & Hx & H)%IH. exists x. split; [by apply list_elem_of_further | done].
Qed.

(** When the direct selector finds nothing, neither does the scan of the
    carousel: what the scan could return is matched by the direct
    selector. *)
Lemma carousel_dead d :
  querySelector d REWARDS_SELECTOR = None →
  match querySelector d SEL_CAROUSEL with
  | Some carousel =>
      scanCarousel d (querySelectorAllIn d (descendants carousel) SEL_ITEM)
  | None => None
  end = None.
Proof.
  intros Hdirect. destruct (querySelector d SEL_CAROUSEL) as [carousel|] eqn:Hc; [|done].
  destruct (scanCarousel d _) as [info|] eqn:Hscan; [|done]. exfalso.
  apply querySelector_Some in Hc as [Hc _].
  apply scanCarousel_Some in Hscan as (item & Hitem & Hinfo & Hm).
  unfold querySelectorAllIn in Hitem. rewrite list_elem_of_In in Hitem.
  apply List.filter_In in Hitem as [Hitem _]. rewrite <- list_elem_of_In in Hitem.
  assert (info ∈ nodesOf d) as Hin.
  { apply (nodesOf_descendant d item); [|done]. by apply (nodesOf_descendant d carousel). }
  pose proof (head_filter_None _ _ info Hdirect Hin). congruence.
Qed.

(** The search, with the dead branch left out. *)
Lemma locateRewards_direct d :
  locateRewards d =
    match
      match querySelector d SEL_SELECTED_ITEM with
      | Some selectedItem => querySelectorIn d selectedItem REWARDS_SELECTOR
      | None => None
      end
    with
    | Some info => Some (nodeId info)
    | None => nodeId <$> querySelector d REWARDS_SELECTOR
    end.
Proof.
  unfold locateRewards. cbv zeta.
  assert (match querySelector d REWARDS_SELECTOR with
          | Some element => Some (nodeId element)
          | None =>
              match querySelector d SEL_CAROUSEL with
              | Some carousel =>
                  nodeId <$> scanCarousel d
                               (querySelectorAllIn d (descendants carousel) SEL_ITEM)
              | None => None
              end
          end = nodeId <$> querySelector d REWARDS_SELECTOR) as Hrest.
  { destruct (querySelector d REWARDS_SELECTOR) eqn:Hdirect; [done|].
    pose proof (carousel_dead d Hdirect) as Hdead.
    destruct (querySelector d SEL_CAROUSEL); [|done]. by rewrite Hdead. }
  destruct (querySelector d SEL_SELECTED_ITEM) as [selectedItem|]; [|exact Hrest].
  destruct (querySelectorIn d selectedItem REWARDS_SELECTOR); [done | exact Hrest].
Qed.

Lemma locateRewards_Some d element :
  locateRewards d = Some element →
  ∃ t, t ∈ nodesOf d ∧ nodeId t = element ∧ matchesSel d REWARDS_SELECTOR t = true.
Proof.
  rewrite locateRewards_direct.
  destruct (querySelector d SEL_SELECTED_ITEM) as [selectedItem|] eqn:Hsel.
  - destruct (querySelectorIn d selectedItem REWARDS_SELECTOR) as [info|] eqn:Hinfo.
    + intros [= <-]. apply querySelector_Some in Hsel as [Hsel _].
      apply querySelectorIn_Some in Hinfo as [Hinfo Hm].
      exists info. split; [by apply (nodesOf_descendant d selectedItem) | done].
    + destruct (querySelector d REWARDS_SELECTOR) as [t|] eqn:Hdirect; [|done].
      intros [= <-]. apply querySelector_Some in Hdirect as [? ?]. by exists t.
  - destruct (querySelector d REWARDS_SELECTOR) as [t|] eqn:Hdirect; [|done].
    intros [= <-]. apply querySelector_Some in Hdirect as [? ?]. by exists t.
Qed.

Lemma locateRewards_None d :
  locateRewards d = None ↔ querySelector d REWARDS_SELECTOR = None.
Proof.
  rewrite locateRewards_direct. split.
  - destruct (querySelector d REWARDS_SELECTOR) as [t|] eqn:Hdirect; [|done].
    by repeat case_match.
  - intros Hdirect. rewrite Hdirect.
    destruct (querySelector d SEL_SELECTED_ITEM) as [selectedItem|] eqn:Hsel; [|done].
    destruct (querySelectorIn d selectedItem REWARDS_SELECTOR) as [info|] eqn:Hinfo; [|done].
    exfalso. apply querySelector_Some in Hsel as [Hsel _].
    apply querySelectorIn_Some in Hinfo as [Hinfo Hm].
    assert (info ∈ nodesOf d) as Hin by (by apply (nodesOf_descendant d selectedItem)).
    pose proof (head_filter_None _ _ info Hdirect Hin). congruence.
Qed.

End Finding.

Lemma consoleCount_log (msg level message : string) s :
  consoleCount msg (log level message s)
    = consoleCount msg s + (if String.eqb message msg then 1 else 0).
Proof.
  unfold consoleCount. rewrite console_log, List.filter_app, length_app. cbn.
  by destruct (String.eqb message msg).
Qed.

(** X15: the element [findRewardsElement] returns is a node of the
    document that carries both classes of the rewards icon, and it is
    only returned while the phase flag is true. *)
Theorem found_element_is_rewards_icon s (element : nat) :
  fst (findRewardsElement s) = Some element →
  isInChampSelect s = true
  ∧ (∃ t, t ∈ nodesOf (document s) ∧ nodeId t = element)
  ∧ "skin-selection-item-information" ∈ classList (elementAt element s)
  ∧ "loyalty-reward-icon--rewards" ∈ classList (elementAt element s).
Proof.
  rewrite find_fst. destruct (isInChampSelect s); [|done]. intros Hloc.
  apply locateRewards_Some in Hloc as (t & Hin & <- & Hm).
  apply matches_rewards in Hm as [Hinfo Hrewards].
  split; [done|]. split; [by exists t|]. by split.
Qed.

Lemma found_element_is_rewards_icon_witness :
  "loyalty-reward-icon--rewards"
    ∈ classList (elementAt 2 (run (init pageBody pageElements) enteredChampSelect)).
Proof.
  apply (found_element_is_rewards_icon
           (run (init pageBody pageElements) enteredChampSelect) 2).
  vm_compute. reflexivity.
Defined.

(** X16: the scan of the carousel never finds anything: every element it
    could return is matched by the direct selector, which is tried first.
    So an element is found exactly when the phase flag is true and the
    document holds a node matching the rewards selector, and the log line
    of the carousel branch is never written. *)
Theorem carousel_scan_is_dead s :
  (fst (findRewardsElement s) = None
   ↔ isInChampSelect s = false ∨ querySelector (document s) REWARDS_SELECTOR = None)
  ∧ consoleCount CAROUSEL_MESSAGE (snd (findRewardsElement s))
    = consoleCount CAROUSEL_MESSAGE s.
Proof.
  split.
  - rewrite find_fst. destruct (isInChampSelect s).
    + rewrite locateRewards_None. split; [by right | by intros [|]].
    + split; [by left | done].
  - unfold findRewardsElement. destruct (isInChampSelect s); cbn [negb]; [|done].
    cbv zeta.
    assert (∀ t : State, consoleCount CAROUSEL_MESSAGE t = consoleCount CAROUSEL_MESSAGE s →
              consoleCount CAROUSEL_MESSAGE
                (snd (match querySelector (document s) REWARDS_SELECTOR with
                      | Some element =>
                          (Some (nodeId element),
                           log "debug" "Found rewards element via direct selector" s)
                      | None =>
                          match
                            match querySelector (document s) SEL_CAROUSEL with
                            | Some carousel =>
                                scanCarousel (document s)
                                  (querySelectorAllIn (document s)
                                     (descendants carousel) SEL_ITEM)
                            | None => None
                            end
                          with
                          | Some info =>
                              (Some (nodeId info),
                               log "debug" "Found rewards element in carousel item" s)
                          | None =>
                              (None,
                               removeHistoricSkinName
                                 (log "debug" "Rewards element not found anywhere" s))
                          end
                      end)) = consoleCount CAROUSEL_MESSAGE s) as Hrest.
    { intros _ _. destruct (querySelector (document s) REWARDS_SELECTOR) eqn:Hdirect.
      - cbn [snd]. rewrite consoleCount_log. cbn. lia.
      - rewrite (carousel_dead _ Hdirect). cbn [snd].
        assert (Keeps (consoleCount CAROUSEL_MESSAGE)
                  (log "debug" "Rewards element not found anywhere" s)
                  (removeHistoricSkinName
                     (log "debug" "Rewards element not found anywhere" s))) as ->
          by (keeps; ignores).
        rewrite consoleCount_log. cbn. lia. }
    destruct (querySelector (document s) SEL_SELECTED_ITEM) as [selectedItem|];
      [|by apply (Hrest s)].
    destruct (querySelectorIn (document s) selectedItem REWARDS_SELECTOR);
      [|by apply (Hrest s)].
    cbn [snd]. rewrite consoleCount_log. cbn. lia.
Qed.

(** ** View Synchronizer: what a synchronization leaves behind *)

Lemma elementAt_hideOn id id' t :
  elementAt id' (hideOn id t) =
    if Nat.eqb id id' then hideFlagOnElement (elementAt id' t) else elementAt id' t.
Proof.
  unfold elementAt, hideOn. cbn [document set_document].
  destruct (Nat.eqb id id') eqn:Heq.
  - apply Nat.eqb_eq in Heq as ->. apply getElement_update_eq.
  - apply Nat.eqb_neq in Heq. by apply getElement_update_ne.
Qed.

Lemma elementAt_showOn url id id' t :
  elementAt id' (showOn url id t) =
    if Nat.eqb id id' then showFlagOnElement url (elementAt id' t) else elementAt id' t.
Proof.
  unfold elementAt, showOn. cbn [document set_document].
  destruct (Nat.eqb id id') eqn:Heq.
  - apply Nat.eqb_eq in Heq as ->. apply getElement_update_eq.
  - apply Nat.eqb_neq in Heq. by apply getElement_update_ne.
Qed.

Lemma bookkeep_effect element t :
  Keeps syncView t (bookkeep element t)
  ∧ currentRewardsElement (bookkeep element t) = Some element
  ∧ retryCount (bookkeep element t) = Some 0
  ∧ ∀ id, elementAt id (bookkeep element t) =
      match currentRewardsElement t with
      | Some previous =>
          if Nat.eqb previous id && negb (Nat.eqb previous element)
          then hideFlagOnElement (elementAt id t)
          else elementAt id t
      | None => elementAt id t
      end.
Proof.
  split; [apply Keeps_bookkeep; first [ignores | apply Keeps_refl]|].
  unfold bookkeep. cbv zeta.
  change (currentRewardsElement (set_retryCount (Some 0) t)) with (currentRewardsElement t).
  split; [by rewrite (log_view currentRewardsElement) by ignores|].
  split.
  { rewrite (log_view retryCount) by ignores. cbn [retryCount set_currentRewardsElement].
    destruct (currentRewardsElement t) as [previous|]; [|done].
    destruct (negb (Nat.eqb previous element)); [|done].
    unfold hideOn. cbn [retryCount set_document].
    by rewrite (log_view retryCount) by ignores. }
  intros id. rewrite (log_view (elementAt id)) by ignores.
  change (elementAt id (set_currentRewardsElement ?v ?u)) with (elementAt id u).
  destruct (currentRewardsElement t) as [previous|]; [|done].
  destruct (negb (Nat.eqb previous element)); [|by rewrite andb_false_r].
  rewrite andb_true_r, elementAt_hideOn.
  by rewrite (log_view (elementAt id)) by ignores.
Qed.

Lemma settle_effect element t :
  Keeps syncView t (settle element t)
  ∧ currentRewardsElement (settle element t) = currentRewardsElement t
  ∧ retryCount (settle element t) = retryCount t
  ∧ ∀ id, elementAt id (settle element t) =
      if Nat.eqb element id then
        if historicModeActive t then
          match historicFlagImageUrl t with
          | Some url =>
              if Js.truthy url then showFlagOnElement url (elementAt id t)
              else elementAt id t
          | None => elementAt id t
          end
        else hideFlagOnElement (elementAt id t)
      else elementAt id t.
Proof.
  split; [apply Keeps_settle; first [ignores | apply Keeps_refl]|].
  split; [apply Keeps_settle; first [ignores | apply Keeps_refl]|].
  split; [apply Keeps_settle; first [ignores | apply Keeps_refl]|].
  intros id. unfold settle.
  assert (elementAt id (requestHistoricFlagImage t) = elementAt id t) as Hreq.
  { apply (Keeps_request (elementAt id)); first [ignores | apply Keeps_refl]. }
  destruct (historicModeActive t).
  - destruct (historicFlagImageUrl t) as [url|];
      [destruct (Js.truthy url)|]; rewrite ?Hreq; try (by case_match).
    cbv zeta. rewrite (log_view (elementAt id)) by ignores. apply elementAt_showOn.
  - cbv zeta. rewrite (log_view (elementAt id)) by ignores. apply elementAt_hideOn.
Qed.

(** The state after a synchronization that finds the element. *)
Lemma updateHistoricFlag_found s (element : nat) :
  fst (findRewardsElement s) = Some element →
  let s' := updateHistoricFlag s in
  currentRewardsElement s' = Some element
  ∧ retryCount s' = Some 0
  ∧ timers s' = timers s
  ∧ elementAt element s' =
      (if historicModeActive s then
         match historicFlagImageUrl s with
         | Some url =>
             if Js.truthy url then showFlagOnElement url (elementAt element s)
             else elementAt element s
         | None => elementAt element s
         end
       else hideFlagOnElement (elementAt element s))
  ∧ (∀ previous, currentRewardsElement s = Some previous → previous ≠ element →
       elementAt previous s' = hideFlagOnElement (elementAt previous s))
  ∧ (∀ other, other ≠ element → currentRewardsElement s ≠ Some other →
       elementAt other s' = elementAt other s).
Proof.
  intros Hfind. cbv zeta.
  apply find_found in Hfind as (Hin & message & Hmessage & Hfound).
  rewrite updateHistoricFlag_parts, Hin, Hfound. cbn [negb].
  set (s1 := log "debug" message s).
  assert (Keeps syncView s s1) as Hk1 by (unfold s1; keeps).
  assert (currentRewardsElement s1 = currentRewardsElement s) as Hc1
    by (unfold s1; by rewrite (log_view currentRewardsElement) by ignores).
  assert (∀ id, elementAt id s1 = elementAt id s) as He1
    by (intros id; unfold s1; by rewrite (log_view (elementAt id)) by ignores).
  clearbody s1.
  destruct (bookkeep_effect element s1) as (Hk2 & Hc2 & Hr2 & He2).
  set (s2 := bookkeep element s1) in *. clearbody s2.
  destruct (settle_effect element s2) as (Hk3 & Hc3 & Hr3 & He3).
  set (s3 := settle element s2) in *. clearbody s3.
  unfold Keeps, syncView in *.
  injection Hk1 as _ Ha1 Hu1 Ht1 _ _. injection Hk2 as _ Ha2 Hu2 Ht2 _ _.
  injection Hk3 as _ _ _ Ht3 _ _.
  split; [congruence|]. split; [congruence|]. split; [congruence|].
  rewrite Hc1 in He2. rewrite Ha2, Ha1, Hu2, Hu1 in He3.
  split; [|split].
  - rewrite He3, Nat.eqb_refl, He2, He1.
    assert (match currentRewardsElement s with
            | Some previous =>
                if Nat.eqb previous element && negb (Nat.eqb previous element)
                then hideFlagOnElement (elementAt element s)
                else elementAt element s
            | None => elementAt element s
            end = elementAt element s) as ->; [|done].
    destruct (currentRewardsElement s) as [previous|]; [|done].
    by rewrite andb_negb_r.
  - intros previous Hprev Hne. rewrite He3.
    assert (Nat.eqb element previous = false) as -> by (apply Nat.eqb_neq; congruence).
    rewrite He2, Hprev, Nat.eqb_refl, He1.
    assert (Nat.eqb previous element = false) as -> by (by apply Nat.eqb_neq).
    done.
  - intros other Hne Hcur. rewrite He3.
    assert (Nat.eqb element other = false) as -> by (apply Nat.eqb_neq; congruence).
    rewrite He2, He1. destruct (currentRewardsElement s) as [previous|]; [|done].
    assert (Nat.eqb previous other = false) as -> by (apply Nat.eqb_neq; congruence).
    done.
Qed.


(** X17: a synchronization that finds the rewards element remembers it,
    resets the retry counter and schedules nothing.  It leaves the
    element decorated with the known URL when historic mode is active,
    untouched when the URL is not known yet, and cleared when historic
    mode is inactive; the element remembered before, if it is another
    one, is cleared; every other element keeps its classes and style. *)
Theorem synchronization_outcome s (element : nat) :
  fst (findRewardsElement s) = Some element →
  let s' := updateHistoricFlag s in
  currentRewardsElement s' = Some element
  ∧ retryCount s' = Some 0
  ∧ timers s' = timers s
  ∧ elementAt element s' =
      (if historicModeActive s then
         match historicFlagImageUrl s with
         | Some url =>
             if Js.truthy url then showFlagOnElement url (elementAt element s)
             else elementAt element s
         | None => elementAt element s
         end
       else hideFlagOnElement (elementAt element s))
  ∧ (∀ previous, currentRewardsElement s = Some previous → previous ≠ element →
       elementAt previous s' = hideFlagOnElement (elementAt previous s))
  ∧ (∀ other, other ≠ element → currentRewardsElement s ≠ Some other →
       elementAt other s' = elementAt other s).
Proof. apply updateHistoricFlag_found. Qed.

Lemma synchronization_outcome_witness :
  currentRewardsElement
    (updateHistoricFlag (run (init pageBody pageElements) enteredChampSelect)) = Some 2.
Proof.
  apply (synchronization_outcome (run (init pageBody pageElements) enteredChampSelect) 2).
  vm_compute. reflexivity.
Defined.

Lemma set_isInChampSelect_same s : set_isInChampSelect (isInChampSelect s) s = s.
Proof. by destruct s. Qed.

(** X18: the three cases of a phase-change message.  A message that
    leaves the phase flag as it is changes nothing at all.  Entering the
    target phase touches no element and schedules one synchronization,
    100 ms later, when historic mode is active, and none otherwise.
    Leaving it clears the remembered element at once, forgets it, resets
    the retry counter and schedules nothing. *)
Theorem phase_change_transitions s (phase : string) :
  let s' := step s (EvMessage (Some (PhaseChange phase))) in
  (isTargetPhase phase = isInChampSelect s → s' = s)
  ∧ (isInChampSelect s = false → isTargetPhase phase = true →
       pageOf s' = pageOf s
       ∧ currentRewardsElement s' = currentRewardsElement s
       ∧ timers s' =
           timers s ++ (if historicModeActive s
                        then [mkTimer (nextTimer s) 100%Z CbUpdateFlag] else []))
  ∧ (isInChampSelect s = true → isTargetPhase phase = false →
       currentRewardsElement s' = None
       ∧ retriesUsed s' = 0
       ∧ timers s' = timers s
       ∧ ∀ id, elementAt id s' =
           if bool_decide (currentRewardsElement s = Some id)
           then hideFlagOnElement (elementAt id s) else elementAt id s).
Proof.
  cbv zeta. cbn [step onmessage handleBridgeMessage]. split; [|split].
  - intros Hsame. unfold handlePhaseChange. cbv zeta.
    rewrite Hsame, set_isInChampSelect_same.
    by destruct (isInChampSelect s).
  - intros Hout Hin. unfold handlePhaseChange. cbv zeta.
    change (isInChampSelect (set_isInChampSelect (isTargetPhase phase) s))
      with (isTargetPhase phase).
    rewrite Hin, Hout. cbn [negb andb].
    rewrite (log_view historicModeActive) by ignores.
    change (historicModeActive (set_isInChampSelect ?v s)) with (historicModeActive s).
    destruct (historicModeActive s).
    + rewrite timers_setTimeout.
      change (pageOf (setTimeout ?c ?m ?t)) with (pageOf t).
      change (currentRewardsElement (setTimeout ?c ?m ?t)) with (currentRewardsElement t).
      by rewrite (log_view pageOf), (log_view currentRewardsElement), (log_view timers),
        (log_view nextTimer) by ignores.
    + by rewrite (log_view pageOf), (log_view currentRewardsElement), (log_view timers),
        app_nil_r by ignores.
  - intros Hin Hout.
    split; [by apply handlePhaseChange_leave|].
    split; [by apply retriesUsed_handlePhaseChange|].
    unfold handlePhaseChange. cbv zeta.
    change (isInChampSelect (set_isInChampSelect (isTargetPhase phase) s))
      with (isTargetPhase phase).
    rewrite Hout, Hin. cbn [negb andb].
    set (s1 := log "debug" "Left ChampSelect phase - disabling plugin" _).
    assert (currentRewardsElement s1 = currentRewardsElement s) as Hc1
      by (unfold s1; by rewrite (log_view currentRewardsElement) by ignores).
    assert (timers s1 = timers s) as Ht1
      by (unfold s1; by rewrite (log_view timers) by ignores).
    assert (∀ id, elementAt id s1 = elementAt id s) as He1
      by (intros id; unfold s1; by rewrite (log_view (elementAt id)) by ignores).
    clearbody s1. rewrite Hc1.
    assert (∀ t : State,
              timers (match retryCount t with
                      | Some (S _) => set_retryCount (Some 0) t
                      | _ => t
                      end) = timers t
              ∧ ∀ id, elementAt id (match retryCount t with
                                    | Some (S _) => set_retryCount (Some 0) t
                                    | _ => t
                                    end) = elementAt id t) as Hretry.
    { intros t. by destruct (retryCount t) as [[|n]|]. }
    destruct (currentRewardsElement s) as [element|].
    + destruct (Hretry (set_currentRewardsElement None (hideOn element s1))) as [-> He].
      split; [exact Ht1|]. intros id. rewrite He.
      change (elementAt id (set_currentRewardsElement ?v ?t)) with (elementAt id t).
      rewrite elementAt_hideOn, He1.
      destruct (Nat.eqb element id) eqn:Heq.
      * apply Nat.eqb_eq in Heq as ->. by rewrite bool_decide_eq_true_2.
      * apply Nat.eqb_neq in Heq. rewrite bool_decide_eq_false_2; [done | congruence].
    + destruct (Hretry s1) as [-> He]. split; [exact Ht1|].
      intros id. rewrite He, He1. by rewrite bool_decide_eq_false_2.
Qed.

(** ** From a historic-state message to the element *)

Lemma handleHistoricStateUpdate_timers active name s :
  let u := handleHistoricSkinNameUpdate name s in
  historicModeActive (handleHistoricStateUpdate active name s) = active
  ∧ timers (handleHistoricStateUpdate active name s) =
      timers u ++ mkTimer (nextTimer u) 100%Z CbUpdateFlag
        :: (if active then [mkTimer (S (nextTimer u)) 1000%Z CbUpdateFlag] else []).
Proof.
  cbv zeta. unfold handleHistoricStateUpdate. cbv zeta.
  set (u := handleHistoricSkinNameUpdate name s).
  set (v := log "info" "Received historic state update" (set_historicModeActive active u)).
  assert (historicModeActive v = active) as Ha
    by (unfold v; by rewrite (log_view historicModeActive) by ignores).
  assert (timers v = timers u) as Ht
    by (unfold v; by rewrite (log_view timers) by ignores).
  assert (nextTimer v = nextTimer u) as Hn
    by (unfold v; by rewrite (log_view nextTimer) by ignores).
  clearbody v.
  change (historicModeActive (setTimeout CbUpdateFlag 100 v)) with (historicModeActive v).
  rewrite Ha. destruct active.
  - split; [exact Ha|]. rewrite !timers_setTimeout.
    change (nextTimer (setTimeout CbUpdateFlag 100 v)) with (S (nextTimer v)).
    rewrite Ht, Hn, <- app_assoc. reflexivity.
  - split; [exact Ha|]. by rewrite timers_setTimeout, Ht, Hn.
Qed.

Lemma elementAt_page id s t : pageOf t = pageOf s → elementAt id t = elementAt id s.
Proof.
  unfold pageOf, elementAt, getElement. by intros [= _ ->].
Qed.

Lemma handleHistoricStateUpdate_keeps {V} (view : State → V) active name s :
  IgnLog view → IgnTimers view → IgnPopup view → IgnActive view →
  view (handleHistoricStateUpdate active name s) = view s.
Proof.
  intros. apply (Keeps_handleHistoricStateUpdate view); first [done | apply Keeps_refl].
Qed.

(** Firing a pending synchronization timer on a page where the element
    is found. *)
Lemma fire_sync_found (tm : Timer) s1 (element : nat) :
  timersDistinct s1 → tm ∈ timers s1 → callback tm = CbUpdateFlag →
  fst (findRewardsElement s1) = Some element →
  let s2 := fireTimer (timerId tm) s1 in
  currentRewardsElement s2 = Some element
  ∧ elementAt element s2 =
      (if historicModeActive s1 then
         match historicFlagImageUrl s1 with
         | Some url =>
             if Js.truthy url then showFlagOnElement url (elementAt element s1)
             else elementAt element s1
         | None => elementAt element s1
         end
       else hideFlagOnElement (elementAt element s1)).
Proof.
  intros Hd Hin Hcb Hfind. cbv zeta. rewrite fireTimer_pending, Hcb by done.
  cbn [runCallback].
  assert (fst (findRewardsElement (clearTimeout (timerId tm) s1)) = Some element) as Hfind1.
  { rewrite <- Hfind. by apply find_same. }
  destruct (updateHistoricFlag_found _ element Hfind1) as (Hc & _ & _ & He & _).
  split; [exact Hc | exact He].
Qed.

Lemma state_update_effect s (active : bool) (name : option string) (element : nat) :
  timersDistinct (handleHistoricStateUpdate active name s) →
  fst (findRewardsElement s) = Some element →
  let s1 := handleHistoricStateUpdate active name s in
  let tick := nextTimer (handleHistoricSkinNameUpdate name s) in
  let s2 := fireTimer tick s1 in
  historicModeActive s1 = active
  ∧ pageOf s1 = pageOf s
  ∧ mkTimer tick 100%Z CbUpdateFlag ∈ timers s1
  ∧ currentRewardsElement s2 = Some element
  ∧ elementAt element s2 =
      (if active then
         match historicFlagImageUrl s with
         | Some url =>
             if Js.truthy url then showFlagOnElement url (elementAt element s)
             else elementAt element s
         | None => elementAt element s
         end
       else hideFlagOnElement (elementAt element s)).
Proof.
  cbv zeta. intros Hd1 Hfind.
  pose proof (handleHistoricStateUpdate_keeps isInChampSelect active name s
                ltac:(ignores) ltac:(ignores) ltac:(ignores) ltac:(ignores)) as Hphase.
  pose proof (handleHistoricStateUpdate_keeps pageOf active name s
                ltac:(ignores) ltac:(ignores) ltac:(ignores) ltac:(ignores)) as Hpage.
  pose proof (handleHistoricStateUpdate_keeps historicFlagImageUrl active name s
                ltac:(ignores) ltac:(ignores) ltac:(ignores) ltac:(ignores)) as Hurl.
  destruct (handleHistoricStateUpdate_timers active name s) as [Ha Ht]. cbv zeta in Ha, Ht.
  generalize dependent (handleHistoricStateUpdate active name s).
  intros s1 Hd1 Hphase Hpage Hurl Ha Ht.
  generalize dependent (nextTimer (handleHistoricSkinNameUpdate name s)). intros tick Ht.
  assert (mkTimer tick 100%Z CbUpdateFlag ∈ timers s1) as Hin.
  { rewrite Ht. apply elem_of_app. right. apply list_elem_of_here. }
  split; [done|]. split; [done|]. split; [done|].
  assert (fst (findRewardsElement s1) = Some element) as Hfind1.
  { rewrite <- Hfind. by apply find_same. }
  destruct (fire_sync_found (mkTimer tick 100%Z CbUpdateFlag) s1 element Hd1 Hin eq_refl Hfind1)
    as [Hc He].
  cbn [timerId] in Hc, He. split; [exact Hc|]. rewrite He.
  by rewrite Ha, Hurl, (elementAt_page element s s1).
Qed.

(** X19: a historic-state message changes no element by itself; it sets
    the mode to the flag received and schedules a synchronization 100 ms
    later.  When that timer fires on a page where the rewards element is
    found, the element is remembered and brought in line with the mode:
    decorated with the known URL when the mode is active, left as it is
    while the URL is not known, cleared when the mode is inactive. *)
Theorem state_update_takes_effect body0 elements0 events
    (active : bool) (id : Z) (name : option string) (element : nat) :
  let s := run (init body0 elements0) events in
  fst (findRewardsElement s) = Some element →
  let s1 := step s (EvMessage (Some (HistoricState active id name))) in
  let tick := nextTimer (handleHistoricSkinNameUpdate name s) in
  let s2 := step s1 (EvTimer tick) in
  historicModeActive s1 = active
  ∧ pageOf s1 = pageOf s
  ∧ mkTimer tick 100%Z CbUpdateFlag ∈ timers s1
  ∧ currentRewardsElement s2 = Some element
  ∧ elementAt element s2 =
      (if active then
         match historicFlagImageUrl s with
         | Some url =>
             if Js.truthy url then showFlagOnElement url (elementAt element s)
             else elementAt element s
         | None => elementAt element s
         end
       else hideFlagOnElement (elementAt element s)).
Proof.
  cbv zeta. generalize (scheduled_run _ events (scheduled_init body0 elements0)).
  generalize (run (init body0 elements0) events). intros s Hs Hfind.
  apply (state_update_effect s active name element); [|done].
  apply (scheduled_step s (EvMessage (Some (HistoricState active id name))) Hs).
Qed.

Lemma state_update_takes_effect_witness :
  elementAt 2 (step (step (run (init pageBody pageElements) enteredChampSelect)
                          (EvMessage (Some (HistoricState false 42 None))))
                    (EvTimer 1))
    = hideFlagOnElement (elementAt 2 (run (init pageBody pageElements) enteredChampSelect)).
Proof.
  apply (state_update_takes_effect pageBody pageElements enteredChampSelect false 42 None 2).
  vm_compute. reflexivity.
Defined.

(** ** A second synchronization changes nothing more *)

Section Marker.

Implicit Types (d : Document) (t : Tree) (sel : list string).

Lemma matches_marker_ext d d' sel t :
  sameButMarker d d' → HISTORIC_CLASS ∉ sel →
  matchesSel d' sel t = matchesSel d sel t.
Proof.
  intros [_ Hclasses] Hsel. unfold matchesSel.
  induction sel as [|c sel IH]; [done|]. cbn [forallb].
  apply not_elem_of_cons in Hsel as [Hc Hsel]. rewrite IH by done. f_equal.
  specialize (Hclasses (nodeId t)).
  assert (c ∈ classList (getElement d' (nodeId t)) ∖ {[HISTORIC_CLASS]}
          ↔ c ∈ classList (getElement d (nodeId t)) ∖ {[HISTORIC_CLASS]}) as Hiff
    by (by rewrite Hclasses).
  rewrite !elem_of_difference, !elem_of_singleton in Hiff.
  apply bool_decide_ext. split; intros Hin; apply Hiff; split; congruence.
Qed.

Lemma filter_matches_ext d d' sel (scope : list Tree) :
  sameButMarker d d' → HISTORIC_CLASS ∉ sel →
  querySelectorAllIn d' scope sel = querySelectorAllIn d scope sel.
Proof.
  intros Hd Hsel. unfold querySelectorAllIn. apply List.filter_ext.
  intros t. by apply matches_marker_ext.
Qed.

Lemma querySelector_marker_ext d d' sel :
  sameButMarker d d' → HISTORIC_CLASS ∉ sel →
  querySelector d' sel = querySelector d sel.
Proof.
  intros Hd Hsel. unfold querySelector. pose proof Hd as [-> _].
  by rewrite (filter_matches_ext d d').
Qed.

Lemma querySelectorIn_marker_ext d d' node sel :
  sameButMarker d d' → HISTORIC_CLASS ∉ sel →
  querySelectorIn d' node sel = querySelectorIn d node sel.
Proof.
  intros Hd Hsel. unfold querySelectorIn. by rewrite (filter_matches_ext d d').
Qed.

(** The search does not see the marker class. *)
Lemma locate_marker_ext d d' : sameButMarker d d' → locateRewards d' = locateRewards d.
Proof.
  intros Hd. rewrite !locateRewards_direct.
  assert (HISTORIC_CLASS ∉ SEL_SELECTED_ITEM) as H1
    by (unfold SEL_SELECTED_ITEM; rewrite !elem_of_cons, elem_of_nil; intuition discriminate).
  assert (HISTORIC_CLASS ∉ REWARDS_SELECTOR) as H2
    by (unfold REWARDS_SELECTOR; rewrite !elem_of_cons, elem_of_nil; intuition discriminate).
  rewrite !(querySelector_marker_ext d d') by done.
  destruct (querySelector d SEL_SELECTED_ITEM) as [selectedItem|]; [|done].
  by rewrite (querySelectorIn_marker_ext d d').
Qed.

Lemma show_classes url (element : Element) :
  classList (showFlagOnElement url element) ∖ {[ HISTORIC_CLASS ]}
    = classList element ∖ {[ HISTORIC_CLASS ]}.
Proof. unfold showFlagOnElement; cbn [classList]. set_solver. Qed.

Lemma hide_classes_marker (element : Element) :
  classList (hideFlagOnElement element) ∖ {[ HISTORIC_CLASS ]}
    = classList element ∖ {[ HISTORIC_CLASS ]}.
Proof. rewrite hide_classes. set_solver. Qed.

Lemma show_show url (element : Element) :
  showFlagOnElement url (showFlagOnElement url element) = showFlagOnElement url element.
Proof.
  apply show_ext; [apply show_classes|].
  intros p Hp. rewrite show_style_lookup. by rewrite Hp.
Qed.

End Marker.

Lemma updateHistoricFlag_keeps {V} (view : State → V) s :
  IgnFrames view → IgnLog view → IgnApplied view → IgnTimers view → IgnElements view →
  IgnPopup view → IgnRetry view → IgnCurrent view → IgnPending view →
  view (updateHistoricFlag s) = view s.
Proof.
  intros. apply (Keeps_updateHistoricFlag view); first [done | apply Keeps_refl].
Qed.

(** The document after a synchronization that found the element: the
    same tree, the same classes but for the marker. *)
Lemma updateHistoricFlag_sameButMarker s (element : nat) :
  fst (findRewardsElement s) = Some element →
  sameButMarker (document s) (document (updateHistoricFlag s)).
Proof.
  intros Hfind.
  destruct (updateHistoricFlag_found s element Hfind) as (_ & _ & _ & He & Hprev & Hother).
  split.
  - apply (updateHistoricFlag_keeps bodyOf s); ignores.
  - intros id. fold (elementAt id (updateHistoricFlag s)). fold (elementAt id s).
    destruct (decide (id = element)) as [->|Hne].
    + rewrite He. repeat case_match;
        first [done | apply show_classes | apply hide_classes_marker].
    + destruct (decide (currentRewardsElement s = Some id)) as [Hcur|Hcur].
      * rewrite (Hprev id Hcur Hne). apply hide_classes_marker.
      * by rewrite (Hother id Hne Hcur).
Qed.

(** X21: a synchronization that found the element can be repeated at
    will: run again on the state it left, it finds the same element and
    leaves every element, the remembered element and the pending timers
    as they are.  The two synchronizations that a historic-state message
    schedules thus do the work once. *)
Theorem synchronization_idempotent s (element : nat) :
  fst (findRewardsElement s) = Some element →
  let s' := updateHistoricFlag s in
  let s'' := updateHistoricFlag s' in
  fst (findRewardsElement s') = Some element
  ∧ (∀ id, elementAt id s'' = elementAt id s')
  ∧ currentRewardsElement s'' = currentRewardsElement s'
  ∧ retryCount s'' = retryCount s'
  ∧ timers s'' = timers s'.
Proof.
  intros Hfind. cbv zeta.
  pose proof (updateHistoricFlag_sameButMarker s element Hfind) as Hsame.
  pose proof (updateHistoricFlag_keeps isInChampSelect s ltac:(ignores) ltac:(ignores)
                ltac:(ignores) ltac:(ignores) ltac:(ignores) ltac:(ignores) ltac:(ignores)
                ltac:(ignores) ltac:(ignores)) as Hphase.
  pose proof (updateHistoricFlag_keeps historicModeActive s ltac:(ignores) ltac:(ignores)
                ltac:(ignores) ltac:(ignores) ltac:(ignores) ltac:(ignores) ltac:(ignores)
                ltac:(ignores) ltac:(ignores)) as Hactive.
  pose proof (updateHistoricFlag_keeps historicFlagImageUrl s ltac:(ignores) ltac:(ignores)
                ltac:(ignores) ltac:(ignores) ltac:(ignores) ltac:(ignores) ltac:(ignores)
                ltac:(ignores) ltac:(ignores)) as Hurl.
  destruct (updateHistoricFlag_found s element Hfind) as (Hc & Hr & Ht & He & _ & _).
  assert (fst (findRewardsElement (updateHistoricFlag s)) = Some element) as Hfind'.
  { rewrite find_fst, Hphase in *. destruct (isInChampSelect s); [|done].
    by rewrite (locate_marker_ext (document s)). }
  generalize dependent (updateHistoricFlag s).
  intros s' Hsame Hphase Hactive Hurl Hc Hr Ht He Hfind'.
  destruct (updateHistoricFlag_found s' element Hfind') as (Hc' & Hr' & Ht' & He' & _ & Hother').
  split; [done|]. split; [|split; [congruence | split; [congruence | done]]].
  intros id. destruct (decide (id = element)) as [->|Hne].
  - rewrite He', Hactive, Hurl, He.
    destruct (historicModeActive s); [|apply hide_hide].
    destruct (historicFlagImageUrl s) as [url|]; [|done].
    destruct (Js.truthy url); [apply show_show | done].
  - apply Hother'; [done | congruence].
Qed.

Lemma synchronization_idempotent_witness :
  elementAt 2 (updateHistoricFlag
                 (updateHistoricFlag (run (init pageBody pageElements) enteredChampSelect)))
  = elementAt 2 (updateHistoricFlag (run (init pageBody pageElements) enteredChampSelect)).
Proof.
  apply (synchronization_idempotent (run (init pageBody pageElements) enteredChampSelect) 2).
  vm_compute. reflexivity.
Defined.

(** X20: the observer callback.  A change of the tree is followed by a
    synchronization exactly when the phase flag and historic mode are
    both on; otherwise the plugin does nothing.  When it runs and the
    new tree holds the rewards element, that element is remembered and
    decorated at once with the known URL. *)
Theorem mutation_resynchronizes s (b : list Tree) (es : gmap nat Element) :
  let s0 := set_document (mkDocument b es (popup (document s))) s in
  let s' := step s (EvMutation b es) in
  (isInChampSelect s && historicModeActive s = false → s' = s0)
  ∧ (isInChampSelect s && historicModeActive s = true →
       s' = updateHistoricFlag s0
       ∧ ∀ element url,
           fst (findRewardsElement s0) = Some element →
           historicFlagImageUrl s = Some url → Js.truthy url = true →
           currentRewardsElement s' = Some element
           ∧ elementAt element s' = showFlagOnElement url (elementAt element s0)).
Proof.
  cbv zeta. cbn [step]. unfold onmutation.
  change (isInChampSelect (set_document ?d s)) with (isInChampSelect s).
  change (historicModeActive (set_document ?d s)) with (historicModeActive s).
  split; intros Hgo; rewrite Hgo; [done|]. split; [done|].
  intros element url Hfind Hurl Htruthy.
  destruct (updateHistoricFlag_found _ element Hfind) as (Hc & _ & _ & He & _).
  split; [exact Hc|]. rewrite He.
  change (historicModeActive (set_document ?d s)) with (historicModeActive s).
  change (historicFlagImageUrl (set_document ?d s)) with (historicFlagImageUrl s).
  apply andb_prop in Hgo as [_ ->]. by rewrite Hurl, Htruthy.
Qed.

(** ** The mode and the URL follow the messages *)

Lemma step_active s e :
  historicModeActive (step s e) =
    match e with
    | EvMessage (Some (HistoricState active _ _)) => active
    | _ => historicModeActive s
    end.
Proof.
  destruct e as [| | | |[[active id name|assetPath url|phase|]|]| | | |];
    try (by rewrite (Keeps_step_other historicModeActive); first [ignores | done]).
  - cbn. by destruct (handleHistoricStateUpdate_timers active name s) as [-> _].
  - cbn. apply (Keeps_handleLocalAssetUrl historicModeActive);
      first [ignores | apply Keeps_refl].
  - cbn. apply (Keeps_handlePhaseChange historicModeActive);
      first [ignores | apply Keeps_refl].
  - done.
  - cbn. by rewrite (log_view historicModeActive) by ignores.
Qed.

Lemma step_url s e :
  historicFlagImageUrl (step s e) =
    match e with
    | EvMessage (Some (LocalAssetUrl assetPath url)) =>
        if resolves assetPath url then url else historicFlagImageUrl s
    | _ => historicFlagImageUrl s
    end.
Proof.
  destruct e as [| | | |[[active id name|assetPath url|phase|]|]| | | |];
    try (by rewrite (Keeps_step_other historicFlagImageUrl); first [ignores | done]).
  - cbn. apply (Keeps_handleHistoricStateUpdate historicFlagImageUrl);
      first [ignores | apply Keeps_refl].
  - cbn. apply handleLocalAssetUrl_url.
  - cbn. apply (Keeps_handlePhaseChange historicFlagImageUrl);
      first [ignores | apply Keeps_refl].
  - done.
  - cbn. by rewrite (log_view historicFlagImageUrl) by ignores.
Qed.

Lemma run_active s events :
  historicModeActive (run s events) = lastActive events (historicModeActive s).
Proof.
  revert s. induction events as [|e events IH]; intros s; [done|].
  rewrite run_cons, IH, step_active.
  by destruct e as [| | | |[[| | |]|]| | | |].
Qed.

Lemma run_url s events :
  historicFlagImageUrl (run s events) = lastUrl events (historicFlagImageUrl s).
Proof.
  revert s. induction events as [|e events IH]; intros s; [done|].
  rewrite run_cons, IH, step_url.
  by destruct e as [| | | |[[| | |]|]| | | |].
Qed.

(** X22: historic mode is on exactly when the last historic-state
    message received carried [active] true (off before any); the image
    URL is the url of the last local-asset-url message for the tracked
    asset with a non-empty url (unset before any).  No timer, socket or
    DOM event changes either of them. *)
Theorem mode_and_url_follow_messages body0 elements0 events :
  let s := run (init body0 elements0) events in
  historicModeActive s = lastActive events false
  ∧ historicFlagImageUrl s = lastUrl events None.
Proof. cbv zeta. by rewrite run_active, run_url. Qed.

(** ** Entering the target phase *)

Lemma handlePhaseChange_enter phase s :
  isInChampSelect s = false → isTargetPhase phase = true →
  let s' := handlePhaseChange phase s in
  isInChampSelect s' = true
  ∧ pageOf s' = pageOf s
  ∧ historicModeActive s' = historicModeActive s
  ∧ historicFlagImageUrl s' = historicFlagImageUrl s
  ∧ timers s' =
      timers s ++ (if historicModeActive s
                   then [mkTimer (nextTimer s) 100%Z CbUpdateFlag] else []).
Proof.
  intros Hout Hin. cbv zeta.
  split; [by rewrite handlePhaseChange_phase|].
  unfold handlePhaseChange. cbv zeta.
  change (isInChampSelect (set_isInChampSelect (isTargetPhase phase) s))
    with (isTargetPhase phase).
  rewrite Hin, Hout. cbn [negb andb].
  rewrite (log_view historicModeActive) by ignores.
  change (historicModeActive (set_isInChampSelect ?v s)) with (historicModeActive s).
  set (u := log "debug" "Entered ChampSelect phase - enabling plugin" _).
  assert (pageOf u = pageOf s) as Hp by (unfold u; by rewrite (log_view pageOf) by ignores).
  assert (historicModeActive u = historicModeActive s) as Ha
    by (unfold u; by rewrite (log_view historicModeActive) by ignores).
  assert (historicFlagImageUrl u = historicFlagImageUrl s) as Hu
    by (unfold u; by rewrite (log_view historicFlagImageUrl) by ignores).
  assert (timers u = timers s) as Ht by (unfold u; by rewrite (log_view timers) by ignores).
  assert (nextTimer u = nextTimer s) as Hn
    by (unfold u; by rewrite (log_view nextTimer) by ignores).
  clearbody u. destruct (historicModeActive s).
  - rewrite timers_setTimeout, Ht, Hn. done.
  - by rewrite Ht, app_nil_r.
Qed.

Lemma entering_effect s (phase : string) (element : nat) :
  timersDistinct (handlePhaseChange phase s) →
  isInChampSelect s = false → isTargetPhase phase = true → historicModeActive s = true →
  locateRewards (document s) = Some element →
  let s1 := handlePhaseChange phase s in
  let s2 := fireTimer (nextTimer s) s1 in
  currentRewardsElement s2 = Some element
  ∧ elementAt element s2 =
      match historicFlagImageUrl s with
      | Some url =>
          if Js.truthy url then showFlagOnElement url (elementAt element s)
          else elementAt element s
      | None => elementAt element s
      end.
Proof.
  intros Hd Hout Hin Hactive Hloc. cbv zeta.
  destruct (handlePhaseChange_enter phase s Hout Hin) as (Hphase & Hpage & Ha & Hu & Ht).
  cbv zeta in *. rewrite Hactive in Ht.
  generalize dependent (handlePhaseChange phase s). intros s1 Hd Hphase Hpage Ha Hu Ht.
  set (tm := mkTimer (nextTimer s) 100%Z CbUpdateFlag) in *.
  assert (tm ∈ timers s1) as Hin1
    by (rewrite Ht; apply elem_of_app; right; apply list_elem_of_here).
  assert (fst (findRewardsElement s1) = Some element) as Hfind.
  { rewrite find_fst, Hphase, <- Hloc. apply locate_ext.
    - unfold pageOf in Hpage. by injection Hpage.
    - unfold pageOf in Hpage. by injection Hpage. }
  destruct (fire_sync_found tm s1 element Hd Hin1 eq_refl Hfind) as [Hc He].
  cbn [timerId tm] in Hc, He. split; [exact Hc|].
  rewrite He, Ha, Hactive, Hu. by rewrite (elementAt_page element s s1).
Qed.

(** X23: historic mode switched on before champion select is honoured
    when the phase is entered: the phase-change message schedules a
    synchronization 100 ms later, and when that timer fires on a page
    holding the rewards element, the element is remembered and decorated
    with the known URL (it is left as it is while the URL is unknown). *)
Theorem entering_phase_takes_effect body0 elements0 events
    (phase : string) (element : nat) :
  let s := run (init body0 elements0) events in
  isInChampSelect s = false → isTargetPhase phase = true → historicModeActive s = true →
  locateRewards (document s) = Some element →
  let s1 := step s (EvMessage (Some (PhaseChange phase))) in
  let s2 := step s1 (EvTimer (nextTimer s)) in
  currentRewardsElement s2 = Some element
  ∧ elementAt element s2 =
      match historicFlagImageUrl s with
      | Some url =>
          if Js.truthy url then showFlagOnElement url (elementAt element s)
          else elementAt element s
      | None => elementAt element s
      end.
Proof.
  cbv zeta. generalize (scheduled_run _ events (scheduled_init body0 elements0)).
  generalize (run (init body0 elements0) events). intros s Hs Hout Hin Hactive Hloc.
  apply (entering_effect s phase element); try done.
  apply (scheduled_step s (EvMessage (Some (PhaseChange phase))) Hs).
Qed.

Lemma entering_phase_takes_effect_witness :
  currentRewardsElement
    (step (step (run (init pageBody pageElements)
                     [ EvMessage (Some (HistoricState true 42 None));
                       assetUrlMessage scenarioUrl ])
                (EvMessage (Some (PhaseChange "ChampSelect"))))
          (EvTimer 3)) = Some 2
  ∧ elementAt 2
      (step (step (run (init pageBody pageElements)
                       [ EvMessage (Some (HistoricState true 42 None));
                         assetUrlMessage scenarioUrl ])
                  (EvMessage (Some (PhaseChange "ChampSelect"))))
            (EvTimer 3))
    = showFlagOnElement scenarioUrl rewardsIcon.
Proof.
  apply (entering_phase_takes_effect pageBody pageElements
           [ EvMessage (Some (HistoricState true 42 None)); assetUrlMessage scenarioUrl ]
           "ChampSelect" 2); vm_compute; reflexivity.
Defined.

(** ** The elements the plugin writes *)




